(* ===== verification/_CoqProject ===== *)
-Q . S2P
Prelude.v
Config.v
SessionId.v
Grid.v
Render.v
LocalGame.v
Snapshot.v
Replica.v
Server.v
SessionSpec.v
System.v
Client.v
Broadcast.v
