(* ===== verification/Prelude.v ===== *)
(** * Dots and Boxes (WeeJeWel/dots-and-boxes-v2): a verification library

    ** The program

    The repository holds a networked Dots and Boxes game and, beside it,
    an older single-page version.
    - [src/server/lib/Server.js] (with [src/server/lib/Util.js] and
      [src/config.js]): an express/socket.io server.  It keeps the
      sessions in [this.sessions] and answers four socket events:
      [createSession], [joinSession], [start] and [turn].  After each
      accepted event it broadcasts the whole session object
      [{ sessionId, started, player, players, turns }] to the socket.io
      room of the session.
    - [src/public/js/app.js]: the browser client.  Its [Game] object
      builds the board (lines with box listeners, boxes) and, on every
      broadcast, replays the whole turn log on the same object
      ([Game.setState], [Line.setPlayer], [Box.onLineClick],
      [Game.nextTurn]).  A click only sends a [turn] event.  The server
      decides nothing about the game itself: the client works out box
      ownership, turns and the winner.
    - [src/js/app.js]: the hot-seat game, with all players on one page.
      It keeps score counters in [Player] objects and fires box listeners
      with [forEach].

    ** Files and what they model

    - [Prelude] (this file): JavaScript semantics shared by all
      components.  It covers truthiness, [arr[i]] ([js_index]), doubles
      ([js_mul_int], [js_floor]), the stable [Array.prototype.sort]
      ([js_sort]), [forEach] and [some], and an exception monad [jsm]
      whose thrown exceptions keep the mutations made before them.  It
      also holds the hint databases [dnb] and [dnb_rw], the tactics
      [jsimp] and [decide_concrete], the [preserves] combinator for
      invariants of monadic code, and [respects] for monadic code that
      maps related states to related states.
    - [Config]: the table [PLAYERS] of [src/config.js].
    - [SessionId] (Module [SessionId]): [Util.createSessionId], the page
      route [/:sessionId([A-Za-z0-9]{5})] with the express app's order of
      static files and route ([http_get]), and the client's join-path
      test.
    - [Grid] (Module [Grid]): the board built by the [Game] constructors:
      lines keyed by [(direction, x, y)], box listeners, [construct_grid]
      for the nested loops, and [board_links], the structure that later
      operations preserve.
    - [Render] (Module [Render]): the SVG geometry the constructors draw:
      line segments, corner dots, box scribbles and the [viewBox], in the
      pixels the code computes.
    - [LocalGame] (Module [LocalGame]): the hot-seat game of
      [src/js/app.js].  [Player] objects live in a heap of references, so
      that [score++] is seen through [this.players].  It models
      [Line.onClick], [Box.onLineClick], [Game.nextTurn] with the in-place
      sort, the constructor and the [load] handler.  [reachable] is the
      page: a constructed game followed by any clicks.
    - [Snapshot]: the session object and the turn objects, as stored by
      the server and read by the client.
    - [Replica] (Module [Replica]): the client's [Game] of
      [src/public/js/app.js].  Its state is the [Game] record; each
      method is a [jsm Game] computation named after the source
      ([setPlayer], [onLineClick], [nextTurn], [renderStatus],
      [setState], [setPlayerId]).  [reachable] covers the constructor
      followed by [setState]/[setPlayerId] calls.
    - [Server] (Module [Server]): the session manager.  Session objects
      live in a heap ([heap], indexed by [Ref]); [sessions] and the
      sockets' [session] fields hold references, which keeps the aliasing
      of the code.  The socket.io rooms and the broadcast messages form
      an [outbox].  The handlers [onIOConnection], [onIOCreateSession],
      [onIOJoinSession], [onIOStart] and [onIOTurn] are translated line
      by line.  [this.sessions] is a plain object: an id that is no key
      but names a member of [Object.prototype] ([object_prototype_keys])
      reads an inherited value, and [onIOJoinSession] then throws an
      uncaught [TypeError] (the reply [Crash]; Node exits).  [handle]
      dispatches one event, and [reachable] is any sequence of events.
    - [SessionSpec] (Module [SessionSpec]): the spec's abstract Session
      Manager (phases, roster size, log, the named errors) and the
      abstraction [abs] of a server session object into it.
    - [System] (Module [System]): the server and the pages together.
      [inbox k sv] is the list of sessions broadcast to socket [k];
      [consume] feeds them to one [Game] through [setState], as the
      [socket.on('state', ...)] handler does.  [same_core] relates two
      [Game]s that differ only in rendering and status text; the replica's
      methods [respects] it.
    - [Client] (Module [Client]): the rest of the page.  [Lobby] and its
      methods, the [load] handler ([boot_request] from the path, the
      [joinSession] and [createSession] callbacks with their alerts,
      redirects and [pushState]), the ['state'] handler [on_state], and
      the line clicks that emit ['turn'].  The class [Rebuilds] states
      the spec's contract for a client view (its state after a snapshot
      depends on the snapshot only); the lobby is an instance, and
      [feed_last] proves any instance shows the last snapshot.
    - [Broadcast] (Module [Broadcast]): the Synchronization Broadcaster.
      [packets] lists what one event puts on the wire, in the order the
      handlers send it (the room broadcast, then the acknowledgement),
      and [wire k] what socket [k] receives; a handler that throws sends
      nothing.  [receive] dispatches a packet to the page's ['state']
      handler or to an acknowledgement callback.

    The components meet in two places.  [Snapshot.Session] is what
    [Server] stores and what [Replica.setState] replays.
    [Grid.construct_grid] is the loop of both [Game] constructors.
    [System] composes them: the server's broadcasts are replayed, one
    after another, on the same client [Game] object.  [Client] closes
    the loop: what the page emits is what the server's handlers receive,
    and what they broadcast is what [on_state] consumes.  [Broadcast]
    orders the two kinds of packets on each connection and feeds them to
    the page.

    ** What the theorems show (claims C1 to C37)

    - Replica (C1 to C6).
      - A drawn line gives the mover a bonus turn exactly when a box
        closes (C1).
      - Player 0's id is falsy: a box with a line of player 0 is never
        taken (C2), and such a line is taken over by a later turn (C6).
      - [Array.some] leaves the second box of a double closure unowned
        (C3).
      - Taking the last box throws the [ReferenceError] of the unbound
        [players] in [nextTurn] (C4).
      - A turn whose line is not on the board, or whose free line names a
        player id that indexes no player, stops the replay of the whole
        log with a [TypeError] (C5).
    - Server (C7 to C9, C19, C29, C30).
      - In every reachable state each session has 1 to 5 players and
        [player = turns mod players] (C7).
      - A rejected [joinSession] still binds the socket to the session
        (C8), and such a socket can then play (C9).
      - A new session whose random id is already live overwrites it and
        shares its socket.io room: the two games receive each other's
        broadcasts (C19).
      - Over any sequence of events a session object keeps its id, a
        started game stays started, and its roster and turn log only
        grow at their ends (C29).
      - Every roster is a prefix of [PLAYERS] (C30).
    - Grid (C10): the constructor builds exactly the boxes and lines of
      the spec's grid, each line listening to the boxes it bounds.
    - SessionId (C11): every generated id matches the route and the
      client's length test, whatever the random doubles are.
    - LocalGame (C12 to C17, C26, C27).
      - Every score counter equals the number of boxes its player owns
        (C12).
      - A click gives the mover every box it closes, one point each
        (C13).
      - The turn always passes: there is no bonus turn (C14).
      - The sort-based end-of-game test shows the spec's unique-maximum
        winner, or a tie (C15).
      - A finished game ignores clicks (C16).
      - With two or more players no click throws (C17).
      - Every effective click draws one more line (C26), so clicking
        every undrawn line ends the game (C27).
    - System (C18): replaying a longer log on the [Game] of a shorter one
      gives the same result as replaying it on the fresh page, as long as
      every old turn has a truthy player id.
    - Client (C20 to C25, C28).
      - The path a created session pushes parses back to its id, and the
        server admits the page loaded there as player 1 (C20).
      - Every [joinSession] rejection is one of the three codes the page
        handles with an alert and a redirect (C21).
      - The lobby's start button is enabled exactly when [onIOStart]
        accepts (C22).
      - The lobby shows the last broadcast (C23); no choice of preserved
        identity makes the game's replay meet that contract (C24).
      - A click is sent as a turn that every replica maps back to the
        clicked line, with no owner or turn check (C25).
      - At ['/' + id + '/'] express serves the page, but the page creates
        a new session instead of joining (C28).
    - Render (C31, C32): the bottom-right corner dot is drawn only when
      the height is the width or the width minus one (C31); everything
      drawn lies in the [viewBox] (C32).
    - SessionSpec (C33 to C35).
      - [onIOJoinSession] and [onIOStart] refine the spec's [joinSession]
        and [startSession], with the code's error strings, except a
        started game with a full roster (the code checks the roster
        first), the ids of [Object.prototype] members, and a socket whose
        session object was replaced (C33, C34).
      - For those ids the spec answers [SessionNotFound] but the code
        throws, in every reachable state (C35).
    - Broadcast (C36, C37).
      - A rejection reaches only its requester and changes no session
        or room (C36).
      - An accepted join reaches the joiner as the snapshot and then the
        acknowledgement, and the other members as the snapshot once; the
        joiner's lobby ends marking it as the last player (C37).

    Each invariant is proved by induction on a [reachable] relation
    ([Replica.reachable_wf], [Server.handle_preserves],
    [Server.handle_roster], [Server.handle_heap_below],
    [LocalGame.local_reachable_wf], [Server.reachable_keys_ok]).
    [Server.run_extends] composes the per-event history lemma
    [handle_extends] over any run.  Each theorem with hypotheses has a
    witness lemma that applies it to a concrete run evaluated by
    [vm_compute].

    ** Bounds and numbers

    Player ids, indices and coordinates are JavaScript numbers that stay
    small integers, so they are [Z] (the code never reaches the 2^53
    limit of exact integers).  The one fractional computation is
    [Math.floor(Math.random() * 62)].  It is modelled bit for bit: a
    double as mantissa and exponent, the product rounded to 53 bits half
    to even.  [SessionId.draw_rounds_up] shows a value where this differs
    from exact arithmetic, and [SessionId.draw_range] shows that the
    index still stays in [0, 62).  No definition uses fuel: every loop
    of the code runs over a list or a bounded range and is a structural
    [foldl] or [Fixpoint].  The hot-seat game terminates by a measure,
    the number of undrawn lines ([LocalGame.undrawn]).  Pixel positions
    ([Render]) are small integers as well.

    ** Not modelled

    - Colours, CSS classes, the scribble polyline, confetti and timers:
      rendering with no effect on the state ([Render] keeps the
      geometry).  [alert] and navigation are values of [Client.Effect].
    - The files under [public] and [sendFile]: I/O; which paths are
      static files is a parameter of [SessionId.http_get].
    - Disconnection and reconnection: the code registers no
      ['disconnect'] handler (socket.io then only drops the socket from
      its rooms), and the spec leaves reconnection out of scope.
    - A handler that throws ends the Node process; the model returns the
      state before the event, so [reachable] also contains the states a
      server would reach if it survived (an over-approximation that
      keeps the invariants sound).
    - [io()] and the DOM queries that only locate elements.
    The serialized
    processing of socket events is modelled after the spec
    ([Server.reachable], [Server.run]). *)

From stdpp Require Import base list gmap strings sorting.
From Stdlib Require Import ZArith Lia.

(** ** JavaScript values

    The program is JavaScript.  Numbers that the code uses as array
    indices and player ids are kept as [Z]; a value that may be
    [undefined] or [null] is an [option].  JavaScript truthiness matters
    in the code ([if (this.player) return;]), so it is written out. *)

(** [!!v] in JavaScript for a value that is a number or undefined/null:
    [0], [undefined] and [null] are falsy. *)
Definition truthy (v : option Z) : bool :=
  match v with
  | Some z => negb (z =? 0)%Z
  | None => false
  end.

(** [arr[i]] for a JavaScript array and a numeric index: [undefined]
    (here [None]) outside [0 <= i < arr.length]. *)
Definition js_index {A} (l : list A) (i : Z) : option A :=
  if (0 <=? i)%Z then l !! Z.to_nat i else None.

(** [arr[v]] where [v] may itself be undefined: [arr[undefined]] is
    [undefined]. *)
Definition js_index_opt {A} (l : list A) (v : option Z) : option A :=
  match v with
  | Some i => js_index l i
  | None => None
  end.

(** ** Doubles

    The one computation of the program on numbers that are not integers
    is [Math.floor(Math.random() * characters.length)].  A finite
    non-negative double is [dmant * 2 ^ dexp] with a 53-bit mantissa
    [0 <= dmant < 2 ^ 53] and [dexp >= -1074] ([double_ok]); every
    double has this form.  The product by a positive integer [c] is the
    exact product [c * dmant] at exponent [dexp], rounded to 53
    significant bits, half to even (IEEE 754 binary64, which JavaScript
    numbers are); products that overflow to [Infinity] are not
    considered. *)
Record double : Type := mkDouble {
  dmant : Z;
  dexp : Z;
}.

Definition double_ok (x : double) : Prop :=
  (0 <= dmant x < 2 ^ 53 /\ -1074 <= dexp x)%Z.

(** The value of [x] is below 1. *)
Definition double_lt_1 (x : double) : Prop :=
  if (0 <=? dexp x)%Z then (dmant x * 2 ^ dexp x < 1)%Z else (dmant x < 2 ^ (- dexp x))%Z.

(** [n / 2 ^ s] rounded to the nearest integer, ties to even. *)
Definition round_shift (n s : Z) : Z :=
  let q := (n / 2 ^ s)%Z in
  let r := (n mod 2 ^ s)%Z in
  if (2 * r <? 2 ^ s)%Z then q
  else if (2 ^ s <? 2 * r)%Z then (q + 1)%Z
  else if Z.even q then q else (q + 1)%Z.

(** [x * c] for an integer [c > 0]: the bits of [c * dmant x] beyond
    the 53 leading ones are rounded off. *)
Definition js_mul_int (x : double) (c : Z) : double :=
  let p := (c * dmant x)%Z in
  let s := Z.max 0 (Z.log2 p - 52) in
  mkDouble (round_shift p s) (dexp x + s).

(** [Math.floor(x)] for a non-negative double. *)
Definition js_floor (x : double) : Z :=
  if (0 <=? dexp x)%Z then (dmant x * 2 ^ dexp x)%Z else (dmant x / 2 ^ (- dexp x))%Z.

(** ** Exceptions with a persistent heap

    A thrown JavaScript exception does not roll back the mutations that
    were performed before it.  A computation on a state [S] therefore
    returns its outcome together with the state reached, also when it
    throws. *)

Inductive js_error : Type :=
  | TypeError
  | ReferenceError.

#[export] Instance js_error_eq_dec : EqDecision js_error.
Proof. solve_decision. Defined.

Inductive outcome (A : Type) : Type :=
  | Normal (a : A)
  | Thrown (e : js_error).
Arguments Normal {A} a.
Arguments Thrown {A} e.

Definition jsm (S A : Type) : Type := S -> outcome A * S.

Definition jret {S A} (a : A) : jsm S A := fun s => (Normal a, s).

Definition jbind {S A B} (m : jsm S A) (k : A -> jsm S B) : jsm S B :=
  fun s =>
    match m s with
    | (Normal a, s') => k a s'
    | (Thrown e, s') => (Thrown e, s')
    end.

Definition jthrow {S A} (e : js_error) : jsm S A := fun s => (Thrown e, s).

Definition jget {S} : jsm S S := fun s => (Normal s, s).

Definition jmodify {S} (f : S -> S) : jsm S unit := fun s => (Normal tt, f s).

Declare Scope js_scope.
Delimit Scope js_scope with js.

Notation "x <- m ;; k" := (jbind m (fun x => k))
  (at level 100, m at next level, right associativity) : js_scope.
Notation "m ;;; k" := (jbind m (fun _ => k))
  (at level 100, right associativity) : js_scope.

Local Open Scope js_scope.

(** [arr.forEach(f)]: the body runs on every element in order; an
    exception stops the loop and propagates. *)
Fixpoint jforEach {S A} (f : A -> jsm S unit) (l : list A) : jsm S unit :=
  match l with
  | [] => jret tt
  | x :: l' => f x ;;; jforEach f l'
  end.

(** [arr.some(f)]: stops at the first element for which [f] returns
    true. *)
Fixpoint jsome {S A} (f : A -> jsm S bool) (l : list A) : jsm S bool :=
  match l with
  | [] => jret false
  | x :: l' => b <- f x ;; if b then jret true else jsome f l'
  end.

(** [arr.sort(cmp)] for a consistent comparator: since ECMAScript 2019
    the sort is stable, so its result is the insertion sort below, where
    [R a b] means [cmp(a, b) <= 0] ([a] may stay before [b]): each element
    goes after every earlier element that may precede it. *)
Fixpoint js_sort_insert {A} (R : relation A) `{!RelDecision R} (x : A) (l : list A) : list A :=
  match l with
  | [] => [x]
  | y :: l' => if decide (R y x) then y :: js_sort_insert R x l' else x :: l
  end.

Definition js_sort {A} (R : relation A) `{!RelDecision R} (l : list A) : list A :=
  foldl (fun acc x => js_sort_insert R x acc) [] l.

(** [P] holds of the state after [m], whatever [m]'s outcome: an
    invariant of a stateful computation. *)
Definition preserves {S A} (P : S -> Prop) (m : jsm S A) : Prop :=
  forall s, P s -> P (snd (m s)).

(** [m] cannot tell [R]-related states apart: from related states it
    has the same outcome and reaches related states. *)
Definition respects {S A} (R : relation S) (m : jsm S A) : Prop :=
  forall s s', R s s' -> fst (m s) = fst (m s') /\ R (snd (m s)) (snd (m s')).

(** ** Generic lemmas *)

Create HintDb dnb discriminated.
Create Rewrite HintDb dnb_rw.

Lemma jbind_normal {S A B} (m : jsm S A) (k : A -> jsm S B) s a s' :
  m s = (Normal a, s') -> jbind m k s = k a s'.
Proof. intros Hm. unfold jbind. by rewrite Hm. Qed.

Lemma jbind_thrown {S A B} (m : jsm S A) (k : A -> jsm S B) s e s' :
  m s = (Thrown e, s') -> jbind m k s = (Thrown e, s').
Proof. intros Hm. unfold jbind. by rewrite Hm. Qed.

Lemma jforEach_app {S A} (f : A -> jsm S unit) l1 l2 s :
  jforEach f (l1 ++ l2) s = jbind (jforEach f l1) (fun _ => jforEach f l2) s.
Proof.
  revert s. induction l1 as [|x l1 IH]; intros s; [done|].
  cbn [jforEach app]. unfold jbind.
  destruct (f x s) as [[[]|e] s']; [|done].
  rewrite IH. reflexivity.
Qed.

(** A loop whose body leaves the state unchanged and does not throw on
    any element leaves the state unchanged. *)
Lemma jforEach_noop {S A} (f : A -> jsm S unit) l s :
  Forall (fun x => f x s = (Normal tt, s)) l ->
  jforEach f l s = (Normal tt, s).
Proof.
  induction 1 as [|x l Hx _ IH]; [done|].
  simpl. by rewrite (jbind_normal _ _ _ _ _ Hx).
Qed.

Lemma truthy_Some z : truthy (Some z) = true <-> z <> 0%Z.
Proof. simpl. rewrite negb_true_iff, Z.eqb_neq. done. Qed.

Lemma truthy_true v : truthy v = true -> exists z, v = Some z /\ z <> 0%Z.
Proof. destruct v as [z|]; [|done]. intros H. exists z. by rewrite truthy_Some in H. Qed.

Lemma js_index_Some {A} (l : list A) i :
  (0 <= i < Z.of_nat (length l))%Z -> is_Some (js_index l i).
Proof.
  intros Hi. unfold js_index. destruct (Z.leb_spec 0 i); [|lia].
  apply lookup_lt_is_Some_2. lia.
Qed.

Lemma js_index_None {A} (l : list A) i :
  js_index l i = None <-> (i < 0 \/ Z.of_nat (length l) <= i)%Z.
Proof.
  unfold js_index. destruct (Z.leb_spec 0 i).
  - rewrite lookup_ge_None. lia.
  - split; [lia|done].
Qed.

Lemma round_shift_nonneg n s : (0 <= n)%Z -> (0 <= s)%Z -> (0 <= round_shift n s)%Z.
Proof.
  intros Hn Hs. unfold round_shift.
  assert (0 <= n / 2 ^ s)%Z by (apply Z.div_pos; [done|apply Z.pow_pos_nonneg; lia]).
  repeat case_match; lia.
Qed.

Lemma round_shift_0 n : round_shift n 0 = n.
Proof. unfold round_shift. by rewrite Z.pow_0_r, Z.div_1_r, Z.mod_1_r. Qed.

(** Rounding [n / 2 ^ s] stays below [K] when [n / 2 ^ s < K - 1/2]. *)
Lemma round_shift_lt n s K :
  (0 <= s)%Z -> (2 * n < (2 * K - 1) * 2 ^ s)%Z -> (round_shift n s <= K - 1)%Z.
Proof.
  intros Hs Hn. unfold round_shift.
  assert (Hp : (0 < 2 ^ s)%Z) by (apply Z.pow_pos_nonneg; lia).
  pose proof (Z.div_mod n (2 ^ s) ltac:(lia)) as Hdm.
  pose proof (Z.mod_pos_bound n (2 ^ s) Hp) as Hr.
  set (q := (n / 2 ^ s)%Z) in *. set (r := (n mod 2 ^ s)%Z) in *.
  assert (Hq : (q <= K - 1)%Z) by nia.
  destruct (Z.ltb_spec (2 * r) (2 ^ s)); [lia|].
  assert (q <= K - 2)%Z by nia.
  repeat case_match; lia.
Qed.

Lemma js_index_app_l {A} (l1 l2 : list A) i :
  (i < Z.of_nat (length l1))%Z -> js_index (l1 ++ l2) i = js_index l1 i.
Proof.
  intros Hi. unfold js_index. destruct (Z.leb_spec 0 i); [|done].
  apply lookup_app_l. lia.
Qed.

Lemma filter_Forall_not {A} (P : A -> Prop) `{!forall x, Decision (P x)} (l : list A) :
  Forall (fun x => ~ P x) l -> filter P l = [].
Proof. induction 1; [done|]. by rewrite filter_cons_False. Qed.

(** Removing one element of a duplicate-free list shortens it by one. *)
Lemma NoDup_length_remove `{EqDecision A} (xs ys : list A) x :
  NoDup xs -> NoDup ys -> x ∈ xs -> (forall y, y ∈ ys <-> y ∈ xs /\ y <> x) ->
  S (length ys) = length xs.
Proof.
  intros Hxs Hys Hx H.
  assert (Hp : xs ≡ₚ x :: ys).
  { apply NoDup_Permutation; [done|constructor; [rewrite H; tauto|done]|].
    intros y. rewrite elem_of_cons, H. destruct (decide (y = x)); naive_solver. }
  by rewrite Hp.
Qed.

Section js_sort.
Context {A} (R : relation A) `{!RelDecision R}.

Lemma js_sort_insert_Permutation x l : js_sort_insert R x l ≡ₚ x :: l.
Proof.
  induction l as [|y l IH]; simpl; [done|].
  case_decide; [|done]. rewrite IH. apply Permutation_swap.
Qed.

Lemma js_sort_Permutation l : js_sort R l ≡ₚ l.
Proof.
  unfold js_sort. rewrite <- (app_nil_l l) at 2. generalize (@nil A).
  induction l as [|x l IH]; intros acc; simpl; [by rewrite app_nil_r|].
  rewrite IH, js_sort_insert_Permutation. simpl. apply Permutation_middle.
Qed.

Context `{!Transitive R, !Total R}.

Lemma js_sort_insert_sorted x l :
  StronglySorted R l -> StronglySorted R (js_sort_insert R x l).
Proof.
  induction l as [|y l IH]; simpl; intros Hs; [by repeat constructor|].
  apply StronglySorted_inv in Hs as [Hs Hy]. case_decide as Hyx.
  - constructor; [by apply IH|]. rewrite js_sort_insert_Permutation. by constructor.
  - assert (R x y) by (destruct (total R x y); [done|contradiction]).
    constructor; [by constructor|]. constructor; [done|].
    eapply Forall_impl; [exact Hy|]. intros z Hz. by trans y.
Qed.

Lemma js_sort_sorted l : StronglySorted R (js_sort R l).
Proof.
  unfold js_sort. assert (H0 : StronglySorted R (@nil A)) by constructor.
  revert H0. generalize (@nil A).
  induction l as [|x l IH]; intros acc Hacc; simpl; [done|].
  by apply IH, js_sort_insert_sorted.
Qed.

End js_sort.

#[export] Hint Resolve js_index_Some : dnb.
#[export] Hint Rewrite @jforEach_app : dnb_rw.

(** Closes a goal built from [/\], [\/], tuple equalities and linear
    arithmetic, choosing disjuncts by backtracking. *)
Ltac solve_disj_lia :=
  lazymatch goal with
  | |- _ /\ _ => split; solve_disj_lia
  | |- _ \/ _ => first [left; solve_disj_lia | right; solve_disj_lia]
  | |- False => fail
  | |- ?x = ?x => reflexivity
  | |- (_, _) = (_, _) => f_equal; solve_disj_lia
  | |- _ => lia
  end.

(** ** Invariants of stateful computations *)

Lemma preserves_ret {S A} (P : S -> Prop) (a : A) : preserves P (jret a).
Proof. by intros s. Qed.

Lemma preserves_bind {S A B} (P : S -> Prop) (m : jsm S A) (k : A -> jsm S B) :
  preserves P m -> (forall a, preserves P (k a)) -> preserves P (jbind m k).
Proof.
  intros Hm Hk s Hs. unfold jbind.
  specialize (Hm s Hs). destruct (m s) as [[a|e] s']; simpl in *; [by apply Hk|done].
Qed.

Lemma preserves_jforEach {S A} (P : S -> Prop) (f : A -> jsm S unit) l :
  (forall x, preserves P (f x)) -> preserves P (jforEach f l).
Proof.
  intros Hf. induction l as [|x l IH]; simpl; [apply preserves_ret|].
  apply preserves_bind; auto.
Qed.

#[export] Hint Resolve preserves_ret preserves_bind preserves_jforEach : dnb.

Lemma respects_ret {S A} (R : relation S) (a : A) : respects R (jret a).
Proof. by intros s s' H. Qed.

Lemma respects_bind {S A B} (R : relation S) (m : jsm S A) (k : A -> jsm S B) :
  respects R m -> (forall a, respects R (k a)) -> respects R (jbind m k).
Proof.
  intros Hm Hk s s' H. unfold jbind.
  destruct (Hm s s' H) as [Ho HR].
  destruct (m s) as [[a|e] t], (m s') as [[a'|e'] t']; simplify_eq/=; [by apply Hk|done].
Qed.

Lemma respects_jforEach {S A} (R : relation S) (f : A -> jsm S unit) l :
  (forall x, respects R (f x)) -> respects R (jforEach f l).
Proof.
  intros Hf. induction l as [|x l IH]; simpl; [apply respects_ret|].
  apply respects_bind; auto.
Qed.

#[export] Hint Resolve respects_ret respects_bind respects_jforEach : dnb.

Lemma jbind_jget {S B} (k : S -> jsm S B) s : jbind jget k s = k s s.
Proof. reflexivity. Qed.

Lemma jbind_jmodify {S B} (f : S -> S) (k : unit -> jsm S B) s :
  jbind (jmodify f) k s = k tt (f s).
Proof. reflexivity. Qed.

Lemma jbind_jret {S A B} (a : A) (k : A -> jsm S B) s : jbind (jret a) k s = k a s.
Proof. reflexivity. Qed.

Lemma jbind_jthrow {S A B} e (k : A -> jsm S B) s : jbind (jthrow e) k s = (Thrown e, s).
Proof. reflexivity. Qed.

Lemma jbind_assoc {S A B C} (m : jsm S A) (f : A -> jsm S B) (k : B -> jsm S C) s :
  jbind (jbind m f) k s = jbind m (fun a => jbind (f a) k) s.
Proof. unfold jbind. by destruct (m s) as [[a|e] s']. Qed.

Lemma jbind_jforEach_app {S A B} (f : A -> jsm S unit) l1 l2 (k : unit -> jsm S B) s :
  jbind (jforEach f (l1 ++ l2)) k s = jbind (jforEach f l1) (fun _ => jbind (jforEach f l2) k) s.
Proof. unfold jbind at 1. rewrite jforEach_app, <- jbind_assoc. reflexivity. Qed.

#[export] Hint Rewrite @jbind_jget @jbind_jmodify @jbind_jret @jbind_jthrow @jbind_assoc : dnb_rw.

(** Runs the monadic plumbing of a computation applied to a state. *)
Ltac jsimp := repeat (autorewrite with dnb_rw; cbn beta iota).

(** Decides a closed decidable proposition by evaluation. *)
Ltac decide_concrete := apply (bool_decide_unpack _); vm_compute; exact I.
