(* ===== verification/Config.v ===== *)
(** * Config: the roster of player slots ([src/config.js])

    [PLAYERS] is the fixed table of five name/colour pairs.  The server
    copies entry [i] into a session when the [i]-th player joins, so the
    table's length is the maximum number of players of a session. *)

From stdpp Require Import base list strings.
From S2P Require Import Prelude.

(** A player as the server stores it: the spread copy [{...PLAYERS[i]}]
    of a table entry. *)
Record Player : Type := mkPlayer {
  name : string;
  color : string;
}.

#[export] Instance Player_eq_dec : EqDecision Player.
Proof. solve_decision. Defined.

Definition PLAYERS : list Player := [
  mkPlayer "Mr. Pink" "pink";
  mkPlayer "Mr. Orange" "orange";
  mkPlayer "Mr. Blue" "blue";
  mkPlayer "Mr. Brown" "brown";
  mkPlayer "Mr. White" "white"
].

Lemma PLAYERS_length : length PLAYERS = 5.
Proof. reflexivity. Qed.

(** Every slot below the table's length has an entry: the server's
    [{...PLAYERS[players.length]}] never spreads [undefined] while the
    roster is below capacity. *)
Lemma PLAYERS_lookup (i : nat) : i < 5 -> is_Some (PLAYERS !! i).
Proof. intros Hi. apply lookup_lt_is_Some_2. simpl. lia. Qed.

#[export] Hint Resolve PLAYERS_lookup : dnb.
