(* ===== verification/SessionId.v ===== *)
(** * SessionId: [Util.createSessionId] ([src/server/lib/Util.js])

    The server names a new session by five characters drawn with
    [Math.random()] from a 62-character alphabet.  The random source is a
    parameter: [rand i] is the double returned by the [i]-th call of
    [Math.random()], which ECMAScript places in [[0, 1)].  The product
    [Math.random() * characters.length] is the rounded double product of
    the prelude ([js_mul_int]), and [Math.floor] its integer part; the
    rounding matters (see [draw_rounds_up]).  The same file models the
    route pattern
    [/:sessionId([A-Za-z0-9]{5})] of [src/server/lib/Server.js] and the
    client's [sessionId.length === 5] test, which both decide whether a
    path names a session, and the express app of the [Server]
    constructor ([http_get]): static files first, then the page route,
    which the non-strict router also matches with a trailing ['/']. *)

From stdpp Require Import base list.
From Stdlib Require Import String Ascii ZArith Lia.
From S2P Require Import Prelude.

Local Open Scope nat_scope.

Module SessionId.

Definition characters : string :=
  "ABCDEFGHIJKLMNOPQRSTUVWXYZabcdefghijklmnopqrstuvwxyz0123456789".

(** [characters[k]] appended to a string: JavaScript appends the text
    ["undefined"] when [k] is outside the string. *)
Definition char_at (k : Z) : string :=
  if (0 <=? k)%Z then
    match String.get (Z.to_nat k) characters with
    | Some c => String c EmptyString
    | None => "undefined"
    end
  else "undefined".

(** [Math.floor(Math.random() * characters.length)] for the [i]-th draw. *)
Definition draw (rand : nat -> double) (i : nat) : Z :=
  js_floor (js_mul_int (rand i) (Z.of_nat (String.length characters))).

(** The loop [for (let i = 0; i < length; i++) result += characters[...]],
    with [i] the index of the next draw. *)
Fixpoint createSessionId_loop (rand : nat -> double) (i n : nat) (result : string)
    : string :=
  match n with
  | O => result
  | S n' => createSessionId_loop rand (S i) n' (String.append result (char_at (draw rand i)))
  end.

Definition createSessionId (rand : nat -> double) (length : nat) : string :=
  createSessionId_loop rand 0 length "".

(** The default [length = 5] of [createSessionId(length = 5)]. *)
Definition createSessionId_default (rand : nat -> double) : string :=
  createSessionId rand 5.

(** The character class [[A-Za-z0-9]]. *)
Definition is_alnum (c : ascii) : bool :=
  let n := nat_of_ascii c in
  ((65 <=? n) && (n <=? 90)) || ((97 <=? n) && (n <=? 122)) || ((48 <=? n) && (n <=? 57)).

(** The express route [/:sessionId([A-Za-z0-9]{5})]: exactly five
    characters of the class. *)
Definition route_matches (s : string) : bool :=
  (String.length s =? 5) && forallb is_alnum (list_ascii_of_string s).

(** The client's test [sessionId.length === 5] on the path. *)
Definition client_is_join_path (s : string) : bool := String.length s =? 5.

(** ** The express app of the [Server] constructor *)

(** The answer to a [GET] of a path. *)
Inductive Response : Type :=
  | StaticFile (path : string)   (** [express.static(public)] *)
  | IndexPage                    (** [res.sendFile(public/index.html)] *)
  | NotFound.                    (** express's final 404 handler *)

(** The path without its last character when that is a ['/']. *)
Definition drop_trailing_slash (s : string) : option string :=
  match list_ascii_of_string s with
  | [] => None
  | cs => if Ascii.eqb (List.last cs "a"%char) "/"%char
          then Some (string_of_list_ascii (removelast cs)) else None
  end.

(** [this.app.use(express.static(...))] then
    [this.app.get('/:sessionId([A-Za-z0-9]{5})', ...)].  The static
    middleware answers the paths of the files under [public] (the
    parameter [is_static]); the router, non-strict by default, also
    accepts the route with one trailing ['/']. *)
Definition http_get (is_static : string -> bool) (path : string) : Response :=
  if is_static path then StaticFile path
  else
    match path with
    | String "/"%char seg =>
        if route_matches seg then IndexPage
        else match drop_trailing_slash seg with
             | Some seg' => if route_matches seg' then IndexPage else NotFound
             | None => NotFound
             end
    | _ => NotFound
    end.

(** Two values of [Math.random()]: [0.5], for which [0.5 * 62 = 31] and
    [characters[31]] is ["f"]; and the double [edge = m / 2 ^ 52] with
    [m = (2 ^ 55 - 1) / 31], whose exact product by 62 is [16 - 2 ^ -51]
    but whose double product rounds to [16]. *)
Definition half : double := mkDouble 1 (-1).
Definition edge : double := mkDouble 1162219258676257 (-52).

(** ** Lemmas *)

Lemma characters_length : String.length characters = 62.
Proof. reflexivity. Qed.

(** A draw from a double in [[0, 1)] lands in [[0, 62)]: the rounded
    product never reaches 62. *)
Lemma draw_range (rand : nat -> double) i :
  double_ok (rand i) -> double_lt_1 (rand i) -> (0 <= draw rand i < 62)%Z.
Proof.
  unfold draw, double_ok, double_lt_1, js_floor, js_mul_int. rewrite characters_length.
  change (Z.of_nat 62) with 62%Z. destruct (rand i) as [m e]; cbn [dmant dexp].
  intros [[Hm0 Hm] He]. destruct (Z.leb_spec 0 e) as [He0|He0]; intros Hlt.
  { assert (H1 : (1 <= 2 ^ e)%Z) by (pose proof (Z.pow_pos_nonneg 2 e); lia).
    assert (m = 0)%Z as -> by (set (t := (2 ^ e)%Z) in *; nia).
    replace (round_shift (62 * 0) (Z.max 0 (Z.log2 (62 * 0) - 52))) with 0%Z by reflexivity.
    case_match; [lia|]. rewrite Z.div_0_l; [lia|].
    apply Z.pow_nonzero; lia. }
  set (k := (- e)%Z) in *. assert (Hk : (0 < k)%Z) by lia.
  set (p := (62 * m)%Z). assert (Hpn : (0 <= p < 62 * 2 ^ k)%Z) by (unfold p; lia).
  assert (Hp59 : (p < 2 ^ 59)%Z) by (unfold p; change (2 ^ 59)%Z with (64 * 2 ^ 53)%Z; lia).
  assert (Hs6 : (Z.log2 p - 52 <= 6)%Z).
  { destruct (Z.lt_ge_cases 0 p) as [Hp0|Hp0].
    - assert (Z.log2 p < 59)%Z by (apply Z.log2_lt_pow2; lia). lia.
    - rewrite Z.log2_nonpos by lia. lia. }
  set (s := Z.max 0 (Z.log2 p - 52)).
  assert (Hs : (0 <= s <= 6)%Z) by lia.
  destruct (Z.eq_dec s 0) as [Hs0|Hs0].
  - rewrite Hs0, round_shift_0, Z.add_0_r. destruct (Z.leb_spec 0 e); [lia|].
    fold k. assert (H2 : (0 < 2 ^ k)%Z) by (apply Z.pow_pos_nonneg; lia).
    split; [apply Z.div_pos; lia|]. apply Z.div_lt_upper_bound; lia.
  - assert (Hp53 : (2 ^ 53 <= p)%Z).
    { destruct (Z.lt_ge_cases 0 p) as [Hp0|Hp0].
      - apply Z.log2_le_pow2; lia.
      - exfalso. unfold s in Hs0. rewrite Z.log2_nonpos in Hs0 by lia. lia. }
    assert (Hk48 : (48 <= k)%Z).
    { destruct (Z.lt_ge_cases k 48) as [Hk'|]; [exfalso|done].
      assert (2 ^ k <= 2 ^ 47)%Z by (apply Z.pow_le_mono_r; lia).
      change (2 ^ 53)%Z with (64 * 2 ^ 47)%Z in Hp53. unfold p in Hp53. lia. }
    assert (Hks : (2 ^ k = 2 ^ (k - s) * 2 ^ s)%Z)
      by (rewrite <- Z.pow_add_r by lia; f_equal; lia).
    assert (H2s : (2 ^ s <= 64)%Z) by (change 64%Z with (2 ^ 6)%Z; apply Z.pow_le_mono_r; lia).
    assert (H2ks : (0 < 2 ^ (k - s))%Z) by (apply Z.pow_pos_nonneg; lia).
    assert (HR : (round_shift p s <= 62 * 2 ^ (k - s) - 1)%Z).
    { apply round_shift_lt; [lia|]. unfold p. nia. }
    pose proof (round_shift_nonneg p s ltac:(unfold p; lia) ltac:(lia)) as HR0.
    destruct (Z.leb_spec 0 (e + s)); [lia|].
    replace (- (e + s))%Z with (k - s)%Z by lia.
    split; [apply Z.div_pos; lia|]. apply Z.div_lt_upper_bound; lia.
Qed.

Lemma characters_alnum (k : nat) :
  k < 62 -> exists c, String.get k characters = Some c /\ is_alnum c = true.
Proof.
  intros Hk.
  assert (Hall : forallb (fun k => match String.get k characters with
                                   | Some c => is_alnum c | None => false end)
                         (seq 0 62) = true) by (vm_compute; reflexivity).
  rewrite forallb_forall in Hall. specialize (Hall k).
  rewrite in_seq in Hall. specialize (Hall ltac:(lia)).
  destruct (String.get k characters) as [c|]; [eauto|done].
Qed.

Lemma char_at_alnum (k : Z) :
  (0 <= k < 62)%Z -> exists c, char_at k = String c EmptyString /\ is_alnum c = true.
Proof.
  intros Hk. unfold char_at. destruct (Z.leb_spec 0 k); [|lia].
  destruct (characters_alnum (Z.to_nat k) ltac:(lia)) as (c & -> & Hc). eauto.
Qed.

Lemma list_ascii_of_string_append s1 s2 :
  list_ascii_of_string (String.append s1 s2) =
  list_ascii_of_string s1 ++ list_ascii_of_string s2.
Proof. induction s1 as [|c s1 IH]; simpl; [done|]. by rewrite IH. Qed.

Lemma length_append s1 s2 :
  String.length (String.append s1 s2) = String.length s1 + String.length s2.
Proof. induction s1 as [|c s1 IH]; simpl; [done|]. by rewrite IH. Qed.

(** The loop invariant: each round appends one alphanumeric character. *)
Lemma createSessionId_loop_spec (rand : nat -> double) i n result :
  (forall j, double_ok (rand j) /\ double_lt_1 (rand j)) ->
  String.length (createSessionId_loop rand i n result) = String.length result + n /\
  forallb is_alnum (list_ascii_of_string (createSessionId_loop rand i n result)) =
  forallb is_alnum (list_ascii_of_string result).
Proof.
  intros Hr. revert i result. induction n as [|n IH]; intros i result; simpl.
  - split; [lia|done].
  - destruct (Hr i) as [Hok Hlt1].
    destruct (char_at_alnum (draw rand i) (draw_range rand i Hok Hlt1)) as (c & Hc & Hal).
    destruct (IH (S i) (String.append result (char_at (draw rand i)))) as [IHl IHa].
    rewrite IHl, IHa, Hc, length_append, list_ascii_of_string_append, forallb_app.
    simpl. rewrite Hal. split; [lia|]. by rewrite andb_true_r.
Qed.

(** The path of a session with one trailing ['/'] loses it. *)
Lemma drop_trailing_slash_app s : drop_trailing_slash (String.append s "/") = Some s.
Proof.
  unfold drop_trailing_slash. rewrite list_ascii_of_string_append. cbn [list_ascii_of_string].
  destruct (list_ascii_of_string s ++ ["/"%char]) as [|c cs] eqn:E;
    [by destruct (list_ascii_of_string s)|].
  rewrite <- E, List.last_last, removelast_last, string_of_list_ascii_of_string. done.
Qed.

(** C11: every identifier [createSessionId()] generates, whatever the
    doubles [Math.random()] returns in [[0, 1)], has exactly five
    characters from [[A-Za-z0-9]]: it matches the server's page route
    and passes the client's [length === 5] test, so a shared link always
    reaches the join path. *)
Theorem createSessionId_matches_route (rand : nat -> double) :
  (forall j, double_ok (rand j) /\ double_lt_1 (rand j)) ->
  route_matches (createSessionId_default rand) = true /\
  client_is_join_path (createSessionId_default rand) = true.
Proof.
  intros Hr. destruct (createSessionId_loop_spec rand 0 5 "" Hr) as [Hl Ha].
  unfold route_matches, client_is_join_path, createSessionId_default, createSessionId.
  rewrite Hl, Ha. done.
Qed.

(** The double rounding of [Math.random() * 62] is observable: at [edge]
    the exact product has integer part 15, the double product 16. *)
Lemma draw_rounds_up :
  double_ok edge /\ double_lt_1 edge /\
  (62 * dmant edge / 2 ^ (- dexp edge) = 15)%Z /\ draw (fun _ => edge) 0 = 16%Z.
Proof. vm_compute. repeat split; discriminate || reflexivity. Qed.

Lemma createSessionId_matches_route_witness :
  (forall j, double_ok ((fun _ : nat => half) j) /\ double_lt_1 ((fun _ : nat => half) j)) /\
  route_matches (createSessionId_default (fun _ => half)) = true /\
  createSessionId_default (fun _ => half) = "fffff"%string.
Proof.
  assert (H : forall j, double_ok ((fun _ : nat => half) j) /\ double_lt_1 ((fun _ : nat => half) j))
    by (intros j; vm_compute; repeat split; discriminate).
  split; [exact H|]. split; [apply (createSessionId_matches_route _ H)|].
  vm_compute. reflexivity.
Defined.

End SessionId.
