(* ===== verification/Grid.v ===== *)
(** * Grid: the board the browser client builds ([src/public/js/app.js])

    The [Game] constructor walks the boxes column by column
    ([for x ... for y ...]) and, for each box, reuses or creates its four
    lines ([this.lines[d][x][y] = this.lines[d][x][y] || new Line...]).
    It then creates the [Box], whose constructor registers a listener on
    [lineLeft], [lineTop], [lineRight] and [lineBottom], in that order.
    The nested arrays [this.lines.h] and [this.lines.v] are one map keyed
    by [(direction, x, y)]; a missing key is the [undefined] the arrays
    hold there.  A listener is identified by the box that registered it.

    The main result, [construct_grid_spec], computes the board: the lines
    are exactly the sides of the [width * height] boxes, each line's
    listeners are the boxes it bounds, in construction order, and no line
    nor box is owned. *)

From stdpp Require Import base list gmap.
From Stdlib Require Import ZArith Lia.
From S2P Require Import Prelude.

Local Open Scope Z_scope.

Module Grid.

(** The two subclasses [LineHorizontal] and [LineVertical] of [Line]; the
    code's key ['h'] or ['v'] into [this.lines]. *)
Inductive direction : Type :=
  | LineHorizontal
  | LineVertical.

#[export] Instance direction_eq_dec : EqDecision direction.
Proof. solve_decision. Defined.

#[export] Instance direction_countable : Countable direction.
Proof.
  refine (inj_countable'
    (fun d => match d with LineHorizontal => true | LineVertical => false end)
    (fun b => if b then LineHorizontal else LineVertical) _).
  by intros [].
Defined.

(** [this.lines[d][x][y]] and [this.boxes[y][x]] *)
Definition LineId : Type := (direction * Z * Z)%type.
Definition BoxId : Type := (Z * Z)%type.

(** A [Line] object: its owner [this.player] (initially [null]) and its
    [this.listeners] array. *)
Record Line : Type := mkLine {
  lplayer : option Z;
  listeners : list BoxId;
}.

(** A [Box] object: its owner [this.player] (initially [null]).  Its
    coordinates are its key, its four lines are [box_lines]. *)
Record Box : Type := mkBox {
  bplayer : option Z;
}.

Definition new_line : Line := mkLine None [].
Definition new_box : Box := mkBox None.

Definition lineLeft (b : BoxId) : LineId := (LineVertical, b.1, b.2).
Definition lineTop (b : BoxId) : LineId := (LineHorizontal, b.1, b.2).
Definition lineRight (b : BoxId) : LineId := (LineVertical, b.1 + 1, b.2).
Definition lineBottom (b : BoxId) : LineId := (LineHorizontal, b.1, b.2 + 1).

(** The order in which [new Box] registers its listeners. *)
Definition box_lines (b : BoxId) : list LineId :=
  [lineLeft b; lineTop b; lineRight b; lineBottom b].

Record Board : Type := mkBoard {
  lines : gmap LineId Line;
  boxes : gmap BoxId Box;
}.

(** [this.lines[d][x][y] = this.lines[d][x][y] || new Line(...)] *)
Definition ensure_line (l : LineId) (ls : gmap LineId Line) : gmap LineId Line :=
  match ls !! l with
  | Some _ => ls
  | None => <[l := new_line]> ls
  end.

(** [line.addListener(fn)]: [this.listeners.push(fn)]. *)
Definition addListener (b : BoxId) (l : LineId) (ls : gmap LineId Line)
    : gmap LineId Line :=
  alter (fun ln => mkLine (lplayer ln) (listeners ln ++ [b])) l ls.

(** One iteration of the inner loop: the four lines, then [new Box]. *)
Definition construct_box (g : Board) (b : BoxId) : Board :=
  let ls := ensure_line (lineTop b) (lines g) in
  let ls := ensure_line (lineBottom b) ls in
  let ls := ensure_line (lineLeft b) ls in
  let ls := ensure_line (lineRight b) ls in
  let ls := foldl (fun ls l => addListener b l ls) ls (box_lines b) in
  mkBoard ls (<[b := new_box]> (boxes g)).

(** [for (let x = 0; x < this.width; x++) for (let y = 0; y < this.height; y++)] *)
Definition construct_grid (width height : Z) : Board :=
  foldl (fun g x => foldl (fun g y => construct_box g (x, y)) g (seqZ 0 height))
        (mkBoard ∅ ∅) (seqZ 0 width).

(** The boxes in the order the constructor creates them. *)
Definition box_order (width height : Z) : list BoxId :=
  seqZ 0 width ≫= (fun x => (fun y => (x, y)) <$> seqZ 0 height).

(** The abstract board: a line exists when it bounds a box, and its
    listeners are the boxes it bounds, in creation order. *)
Definition line_spec (B : list BoxId) (l : LineId) : option Line :=
  match filter (fun b => l ∈ box_lines b) B with
  | [] => None
  | bs => Some (mkLine None bs)
  end.

(** The spec's [boxesAdjacentTo(line)]: the boxes of a [width * height]
    board that a line bounds (used to state what the constructor builds). *)
Definition boxesAdjacentTo (w h : Z) (l : LineId) : list BoxId :=
  match l with
  | (LineHorizontal, x, y) =>
      (if decide (0 <= x < w /\ 1 <= y <= h) then [(x, y - 1)] else []) ++
      (if decide (0 <= x < w /\ 0 <= y < h) then [(x, y)] else [])
  | (LineVertical, x, y) =>
      (if decide (1 <= x <= w /\ 0 <= y < h) then [(x - 1, y)] else []) ++
      (if decide (0 <= x < w /\ 0 <= y < h) then [(x, y)] else [])
  end.

(** The links between lines and boxes that the constructor sets up and
    that no later operation changes: a line's listeners are distinct boxes
    of the board it bounds (at least one), and each side of a box is a
    line listening to it. *)
Definition board_links (bd : Board) : Prop :=
  (forall (l : LineId) ln, lines bd !! l = Some ln ->
     NoDup (listeners ln) /\ listeners ln <> [] /\
     forall b, b ∈ listeners ln -> is_Some (boxes bd !! b) /\ l ∈ box_lines b) /\
  (forall b bx l, boxes bd !! b = Some bx -> l ∈ box_lines b ->
     exists ln, lines bd !! l = Some ln /\ b ∈ listeners ln).

(** ** Lemmas *)

Lemma construct_grid_order w h :
  construct_grid w h = foldl construct_box (mkBoard ∅ ∅) (box_order w h).
Proof.
  unfold construct_grid, box_order. generalize (mkBoard ∅ ∅).
  induction (seqZ 0 w) as [|x xs IH]; intros g; [done|].
  simpl. rewrite foldl_app, IH. f_equal.
  clear. revert g. induction (seqZ 0 h) as [|y ys IH]; intros g; [done|]. simpl. apply IH.
Qed.

Lemma ensure_line_lookup l' ls l :
  ensure_line l' ls !! l =
  if decide (l = l') then Some (default new_line (ls !! l)) else ls !! l.
Proof.
  unfold ensure_line. case_decide as Hl; subst.
  - destruct (ls !! l') eqn:E; [done|]. by rewrite lookup_insert_eq.
  - destruct (ls !! l') eqn:E; [done|]. by rewrite lookup_insert_ne.
Qed.

Lemma foldl_addListener_lookup b (L : list LineId) ls l :
  NoDup L ->
  foldl (fun ls l => addListener b l ls) ls L !! l =
  if decide (l ∈ L) then (fun ln => mkLine (lplayer ln) (listeners ln ++ [b])) <$> ls !! l
  else ls !! l.
Proof.
  intros HL. revert ls. induction HL as [|l0 L Hl0 HL IH]; intros ls; cbn [foldl].
  - case_decide; [set_solver|done].
  - rewrite IH. unfold addListener. rewrite lookup_alter.
    repeat case_decide; subst; try done; exfalso; set_solver.
Qed.

Lemma box_lines_NoDup b : NoDup (box_lines b).
Proof.
  destruct b as [x y]. unfold box_lines, lineLeft, lineTop, lineRight, lineBottom.
  repeat (rewrite NoDup_cons; split); [..|apply NoDup_nil_2];
    rewrite list_elem_of_In; simpl; intros Hc;
    repeat destruct Hc as [Hc|Hc]; simplify_eq; lia.
Qed.

(** One constructor round as an update of the abstract board. *)
Lemma construct_box_lines g b l :
  lines (construct_box g b) !! l =
  if decide (l ∈ box_lines b)
  then Some (mkLine (default None (lplayer <$> lines g !! l))
                    (default [] (listeners <$> lines g !! l) ++ [b]))
  else lines g !! l.
Proof.
  unfold construct_box. cbn [lines].
  rewrite foldl_addListener_lookup by apply box_lines_NoDup.
  rewrite !ensure_line_lookup.
  repeat case_decide; subst; unfold box_lines in *;
    try (exfalso; set_solver);
    try (exfalso; destruct b; unfold lineTop, lineBottom, lineLeft, lineRight in *;
         simplify_eq; lia);
    destruct (lines g !! _); done.
Qed.

Lemma line_spec_snoc B b l :
  line_spec (B ++ [b]) l =
  if decide (l ∈ box_lines b)
  then Some (mkLine None (default [] (listeners <$> line_spec B l) ++ [b]))
  else line_spec B l.
Proof.
  unfold line_spec. rewrite filter_app. simpl. rewrite filter_cons, filter_nil.
  case_decide; [|by rewrite app_nil_r].
  by destruct (filter (fun b => l ∈ box_lines b) B).
Qed.

(** The construction loop computes the abstract board. *)
Lemma construct_boxes_spec B :
  (forall l, lines (foldl construct_box (mkBoard ∅ ∅) B) !! l = line_spec B l) /\
  (forall b, boxes (foldl construct_box (mkBoard ∅ ∅) B) !! b =
             if decide (b ∈ B) then Some new_box else None).
Proof.
  induction B as [|b B IH] using rev_ind.
  - split; intros; cbn [foldl lines boxes]; rewrite lookup_empty; [done|].
    case_decide; [set_solver|done].
  - destruct IH as [IHl IHb]. rewrite foldl_app. cbn [foldl]. split.
    + intros l. rewrite construct_box_lines, line_spec_snoc, IHl.
      case_decide; [|done]. f_equal. f_equal.
      destruct (line_spec B l) eqn:E; [|done]. simpl.
      unfold line_spec in E. by destruct (filter _ B); simplify_eq.
    + intros b'. unfold construct_box. cbn [boxes]. rewrite lookup_insert, IHb.
      repeat case_decide; subst; try done; exfalso; set_solver.
Qed.

Lemma elem_of_box_order w h b :
  b ∈ box_order w h <-> 0 <= b.1 < w /\ 0 <= b.2 < h.
Proof.
  destruct b as [x y]. unfold box_order. rewrite list_elem_of_bind. simpl. split.
  - intros (x' & Hy & Hx). apply list_elem_of_fmap in Hy as (y' & Heq & Hy).
    simplify_eq. rewrite elem_of_seqZ in Hx, Hy. lia.
  - intros [Hx Hy]. exists x. split; [|rewrite elem_of_seqZ; lia].
    apply list_elem_of_fmap. exists y. split; [done|]. rewrite elem_of_seqZ. lia.
Qed.

Lemma box_order_NoDup w h : NoDup (box_order w h).
Proof.
  unfold box_order. apply NoDup_bind; [| |apply NoDup_seqZ].
  - intros x1 x2 b H1 H2 Hb1 Hb2.
    apply list_elem_of_fmap in Hb1 as (? & -> & _).
    apply list_elem_of_fmap in Hb2 as (? & ? & _). by simplify_eq.
  - intros x _. apply NoDup_fmap_2; [|apply NoDup_seqZ].
    intros y1 y2 Heq. by simplify_eq.
Qed.

Lemma elem_of_line_spec B l ln b :
  line_spec B l = Some ln -> b ∈ listeners ln <-> b ∈ B /\ l ∈ box_lines b.
Proof.
  unfold line_spec. intros E.
  destruct (filter _ B) as [|b0 bs] eqn:F; simplify_eq; simpl.
  rewrite <- F, list_elem_of_filter. tauto.
Qed.

Lemma line_spec_NoDup B l ln :
  NoDup B -> line_spec B l = Some ln -> NoDup (listeners ln).
Proof.
  unfold line_spec. intros HB E.
  destruct (filter _ B) as [|b0 bs] eqn:F; simplify_eq; simpl.
  rewrite <- F. by apply NoDup_filter.
Qed.

Lemma adjacent_iff w h l b :
  (b ∈ box_order w h /\ l ∈ box_lines b) <-> b ∈ boxesAdjacentTo w h l.
Proof.
  rewrite elem_of_box_order. destruct l as [[d x] y], b as [bx by'].
  unfold box_lines, lineLeft, lineTop, lineRight, lineBottom, boxesAdjacentTo.
  destruct d; cbv beta iota; repeat case_decide; rewrite !list_elem_of_In; simpl; split;
    intros; repeat match goal with
                   | H : _ /\ _ |- _ => destruct H
                   | H : _ \/ _ |- _ => destruct H
                   end; simplify_eq; try lia; solve_disj_lia.
Qed.

Lemma boxesAdjacentTo_NoDup w h l : NoDup (boxesAdjacentTo w h l).
Proof.
  destruct l as [[[] x] y]; simpl; repeat case_decide; simpl;
    repeat constructor; rewrite ?list_elem_of_In; simpl;
    intros Hc; repeat destruct Hc as [Hc|Hc]; simplify_eq; lia.
Qed.

(** The constructor links every line to the boxes it bounds. *)
Lemma construct_grid_links w h : board_links (construct_grid w h).
Proof.
  rewrite construct_grid_order.
  destruct (construct_boxes_spec (box_order w h)) as [Hl Hb]. split.
  - intros l ln. rewrite Hl. intros E.
    split; [eapply line_spec_NoDup; [apply box_order_NoDup|exact E]|].
    split; [unfold line_spec in E; destruct (filter _ _); by simplify_eq|].
    intros b Hin. apply (elem_of_line_spec _ _ _ _ E) in Hin as [HB Hbl].
    split; [|done]. rewrite Hb. case_decide; [done|contradiction].
  - intros b bx l. rewrite Hb. case_decide as HB; [|done]. intros _ Hbl.
    rewrite Hl. unfold line_spec.
    destruct (filter _ _) as [|b0 bs] eqn:F.
    + exfalso. eapply filter_nil_not_elem_of; [exact F|exact Hbl|exact HB].
    + eexists; split; [done|]. simpl. rewrite <- F, list_elem_of_filter. done.
Qed.

(** The constructor creates exactly the lines that bound a box. *)
Lemma construct_grid_line_exists w h l :
  is_Some (lines (construct_grid w h) !! l) <-> boxesAdjacentTo w h l <> [].
Proof.
  rewrite construct_grid_order. destruct (construct_boxes_spec (box_order w h)) as [Hl _].
  rewrite Hl. unfold line_spec. split.
  - intros Hs HA. destruct (filter _ _) as [|b bs] eqn:F; [by destruct Hs|].
    assert (Hb : b ∈ filter (fun b => l ∈ box_lines b) (box_order w h)) by (rewrite F; left).
    rewrite list_elem_of_filter in Hb. destruct Hb as [Hb1 Hb2].
    assert (Hadj : b ∈ boxesAdjacentTo w h l) by (by apply adjacent_iff).
    rewrite HA in Hadj. set_solver.
  - intros HA. destruct (boxesAdjacentTo w h l) as [|b bs] eqn:A; [done|].
    assert (Hb' : b ∈ boxesAdjacentTo w h l) by (rewrite A; left).
    apply adjacent_iff in Hb' as [Hin Hl']. destruct (filter _ _) eqn:F; [|by eexists].
    exfalso. eapply filter_nil_not_elem_of; [exact F|exact Hl'|exact Hin].
Qed.

(** The constructor creates exactly the [width * height] boxes. *)
Lemma construct_grid_box_exists w h b :
  is_Some (boxes (construct_grid w h) !! b) <-> 0 <= b.1 < w /\ 0 <= b.2 < h.
Proof.
  rewrite construct_grid_order. destruct (construct_boxes_spec (box_order w h)) as [_ Hb].
  rewrite Hb, <- elem_of_box_order. case_decide; split; intros; try done; by eexists || by destruct H0.
Qed.

(** The links only depend on the listeners and on which boxes exist. *)
Lemma board_links_same bd bd' :
  (forall l, listeners <$> lines bd' !! l = listeners <$> lines bd !! l) ->
  (forall b, is_Some (boxes bd' !! b) <-> is_Some (boxes bd !! b)) ->
  board_links bd -> board_links bd'.
Proof.
  intros HL HB [H1 H2]. split.
  - intros l ln' E'. specialize (HL l). rewrite E' in HL.
    destruct (lines bd !! l) as [ln|] eqn:E; simplify_eq/=.
    rewrite HL. destruct (H1 l ln E) as (? & ? & H3). do 2 (split; [done|]).
    intros b Hb. destruct (H3 b Hb). rewrite HB. done.
  - intros b bx' l E' Hl. destruct (proj1 (HB b) (mk_is_Some _ _ E')) as [bx E].
    destruct (H2 b bx l E Hl) as (ln & Eln & Hin). specialize (HL l).
    rewrite Eln in HL. destruct (lines bd' !! l) as [ln'|]; simplify_eq/=.
    exists ln'. rewrite HL. done.
Qed.

(** C10: the [Game] constructor builds the board of the spec: the boxes
    are exactly the [width * height] cells, unowned; a line exists exactly
    when it bounds a box, it is unowned, and its listeners are the boxes
    it bounds ([boxesAdjacentTo]: one for an edge line, two for an
    interior line), each registered once. *)
Theorem construct_grid_spec w h :
  (forall b, boxes (construct_grid w h) !! b =
     if decide (0 <= b.1 < w /\ 0 <= b.2 < h) then Some new_box else None) /\
  (forall l, match lines (construct_grid w h) !! l with
             | Some ln => lplayer ln = None /\ NoDup (listeners ln) /\
                          listeners ln ≡ₚ boxesAdjacentTo w h l
             | None => boxesAdjacentTo w h l = []
             end).
Proof.
  rewrite construct_grid_order.
  destruct (construct_boxes_spec (box_order w h)) as [Hl Hb]. split.
  - intros b. rewrite Hb. do 2 case_decide; try done; exfalso;
      match goal with H : _ |- _ => rewrite elem_of_box_order in H end; tauto.
  - intros l. rewrite Hl. destruct (line_spec (box_order w h) l) as [ln|] eqn:E.
    + assert (HN : NoDup (listeners ln))
        by (eapply line_spec_NoDup; [apply box_order_NoDup|exact E]).
      split; [|split; [done|]].
      * unfold line_spec in E. destruct (filter _ _); by simplify_eq.
      * apply NoDup_Permutation; [done|apply boxesAdjacentTo_NoDup|].
        intros b. rewrite (elem_of_line_spec _ _ _ _ E). apply adjacent_iff.
    + destruct (boxesAdjacentTo w h l) as [|b bs] eqn:A; [done|exfalso].
      assert (Hb' : b ∈ boxesAdjacentTo w h l) by (rewrite A; left).
      apply adjacent_iff in Hb' as [Hin Hl'].
      unfold line_spec in E. destruct (filter _ _) eqn:F; [|done].
      eapply filter_nil_not_elem_of; [exact F|exact Hl'|exact Hin].
Qed.

End Grid.
