(* ===== verification/Render.v ===== *)
(** * Render: the geometry of the board's SVG ([src/public/js/app.js])

    The [Line] and [Box] constructors and the [Game] constructor draw the
    board: each line is an SVG [<line>] between two pixel points, each
    box a [<svg>] scribble inside its cell, and the corners of the grid
    are [<circle class="dot">] elements.  A line draws the dot at its own
    start and, when [this.y === this.game.width - 1], one more dot at its
    far end ("most right column", "most bottom row").  The test compares
    the row with the width, so which extra dots appear depends on the
    board's shape.  The hot-seat page ([src/js/app.js]) has the same
    code.

    Pixel positions are the integers the code computes: [GAME_PADDING =
    10], [BOX_SIZE = 50], [BOX_PADDING = 5].  Colours, classes and the
    scribble animation are not modelled. *)

From stdpp Require Import base list gmap.
From Stdlib Require Import ZArith Lia.
From S2P Require Import Prelude Grid.

Local Open Scope Z_scope.

Module Render.
Import Grid.

Definition GAME_PADDING : Z := 10.
Definition BOX_SIZE : Z := 50.
Definition BOX_PADDING : Z := 5.

(** The attributes [x1], [x2], [y1], [y2] of a line's [<line>]. *)
Record Segment : Type := mkSegment { x1 : Z; x2 : Z; y1 : Z; y2 : Z }.

Definition line_segment (l : LineId) : Segment :=
  match l with
  | (LineHorizontal, x, y) =>
      mkSegment (GAME_PADDING + x * BOX_SIZE + 5) (GAME_PADDING + x * BOX_SIZE + BOX_SIZE - 5)
                (GAME_PADDING + y * BOX_SIZE) (GAME_PADDING + y * BOX_SIZE)
  | (LineVertical, x, y) =>
      mkSegment (GAME_PADDING + x * BOX_SIZE) (GAME_PADDING + x * BOX_SIZE)
                (GAME_PADDING + y * BOX_SIZE + 5) (GAME_PADDING + y * BOX_SIZE + BOX_SIZE - 5)
  end.

(** The pixel centre of grid corner [(i, j)]. *)
Definition corner (i j : Z) : Z * Z := (GAME_PADDING + i * BOX_SIZE, GAME_PADDING + j * BOX_SIZE).

(** The centres [(cx, cy)] of the dots the constructor of line [l] adds
    to a board of width [width]: the extra dot of the right column or the
    bottom row, then the dot at the line's start. *)
Definition line_dots (width : Z) (l : LineId) : list (Z * Z) :=
  let '(d, x, y) := l in
  (match d with
   | LineHorizontal =>
       if y =? width - 1 then [(GAME_PADDING + x * BOX_SIZE + BOX_SIZE, GAME_PADDING + y * BOX_SIZE)]
       else []
   | LineVertical =>
       if y =? width - 1 then [(GAME_PADDING + x * BOX_SIZE, GAME_PADDING + y * BOX_SIZE + BOX_SIZE)]
       else []
   end) ++ [(GAME_PADDING + x * BOX_SIZE, GAME_PADDING + y * BOX_SIZE)].

(** Every line object is constructed once (the [||] of the constructor's
    loop), so the board's dots are those of its lines. *)
Definition board_dots (width : Z) (bd : Board) : list (Z * Z) :=
  elements (dom (lines bd)) ≫= line_dots width.

(** [$scribble]'s [x], [y], [width], [height] for box [(x, y)]. *)
Definition box_scribble (b : BoxId) : Z * Z * Z * Z :=
  (BOX_PADDING + GAME_PADDING + b.1 * BOX_SIZE, BOX_PADDING + GAME_PADDING + b.2 * BOX_SIZE,
   BOX_SIZE - BOX_PADDING - BOX_PADDING, BOX_SIZE - BOX_PADDING - BOX_PADDING).

(** The [viewBox] of the game's [<svg>]: [0 0 W H]. *)
Definition viewBox (width height : Z) : Z * Z :=
  (width * BOX_SIZE + GAME_PADDING + GAME_PADDING, height * BOX_SIZE + GAME_PADDING + GAME_PADDING).

(** A point of the viewBox [0 0 W H]. *)
Definition in_view (width height : Z) (p : Z * Z) : Prop :=
  0 <= p.1 <= (viewBox width height).1 /\ 0 <= p.2 <= (viewBox width height).2.

(** ** Lemmas *)

(** The lines of a [w * h] board, by coordinates. *)
Lemma line_exists_coords w h d x y :
  1 <= w -> 1 <= h ->
  is_Some (lines (construct_grid w h) !! (d, x, y)) <->
  match d with
  | LineHorizontal => 0 <= x < w /\ 0 <= y <= h
  | LineVertical => 0 <= x <= w /\ 0 <= y < h
  end.
Proof.
  intros Hw Hh. rewrite construct_grid_line_exists. unfold boxesAdjacentTo.
  destruct d; repeat case_decide; cbn; split; intros; try done; try lia.
Qed.

Lemma elem_of_board_dots w bd p :
  p ∈ board_dots w bd <-> exists l, is_Some (lines bd !! l) /\ p ∈ line_dots w l.
Proof.
  unfold board_dots. rewrite list_elem_of_bind. setoid_rewrite elem_of_elements.
  setoid_rewrite elem_of_dom. naive_solver.
Qed.

Lemma elem_of_line_dots w d x y p :
  p ∈ line_dots w (d, x, y) <->
  p = corner x y \/
  y = w - 1 /\ p = match d with LineHorizontal => corner (x + 1) y | LineVertical => corner x (y + 1) end.
Proof.
  destruct p as [a b]. unfold line_dots, corner, GAME_PADDING, BOX_SIZE.
  destruct d; cbv beta iota; case Z.eqb_spec; intros Hy;
    rewrite ?elem_of_app, ?list_elem_of_singleton, ?elem_of_nil, ?pair_equal_spec; lia.
Qed.

Lemma corner_inj i j i' j' : corner i j = corner i' j' <-> i = i' /\ j = j'.
Proof. unfold corner, GAME_PADDING, BOX_SIZE. split; [intros [=]; lia|intros [-> ->]; done]. Qed.

(** ** The dots of a board *)

(** C31: the dots of a [w * h] board are grid corners, and every corner
    has one except, possibly, the bottom-right corner [(w, h)]: the extra
    dots are keyed on [y === width - 1], so that corner is drawn only
    when [h = w] (the last vertical line's extra dot) or [h = w - 1]
    (the last horizontal line's).  On any other board, e.g. 2 x 3, it is
    missing. *)
Theorem board_dots_corners w h p :
  1 <= w -> 1 <= h ->
  p ∈ board_dots w (construct_grid w h) <->
  exists i j, p = corner i j /\ 0 <= i <= w /\ 0 <= j <= h /\
    ((i, j) <> (w, h) \/ h = w \/ h = w - 1).
Proof.
  intros Hw Hh. rewrite elem_of_board_dots. split.
  - intros ([[d x] y] & Hl & Hp). apply line_exists_coords in Hl; [|done..].
    apply elem_of_line_dots in Hp as [->|[Hy ->]]; destruct d;
      [exists x, y|exists x, y|exists (x + 1), y|exists x, (y + 1)];
      (split; [reflexivity|]); rewrite pair_equal_spec; lia.
  - intros (i & j & -> & Hi & Hj & Hc).
    destruct (decide (i < w)) as [Hiw|Hiw].
    + exists (LineHorizontal, i, j). rewrite line_exists_coords, elem_of_line_dots by done.
      split; [lia|by left].
    + destruct (decide (j < h)) as [Hjh|Hjh].
      * exists (LineVertical, i, j). rewrite line_exists_coords, elem_of_line_dots by done.
        split; [lia|by left].
      * assert (i = w /\ j = h) as [-> ->] by lia.
        destruct Hc as [Hc|[Hc|Hc]]; [done|..].
        -- exists (LineVertical, w, h - 1). rewrite line_exists_coords, elem_of_line_dots by done.
           split; [lia|right]. split; [lia|]. apply corner_inj. lia.
        -- exists (LineHorizontal, w - 1, h). rewrite line_exists_coords, elem_of_line_dots by done.
           split; [lia|right]. split; [lia|]. apply corner_inj. lia.
Qed.

(** C32: everything the constructors draw lies inside the [viewBox]:
    both ends of every line, every dot, and every box's scribble. *)
Theorem drawing_in_viewBox w h :
  1 <= w -> 1 <= h ->
  (forall l, is_Some (lines (construct_grid w h) !! l) ->
     in_view w h ((line_segment l).(x1), (line_segment l).(y1)) /\
     in_view w h ((line_segment l).(x2), (line_segment l).(y2))) /\
  (forall p, p ∈ board_dots w (construct_grid w h) -> in_view w h p) /\
  (forall b, is_Some (boxes (construct_grid w h) !! b) ->
     let '(x, y, bw, bh) := box_scribble b in in_view w h (x, y) /\ in_view w h (x + bw, y + bh)).
Proof.
  intros Hw Hh. unfold in_view, viewBox, line_segment, box_scribble, GAME_PADDING, BOX_SIZE,
    BOX_PADDING. split_and!.
  - intros [[d x] y] Hl. apply line_exists_coords in Hl; [|done..]. destruct d; cbn; lia.
  - intros p Hp. apply elem_of_board_dots in Hp as ([[d x] y] & Hl & Hp).
    apply line_exists_coords in Hl; [|done..].
    apply elem_of_line_dots in Hp as [->|[Hy ->]]; destruct d;
      unfold corner, GAME_PADDING, BOX_SIZE; cbn; lia.
  - intros [x y] Hb. apply construct_grid_box_exists in Hb. cbn in *. lia.
Qed.

(** ** Witnesses *)

(** On a 2 x 3 board the bottom-right corner has no dot. *)
Lemma board_dots_corners_witness :
  corner 2 3 ∉ board_dots 2 (construct_grid 2 3).
Proof.
  rewrite (board_dots_corners 2 3 (corner 2 3)) by lia.
  intros (i & j & Hc & _ & _ & Hor). apply corner_inj in Hc as [<- <-].
  destruct Hor as [H|[H|H]]; [done|lia|lia].
Defined.

Lemma drawing_in_viewBox_witness : in_view 2 2 (corner 2 2).
Proof.
  apply (proj1 (proj2 (drawing_in_viewBox 2 2 ltac:(lia) ltac:(lia)))). decide_concrete.
Defined.

End Render.
