(* ===== verification/LocalGame.v ===== *)
(** * LocalGame: the hot-seat game of [src/js/app.js]

    The repository keeps a first, single-browser version of the game in
    [src/js/app.js]: all players share one page and click in turn.  It
    builds the same board as the networked client (the loop of its [Game]
    constructor is the loop of [Grid.construct_grid]; its key
    [(LineHorizontal, x, y)] stands for [this.lines.h[y][x]] and
    [(LineVertical, x, y)] for [this.lines.v[x][y]]), but its rules differ:
    - a line's and a box's [player] is a [Player] object, not an index, so
      every owner is truthy;
    - [Line.onClick] fires the box listeners with [forEach]: every box the
      line completes is taken;
    - [Box.onLineClick] increments the counter [this.player.score];
    - [nextTurn] always passes the turn on, and at the end sorts
      [this.players] in place by decreasing score and compares the first
      two.

    [Player] objects are shared between [this.players], the lines and the
    boxes, and [score++] mutates them: they live in a heap [pheap] (a list
    indexed by reference) and the game holds references.  The browser
    keeps the page after an exception in a click handler, so a click that
    throws still leaves its mutations (the [jsm] monad of the prelude). *)

From stdpp Require Import base list gmap strings sorting.
From Stdlib Require Import ZArith Lia.
From S2P Require Import Prelude Grid.

Local Open Scope Z_scope.
Local Open Scope js_scope.

Module LocalGame.
Import Grid.

(** [class Player]: [constructor({ name, color })] sets [this.score = 0]. *)
Record Player : Type := mkPlayer {
  pname : string;
  pcolor : string;
  score : Z;
}.

(** A reference to a [Player] object: its index in the heap. *)
Definition PRef : Type := Z.

(** The texts [Game.setStatus] writes. *)
Inductive Status : Type :=
  | HasWon (name : string)
  | ItsATie
  | YourTurn (name : string).

#[export] Instance Status_eq_dec : EqDecision Status.
Proof. solve_decision. Defined.

(** The [Game] object.  The [lplayer] of a line and the [bplayer] of a
    box are [PRef]s ([None] is [null] or [undefined]); [status] is the
    text of [this.$status] ([None] before the first [setStatus]). *)
Record Game : Type := mkGame {
  board : Board;
  pheap : list Player;
  players : list PRef;
  player : Z;
  status : option Status;
}.

Definition set_board (bd : Board) (g : Game) : Game :=
  mkGame bd (pheap g) (players g) (player g) (status g).
Definition set_pheap (ph : list Player) (g : Game) : Game :=
  mkGame (board g) ph (players g) (player g) (status g).
Definition set_players (ps : list PRef) (g : Game) : Game :=
  mkGame (board g) (pheap g) ps (player g) (status g).
Definition set_player (p : Z) (g : Game) : Game :=
  mkGame (board g) (pheap g) (players g) p (status g).

(** [this.$status.textContent = status] *)
Definition setStatus (s : Status) : jsm Game unit :=
  jmodify (fun g => mkGame (board g) (pheap g) (players g) (player g) (Some s)).

(** The object a reference designates; [undefined] gives [None]. *)
Definition player_obj (g : Game) (p : option PRef) : option Player :=
  js_index_opt (pheap g) p.

Definition line_owner (g : Game) (l : LineId) : option PRef :=
  match lines (board g) !! l with
  | Some ln => lplayer ln
  | None => None
  end.

Definition box_owner (g : Game) (b : BoxId) : option PRef :=
  match boxes (board g) !! b with
  | Some bx => bplayer bx
  | None => None
  end.

(** [this.player = player] on the line [l] *)
Definition set_line_player (l : LineId) (p : option PRef) (g : Game) : Game :=
  set_board (mkBoard (alter (fun ln => mkLine p (listeners ln)) l (lines (board g)))
                     (boxes (board g))) g.

(** [this.player = player] on the box [b] *)
Definition set_box_player (b : BoxId) (p : option PRef) (g : Game) : Game :=
  set_board (mkBoard (lines (board g)) (alter (fun _ => mkBox p) b (boxes (board g)))) g.

(** [this.player.score++] on the object [r] *)
Definition incr_score (r : PRef) (g : Game) : Game :=
  set_pheap (alter (fun pl => mkPlayer (pname pl) (pcolor pl) (score pl + 1))
                   (Z.to_nat r) (pheap g)) g.

(** The condition of [Box.onLineClick]: the four lines have an owner (an
    object, always truthy). *)
Definition box_complete (g : Game) (b : BoxId) : bool :=
  forallb (fun l => bool_decide (is_Some (line_owner g l))) (box_lines b).

(** [Box.onLineClick({ player })]; the scribble styling reads
    [this.player.color] and draws nothing else. *)
Definition onLineClick (b : BoxId) (p : option PRef) : jsm Game unit :=
  g <- jget ;;
  if box_complete g b then
    jmodify (set_box_player b p) ;;;
    g <- jget ;;
    match p, player_obj g p with
    | Some r, Some _ => jmodify (incr_score r)
    | _, _ => jthrow TypeError
    end
  else jret tt.

(** [allBoxesTaken] of [nextTurn]: no box has a falsy [player]. *)
Definition allBoxesTaken (g : Game) : bool :=
  bool_decide (map_Forall (fun _ bx => is_Some (bplayer bx)) (boxes (board g))).

(** The score a reference's object holds. *)
Definition score_of (g : Game) (r : PRef) : Z :=
  match js_index (pheap g) r with
  | Some pl => score pl
  | None => 0
  end.

(** [this.players.sort((a, b) => b.score - a.score)]: the comparator is
    not positive, and [a] may stay before [b], when [b.score <= a.score]. *)
Definition score_ge (g : Game) : relation PRef :=
  fun a b => score_of g b <= score_of g a.

#[export] Instance score_ge_dec g : RelDecision (score_ge g).
Proof. intros a b. unfold score_ge. apply _. Defined.

Definition sort_players (g : Game) (ps : list PRef) : list PRef :=
  js_sort (score_ge g) ps.

(** [this.player = (this.player === this.players.length - 1) ? 0 : this.player + 1] *)
Definition next_player (g : Game) : Z :=
  if player g =? Z.of_nat (length (players g)) - 1 then 0 else player g + 1.

(** [Game.nextTurn()]; [setStatusColor] has its body commented out. *)
Definition nextTurn : jsm Game unit :=
  g <- jget ;;
  if allBoxesTaken g then
    let ps := sort_players g (players g) in
    jmodify (set_players ps) ;;;
    g <- jget ;;
    match player_obj g (js_index ps 0), player_obj g (js_index ps 1) with
    | Some p0, Some p1 =>
        if score p1 <? score p0 then setStatus (HasWon (pname p0)) else setStatus ItsATie
    | _, _ => jthrow TypeError
    end
  else
    jmodify (fun g => set_player (next_player g) g) ;;;
    g <- jget ;;
    match player_obj g (js_index (players g) (player g)) with
    | Some pl => setStatus (YourTurn (pname pl))
    | None => jthrow TypeError
    end.

(** [Line.onClick()] on the line [l], the handler of a click on its SVG
    element (a line that does not exist has no element to click). *)
Definition onClick (l : LineId) : jsm Game unit :=
  g <- jget ;;
  match lines (board g) !! l with
  | None => jret tt
  | Some ln =>
      if bool_decide (is_Some (lplayer ln)) then jret tt
      else
        let p := js_index (players g) (player g) in
        jmodify (set_line_player l p) ;;;
        jforEach (fun b => onLineClick b p) (listeners ln) ;;;
        g <- jget ;;
        match player_obj g p with
        | Some _ => nextTurn
        | None => jthrow TypeError
        end
  end.

(** [new Game($el, { width, height, players })]: the [Player] objects
    [ps] get the references [0 .. length ps - 1]; [this.player = -1], the
    board, then [this.nextTurn()]. *)
Definition new_game (width height : Z) (ps : list Player) : outcome unit * Game :=
  nextTurn (mkGame (construct_grid width height) ps (seqZ 0 (Z.of_nat (length ps))) (-1) None).

(** The default [players] option: three fresh [Player] objects. *)
Definition default_players : list Player :=
  [mkPlayer "Player One" "#CCCC00" 0;
   mkPlayer "Player Two" "#00CCCC" 0;
   mkPlayer "Player Three" "#CC00CC" 0].

(** The [load] handler: [new Game(document.getElementById('game'), {})],
    that is width 3, height 3 and the default players. *)
Definition load_game : outcome unit * Game := new_game 3 3 default_players.

(** The states of the page: a game the constructor returned, then any
    sequence of clicks (a click that throws keeps its mutations and the
    page goes on). *)
Inductive reachable : Game -> Prop :=
  | reach_new w h ps g :
      Forall (fun pl => score pl = 0) ps ->
      new_game w h ps = (Normal tt, g) -> reachable g
  | reach_click g l :
      reachable g -> reachable (snd (onClick l g)).

(** ** The outcome the spec asks for

    The players with the greatest score; the game has a winner when there
    is exactly one ([spec.md], "Winner determination"). *)
Definition is_top (g : Game) (ps : list PRef) (r : PRef) : Prop :=
  Forall (fun r' => score_of g r' <= score_of g r) ps.

#[export] Instance is_top_dec g ps r : Decision (is_top g ps r).
Proof. unfold is_top. apply _. Defined.

Definition top_scorers (g : Game) : list PRef :=
  filter (is_top g (players g)) (players g).

Definition unique_winner (g : Game) : option PRef :=
  match top_scorers g with
  | [r] => Some r
  | _ => None
  end.

Definition result_status (g : Game) : option Status :=
  match unique_winner g with
  | Some r => (fun pl => HasWon (pname pl)) <$> js_index (pheap g) r
  | None => Some ItsATie
  end.

(** ** Concrete pages *)

(** The page after a sequence of clicks. *)
Definition play (ls : list LineId) (g : Game) : Game :=
  foldl (fun g l => snd (onClick l g)) g ls.

(** The page the [load] handler builds. *)
Definition g_loaded : Game := snd load_game.

(** The three sides of box [(0,0)] drawn by Players One, Two and Three;
    Player One then draws the fourth, [lineBottom]. *)
Definition box00_three : list LineId :=
  [(LineVertical, 0, 0); (LineHorizontal, 0, 0); (LineVertical, 1, 0)].

(** The six outer sides of boxes [(0,0)] and [(1,0)]; their shared side
    [(LineVertical, 1, 0)] is left. *)
Definition around_pair : list LineId :=
  [(LineVertical, 0, 0); (LineHorizontal, 0, 0); (LineHorizontal, 0, 1);
   (LineHorizontal, 1, 0); (LineHorizontal, 1, 1); (LineVertical, 2, 0)].

(** Every line of the default 3 x 3 board, row by row. *)
Definition all_lines_3x3 : list LineId :=
  ((fun y => (LineHorizontal, 0, y)) <$> seqZ 0 4) ++
  ((fun y => (LineHorizontal, 1, y)) <$> seqZ 0 4) ++
  ((fun y => (LineHorizontal, 2, y)) <$> seqZ 0 4) ++
  ((fun x => (LineVertical, x, 0)) <$> seqZ 0 4) ++
  ((fun x => (LineVertical, x, 1)) <$> seqZ 0 4) ++
  ((fun x => (LineVertical, x, 2)) <$> seqZ 0 4).

(** A two-player game on a 2 x 1 board: Player One draws the shared side
    last and takes both boxes. *)
Definition g_pair : Game := snd (new_game 2 1 (take 2 default_players)).
Definition g_pair_done : Game := play (around_pair ++ [(LineVertical, 1, 0)]) g_pair.

(** ** Descriptions of the results, used by the proofs *)

(** What [Box.onLineClick(b, { player: r })] leaves: the box and a point
    to [r] when its four lines are drawn. *)
Definition close_box (r : PRef) (g : Game) (b : BoxId) : Game :=
  if box_complete g b then incr_score r (set_box_player b (Some r) g) else g.

(** What [this.listeners.forEach(...)] leaves. *)
Definition close_boxes (r : PRef) (bs : list BoxId) (g : Game) : Game :=
  foldl (close_box r) g bs.

(** The boxes owned by [r]: the score of the spec, derived from
    ownership. *)
Definition owned_count (g : Game) (r : PRef) : nat :=
  size (filter (fun kb : BoxId * Box => bplayer kb.2 = Some r) (boxes (board g))).

(** A reference to an existing [Player] object. *)
Definition valid_ref (g : Game) (r : PRef) : Prop :=
  0 <= r < Z.of_nat (length (pheap g)).

(** The invariant of the page: the board keeps its links; a box is owned
    exactly when its four lines are drawn, by an existing player;
    [this.players] holds each player object once; every player's [score]
    counter equals the number of boxes it owns ([state_wf]); and while
    boxes remain, [this.player] indexes [this.players] ([game_wf]). *)
Record state_wf (g : Game) : Prop := {
  wf_links : board_links (board g);
  wf_boxes : forall b bx, boxes (board g) !! b = Some bx ->
               (is_Some (bplayer bx) <-> box_complete g b = true);
  wf_owners : forall b r, box_owner g b = Some r -> valid_ref g r;
  wf_players : players g ≡ₚ seqZ 0 (Z.of_nat (length (pheap g)));
  wf_scores : forall r, score_of g r = Z.of_nat (owned_count g r);
}.

Definition game_wf (g : Game) : Prop :=
  state_wf g /\ (allBoxesTaken g = false -> 0 <= player g < Z.of_nat (length (players g))).

(** The lines of the board no click has drawn yet: the measure of the
    game's progress. *)
Definition undrawn (g : Game) : list LineId :=
  filter (fun l => line_owner g l = None) (elements (dom (lines (board g)))).

(** ** Lemmas on single updates *)

Lemma lbox_complete_spec g b :
  box_complete g b = true <-> forall l, l ∈ box_lines b -> is_Some (line_owner g l).
Proof.
  unfold box_complete. rewrite forallb_forall. setoid_rewrite bool_decide_eq_true.
  setoid_rewrite list_elem_of_In. done.
Qed.

Lemma box_complete_ext g g' b :
  (forall l, l ∈ box_lines b -> line_owner g' l = line_owner g l) ->
  box_complete g' b = box_complete g b.
Proof.
  intros H. unfold box_complete, box_lines. cbn [forallb].
  rewrite !H by set_solver. done.
Qed.

Lemma box_complete_lines g g' :
  lines (board g') = lines (board g) -> box_complete g' = box_complete g.
Proof. intros H. unfold box_complete, line_owner. by rewrite H. Qed.

Lemma line_owner_set_line_player g l ln p l' :
  lines (board g) !! l = Some ln ->
  line_owner (set_line_player l p g) l' = if decide (l' = l) then p else line_owner g l'.
Proof.
  intros Hl. unfold line_owner, set_line_player, set_board. cbn [board lines].
  rewrite lookup_alter. repeat case_decide; subst; try congruence. by rewrite Hl.
Qed.

Lemma score_of_incr_score g r r' :
  valid_ref g r ->
  score_of (incr_score r g) r' = score_of g r' + (if decide (r' = r) then 1 else 0).
Proof.
  intros Hr. unfold valid_ref, score_of, incr_score, set_pheap, js_index in *. cbn [pheap].
  destruct (Z.leb_spec 0 r'); [|case_decide; [lia|done]].
  rewrite list_lookup_alter. case_decide as E; case_decide; subst; try lia.
  destruct (pheap g !! Z.to_nat r) eqn:L; [done|].
  apply lookup_ge_None in L. lia.
Qed.

Lemma owned_count_incr_score r g r' : owned_count (incr_score r g) r' = owned_count g r'.
Proof. reflexivity. Qed.

Lemma score_of_set_box_player b p g r' : score_of (set_box_player b p g) r' = score_of g r'.
Proof. reflexivity. Qed.

Lemma owned_count_set_box_player g b r r' :
  boxes (board g) !! b = Some (mkBox None) ->
  owned_count (set_box_player b (Some r) g) r' =
  (owned_count g r' + if decide (r' = r) then 1 else 0)%nat.
Proof.
  intros Hb. unfold owned_count, set_box_player, set_board. cbn [board boxes].
  rewrite (alter_alt_Some _ _ _ _ Hb), map_filter_insert. simpl.
  assert (Hn : filter (fun kb : BoxId * Box => bplayer kb.2 = Some r') (boxes (board g)) !! b = None)
    by (apply map_lookup_filter_None; right; intros ? E; rewrite Hb in E; by simplify_eq).
  case_decide; case_decide; subst; try congruence.
  - rewrite map_size_insert_None by done. lia.
  - rewrite map_filter_delete, delete_id by done. lia.
Qed.

Lemma close_box_fields r g b :
  lines (board (close_box r g b)) = lines (board g) /\
  players (close_box r g b) = players g /\ player (close_box r g b) = player g /\
  status (close_box r g b) = status g /\
  length (pheap (close_box r g b)) = length (pheap g).
Proof.
  unfold close_box. destruct (box_complete g b); [|done].
  unfold incr_score, set_box_player, set_pheap, set_board. cbn. by rewrite length_alter.
Qed.

Lemma close_boxes_fields r bs g :
  lines (board (close_boxes r bs g)) = lines (board g) /\
  players (close_boxes r bs g) = players g /\ player (close_boxes r bs g) = player g /\
  status (close_boxes r bs g) = status g /\
  length (pheap (close_boxes r bs g)) = length (pheap g).
Proof.
  unfold close_boxes. revert g. induction bs as [|b bs IH]; intros g; [done|].
  simpl. destruct (IH (close_box r g b)) as (-> & -> & -> & -> & ->).
  apply close_box_fields.
Qed.

Lemma player_obj_valid g r : valid_ref g r -> is_Some (player_obj g (Some r)).
Proof. intros Hr. apply js_index_Some. exact Hr. Qed.

Lemma close_box_lookup_ne r g b b' :
  b' <> b -> boxes (board (close_box r g b)) !! b' = boxes (board g) !! b'.
Proof.
  intros Hne. unfold close_box. destruct (box_complete g b); [|done].
  cbn. by rewrite lookup_alter_ne.
Qed.

(** [this.listeners.forEach(...)] with an existing player never throws
    and closes exactly the complete boxes. *)
Lemma jforEach_onLineClick r bs g :
  valid_ref g r ->
  jforEach (fun b => onLineClick b (Some r)) bs g = (Normal tt, close_boxes r bs g).
Proof.
  revert g. induction bs as [|b bs IH]; intros g Hr; [done|].
  cbn [jforEach]. unfold onLineClick, close_boxes. jsimp. cbn [foldl].
  unfold close_box at 2. destruct (box_complete g b); jsimp.
  - destruct (player_obj_valid g r Hr) as [pl Hpl].
    change (player_obj (set_box_player b (Some r) g) (Some r)) with (player_obj g (Some r)).
    rewrite Hpl. jsimp. apply IH. unfold valid_ref in *. cbn. by rewrite length_alter.
  - apply IH, Hr.
Qed.

Lemma close_box_complete r g b : box_complete (close_box r g b) = box_complete g.
Proof. apply box_complete_lines, close_box_fields. Qed.

Lemma close_boxes_lookup r bs g b :
  boxes (board (close_boxes r bs g)) !! b =
  if bool_decide (b ∈ bs) && box_complete g b
  then (fun _ => mkBox (Some r)) <$> boxes (board g) !! b
  else boxes (board g) !! b.
Proof.
  unfold close_boxes. revert g. induction bs as [|b' bs IH]; intros g; cbn [foldl].
  - rewrite bool_decide_false by set_solver. done.
  - rewrite IH, close_box_complete.
    destruct (decide (b = b')) as [->|Hne].
    + rewrite (bool_decide_true (b' ∈ b' :: bs)) by set_solver.
      unfold close_box. destruct (box_complete g b'); [|by destruct (bool_decide _)].
      unfold incr_score, set_box_player, set_pheap, set_board. cbn [board boxes andb].
      rewrite lookup_alter_eq.
      destruct (bool_decide _); cbn [andb]; by destruct (boxes (board g) !! b').
    + rewrite !close_box_lookup_ne by done.
      repeat case_bool_decide; set_solver.
Qed.

Lemma close_boxes_counts r bs g r' :
  valid_ref g r -> NoDup bs ->
  (forall b, b ∈ bs -> box_complete g b = true -> boxes (board g) !! b = Some (mkBox None)) ->
  let k := length (filter (fun b => box_complete g b = true) bs) in
  score_of (close_boxes r bs g) r' = score_of g r' + (if decide (r' = r) then Z.of_nat k else 0) /\
  owned_count (close_boxes r bs g) r' = (owned_count g r' + if decide (r' = r) then k else 0)%nat.
Proof.
  intros Hr HN. revert g Hr. unfold close_boxes.
  induction HN as [|b bs Hb HN IH]; intros g Hr Hfree; cbn [foldl].
  { simpl. case_decide; lia. }
  pose proof (close_box_fields r g b) as (_ & _ & _ & _ & Hlen).
  assert (Hr1 : valid_ref (close_box r g b) r) by (unfold valid_ref; rewrite Hlen; exact Hr).
  destruct (IH (close_box r g b) Hr1) as [IHs IHo].
  { intros b' Hb' Hc. rewrite close_box_lookup_ne by set_solver.
    rewrite close_box_complete in Hc. apply Hfree; set_solver. }
  rewrite close_box_complete in IHs, IHo. rewrite IHs, IHo.
  unfold close_box. destruct (box_complete g b) eqn:Hc.
  - rewrite filter_cons_True by done. cbn [length].
    rewrite score_of_incr_score by exact Hr.
    rewrite owned_count_incr_score, owned_count_set_box_player by (apply Hfree; set_solver).
    rewrite score_of_set_box_player. case_decide; split; lia.
  - rewrite filter_cons_False by (rewrite Hc; done). split; reflexivity.
Qed.

(** ** The turn *)

Lemma nextTurn_continue g :
  allBoxesTaken g = false ->
  nextTurn g =
  match player_obj g (js_index (players g) (next_player g)) with
  | Some pl => (Normal tt, mkGame (board g) (pheap g) (players g) (next_player g)
                                  (Some (YourTurn (pname pl))))
  | None => (Thrown TypeError, set_player (next_player g) g)
  end.
Proof.
  intros H. unfold nextTurn. jsimp. rewrite H. jsimp.
  change (player_obj (set_player (next_player g) g)) with (player_obj g).
  by destruct (player_obj g _).
Qed.

Lemma nextTurn_final g :
  allBoxesTaken g = true ->
  let ps := sort_players g (players g) in
  nextTurn g =
  match player_obj g (js_index ps 0), player_obj g (js_index ps 1) with
  | Some p0, Some p1 =>
      (Normal tt, mkGame (board g) (pheap g) ps (player g)
                    (Some (if score p1 <? score p0 then HasWon (pname p0) else ItsATie)))
  | _, _ => (Thrown TypeError, set_players ps g)
  end.
Proof.
  intros H. cbv zeta. unfold nextTurn. jsimp. rewrite H. jsimp.
  change (player_obj (set_players (sort_players g (players g)) g)) with (player_obj g).
  set (ps := sort_players g (players g)).
  destruct (player_obj g (js_index ps 0)), (player_obj g (js_index ps 1)); try done.
  by destruct (score _ <? score _).
Qed.

(** ** Clicks *)

Lemma onClick_idle g l :
  match lines (board g) !! l with Some ln => is_Some (lplayer ln) | None => True end ->
  onClick l g = (Normal tt, g).
Proof.
  intros H. unfold onClick. jsimp.
  destruct (lines (board g) !! l) as [ln|]; [|done].
  by rewrite bool_decide_true by done.
Qed.

(** A click on an undrawn line by an existing player: the line, the
    [forEach] over its listeners, then [nextTurn]. *)
Lemma onClick_unowned g l ln r :
  lines (board g) !! l = Some ln -> lplayer ln = None ->
  js_index (players g) (player g) = Some r -> valid_ref g r ->
  onClick l g = nextTurn (close_boxes r (listeners ln) (set_line_player l (Some r) g)).
Proof.
  intros Hl Hn Hp Hr. unfold onClick. jsimp. rewrite Hl, Hn.
  rewrite bool_decide_false by (intros [? ?]; done). cbn zeta. rewrite Hp. jsimp.
  rewrite (jbind_normal _ _ _ _ _
    (jforEach_onLineClick r (listeners ln) (set_line_player l (Some r) g) Hr)). jsimp.
  pose proof (close_boxes_fields r (listeners ln) (set_line_player l (Some r) g))
    as (_ & _ & _ & _ & Hlen).
  destruct (player_obj_valid (close_boxes r (listeners ln) (set_line_player l (Some r) g)) r)
    as [pl Hpl]; [unfold valid_ref; rewrite Hlen; exact Hr|].
  by rewrite Hpl.
Qed.

Lemma allBoxesTaken_board g g' : board g' = board g -> allBoxesTaken g' = allBoxesTaken g.
Proof. intros H. unfold allBoxesTaken. by rewrite H. Qed.

(** The invariant only depends on the board, the heap and the set of
    player references. *)
Lemma state_wf_fields g g' :
  board g' = board g -> pheap g' = pheap g -> players g' ≡ₚ players g ->
  state_wf g -> state_wf g'.
Proof.
  intros Hb Hh Hp [H1 H2 H3 H4 H5].
  assert (Hc : box_complete g' = box_complete g) by (apply box_complete_lines; by rewrite Hb).
  split; unfold box_owner, valid_ref, score_of, owned_count in *;
    rewrite ?Hb, ?Hh, ?Hc, ?Hp; done.
Qed.

Lemma unowned_line_boxes_left g l ln :
  state_wf g -> lines (board g) !! l = Some ln -> lplayer ln = None ->
  allBoxesTaken g = false.
Proof.
  intros Hwf Hl Hn. destruct (wf_links g Hwf) as [H1 _].
  destruct (H1 l ln Hl) as (_ & Hne & Hin).
  destruct (listeners ln) as [|b bs] eqn:E; [done|].
  destruct (Hin b (list_elem_of_here b bs)) as [[bx Hbx] Hlb].
  unfold allBoxesTaken. apply bool_decide_eq_false. intros Hall.
  specialize (Hall b bx Hbx). cbv beta in Hall.
  apply (wf_boxes g Hwf b bx Hbx) in Hall. rewrite lbox_complete_spec in Hall.
  destruct (Hall l Hlb) as [? Ho]. unfold line_owner in Ho. by rewrite Hl, Hn in Ho.
Qed.

Lemma current_player_valid g :
  game_wf g -> allBoxesTaken g = false ->
  exists r, js_index (players g) (player g) = Some r /\ valid_ref g r.
Proof.
  intros [Hwf Ht] Ha. specialize (Ht Ha).
  destruct (js_index_Some (players g) (player g) Ht) as [r Hr].
  exists r. split; [done|].
  assert (Hin : r ∈ players g).
  { unfold js_index in Hr. destruct (Z.leb_spec 0 (player g)); [|done].
    by eapply list_elem_of_lookup_2. }
  rewrite (wf_players g Hwf), elem_of_seqZ in Hin. unfold valid_ref. lia.
Qed.

Lemma set_line_player_listeners g l p l' :
  listeners <$> lines (board (set_line_player l p g)) !! l' =
  listeners <$> lines (board g) !! l'.
Proof.
  unfold set_line_player, set_board. cbn [board lines]. rewrite lookup_alter.
  case_decide; subst; [by destruct (lines (board g) !! l')|done].
Qed.

(** The listeners of an undrawn line are unowned boxes. *)
Lemma listeners_unowned g l ln b :
  state_wf g -> lines (board g) !! l = Some ln -> lplayer ln = None ->
  b ∈ listeners ln -> boxes (board g) !! b = Some (mkBox None).
Proof.
  intros Hwf Hl Hn Hb. destruct (wf_links g Hwf) as [HL1 _].
  destruct (HL1 l ln Hl) as (_ & _ & Hlis). destruct (Hlis b Hb) as [[bx Hbx] Hlb].
  rewrite Hbx. destruct bx as [[o|]]; [exfalso|done].
  assert (Hc : box_complete g b = true) by (apply (wf_boxes g Hwf b _ Hbx); by eexists).
  rewrite lbox_complete_spec in Hc. destruct (Hc l Hlb) as [? Ho].
  unfold line_owner in Ho. by rewrite Hl, Hn in Ho.
Qed.

(** Drawing [l] changes the completeness of no box but its listeners. *)
Lemma box_complete_not_listener g l ln p b bx :
  state_wf g -> lines (board g) !! l = Some ln ->
  boxes (board g) !! b = Some bx -> b ∉ listeners ln ->
  box_complete (set_line_player l p g) b = box_complete g b.
Proof.
  intros Hwf Hl Hbx Hout. apply box_complete_ext. intros l' Hl'.
  rewrite (line_owner_set_line_player g l ln) by done.
  case_decide; [subst; exfalso|done].
  destruct (proj2 (wf_links g Hwf) b bx l Hbx Hl') as (ln' & Hln' & Hin).
  rewrite Hl in Hln'. by simplify_eq.
Qed.

(** The state after the line and its [forEach] satisfies the invariant. *)
Lemma click_state_wf g l ln r :
  state_wf g -> lines (board g) !! l = Some ln -> lplayer ln = None -> valid_ref g r ->
  state_wf (close_boxes r (listeners ln) (set_line_player l (Some r) g)).
Proof.
  intros Hwf Hl Hn Hr.
  set (g1 := set_line_player l (Some r) g).
  pose proof (close_boxes_fields r (listeners ln) g1) as (HLg2 & Hpg2 & _ & _ & Hlen).
  pose proof (box_complete_lines _ _ HLg2) as Hc2.
  pose proof (close_boxes_lookup r (listeners ln) g1) as Hlk.
  assert (Hb1 : boxes (board g1) = boxes (board g)) by reflexivity. rewrite Hb1 in Hlk.
  destruct (proj1 (wf_links g Hwf) l ln Hl) as (HND & _ & _).
  split.
  - apply (board_links_same (board g)); [|intros b; rewrite Hlk|apply Hwf].
    + intros l'. rewrite HLg2. apply set_line_player_listeners.
    + destruct (bool_decide _ && _); [apply fmap_is_Some|]; done.
  - intros b bx Hbx. rewrite Hc2. rewrite Hlk in Hbx.
    destruct (decide (b ∈ listeners ln)) as [Hin|Hout].
    + rewrite bool_decide_true in Hbx by done.
      rewrite (listeners_unowned g l ln b Hwf Hl Hn Hin) in Hbx.
      destruct (box_complete g1 b); simplify_eq/=; split; done.
    + rewrite bool_decide_false in Hbx by done. cbn [andb] in Hbx.
      unfold g1. rewrite (box_complete_not_listener g l ln _ b bx Hwf Hl Hbx Hout).
      by apply (wf_boxes g Hwf).
  - intros b r' Ho. unfold valid_ref. rewrite Hlen.
    unfold box_owner in Ho. rewrite Hlk in Ho.
    destruct (bool_decide _ && _);
      [destruct (boxes (board g) !! b); simplify_eq/=; exact Hr|].
    by apply (wf_owners g Hwf b).
  - rewrite Hpg2, Hlen. apply (wf_players g Hwf).
  - intros r'. destruct (close_boxes_counts r (listeners ln) g1 r' Hr HND) as [Hs Ho].
    { intros b Hb _. apply (listeners_unowned g l ln b Hwf Hl Hn Hb). }
    rewrite Hs, Ho. change (score_of g1 r') with (score_of g r').
    change (owned_count g1 r') with (owned_count g r').
    rewrite (wf_scores g Hwf r'). case_decide; lia.
Qed.

(** [nextTurn] re-establishes the invariant from a state whose player
    index is at most one below the range (the constructor's [-1]). *)
Lemma nextTurn_wf g :
  state_wf g ->
  (allBoxesTaken g = false ->
   -1 <= player g < Z.of_nat (length (players g)) /\ (1 <= length (players g))%nat) ->
  game_wf (snd (nextTurn g)).
Proof.
  intros Hwf Ht. destruct (allBoxesTaken g) eqn:Ha.
  - rewrite nextTurn_final by done.
    pose proof (js_sort_Permutation (score_ge g) (players g)) as Hp.
    repeat case_match;
      (split; [eapply state_wf_fields; [..|exact Hwf]; done|]);
      cbn [snd]; by erewrite allBoxesTaken_board, Ha.
  - rewrite nextTurn_continue by done. destruct (Ht eq_refl) as [Hp Hn].
    assert (Hnext : 0 <= next_player g < Z.of_nat (length (players g)))
      by (unfold next_player; destruct (Z.eqb_spec (player g) (Z.of_nat (length (players g)) - 1)); lia).
    case_match;
      (split; [eapply state_wf_fields; [..|exact Hwf]; done|]); done.
Qed.

Lemma onClick_wf g l : game_wf g -> game_wf (snd (onClick l g)).
Proof.
  intros Hg. destruct (lines (board g) !! l) as [ln|] eqn:Hl;
    [destruct (lplayer ln) as [o|] eqn:Hn|];
    try (rewrite onClick_idle; [done|]; rewrite Hl; rewrite ?Hn; by eexists).
  pose proof (unowned_line_boxes_left g l ln (proj1 Hg) Hl Hn) as Ha.
  destruct (current_player_valid g Hg Ha) as (r & Hp & Hr).
  rewrite (onClick_unowned g l ln r Hl Hn Hp Hr).
  apply nextTurn_wf; [by apply click_state_wf; [apply Hg|..]|].
  pose proof (close_boxes_fields r (listeners ln) (set_line_player l (Some r) g))
    as (_ & -> & -> & _ & _).
  intros _. destruct Hg as [_ Ht]. specialize (Ht Ha). cbn [players player set_line_player set_board].
  lia.
Qed.

(** ** The invariant holds on every page state *)

Lemma initial_state_wf w h ps :
  Forall (fun pl => score pl = 0) ps ->
  state_wf (mkGame (construct_grid w h) ps (seqZ 0 (Z.of_nat (length ps))) (-1) None).
Proof.
  intros Hs. set (g0 := mkGame _ _ _ _ _).
  destruct (construct_grid_spec w h) as [Hb Hl].
  assert (Hbx : forall b bx, boxes (construct_grid w h) !! b = Some bx -> bx = new_box)
    by (intros b bx; rewrite Hb; case_decide; congruence).
  assert (Hlo : forall l, line_owner g0 l = None).
  { intros l. unfold line_owner. cbn. specialize (Hl l).
    destruct (lines (construct_grid w h) !! l); [apply Hl|done]. }
  split.
  - apply construct_grid_links.
  - intros b bx E. rewrite (Hbx _ _ E). split; [by intros [? ?]|].
    rewrite lbox_complete_spec. intros Hc.
    destruct (Hc (lineLeft b)) as [? Ho]; [unfold box_lines; set_solver|].
    by rewrite Hlo in Ho.
  - intros b r. unfold box_owner. cbn.
    destruct (boxes _ !! b) eqn:E; [rewrite (Hbx _ _ E)|]; done.
  - done.
  - intros r. unfold score_of, owned_count. cbn [pheap board g0].
    rewrite map_empty_filter_2, map_size_empty.
    + destruct (js_index ps r) as [pl|] eqn:E; [|done]. rewrite Forall_forall in Hs.
      unfold js_index in E. destruct (0 <=? r); [|done].
      apply list_elem_of_lookup_2, Hs in E. cbn. lia.
    + intros b bx E. by rewrite (Hbx _ _ E).
Qed.

Lemma local_new_game_wf w h ps g :
  Forall (fun pl => score pl = 0) ps -> new_game w h ps = (Normal tt, g) -> game_wf g.
Proof.
  intros Hs Hg. unfold new_game in Hg. set (g0 := mkGame _ _ _ _ _) in Hg.
  replace g with (snd (nextTurn g0)) by (by rewrite Hg).
  apply nextTurn_wf; [apply initial_state_wf, Hs|].
  intros Ha. destruct (decide (length ps = 0%nat)) as [E0|]; [exfalso|cbn [players player g0]; rewrite length_seqZ; lia].
  rewrite nextTurn_continue in Hg by done.
  assert (E : js_index (players g0) (next_player g0) = None)
    by (cbn [players g0]; rewrite E0; unfold js_index; destruct (0 <=? _); [simpl; done|done]).
  by rewrite E in Hg.
Qed.

(** The invariant of every state of the page. *)
Lemma local_reachable_wf g : reachable g -> game_wf g.
Proof.
  induction 1 as [w h ps g Hs Hg|g l _ IH].
  - by eapply local_new_game_wf.
  - by apply onClick_wf.
Qed.

(** ** The final ranking *)

Section final_ranking.
Context (g : Game).

#[local] Instance score_ge_trans : Transitive (score_ge g).
Proof. unfold score_ge. intros a b c. lia. Qed.

#[local] Instance score_ge_total : Total (score_ge g).
Proof. unfold score_ge. intros a b. lia. Qed.

(** After the sort, the first player has the greatest score. *)
Lemma sorted_head_top ps r0 rest :
  js_sort (score_ge g) ps = r0 :: rest ->
  forall r, is_top g ps r <-> score_of g r0 <= score_of g r.
Proof.
  intros Hs r. pose proof (js_sort_sorted (score_ge g) ps) as HS.
  pose proof (js_sort_Permutation (score_ge g) ps) as HP.
  rewrite Hs in HS, HP. unfold is_top. rewrite <- HP, Forall_cons.
  apply StronglySorted_inv in HS as [_ HS]. rewrite Forall_forall in HS |- *.
  split; [intros [? _]; lia|]. intros H. split; [lia|].
  intros x Hx. specialize (HS x Hx). unfold score_ge in HS. lia.
Qed.

(** The sort-based test of [nextTurn] decides the spec's unique
    maximum. *)
Lemma sorted_top_scorers ps r0 r1 rest :
  js_sort (score_ge g) ps = r0 :: r1 :: rest ->
  let t := filter (is_top g ps) ps in
  (score_of g r1 < score_of g r0 -> t = [r0]) /\
  (score_of g r0 <= score_of g r1 -> (2 <= length t)%nat).
Proof.
  intros Hs t. pose proof (sorted_head_top ps r0 (r1 :: rest) Hs) as Htop.
  pose proof (js_sort_sorted (score_ge g) ps) as HS.
  pose proof (js_sort_Permutation (score_ge g) ps) as HP.
  rewrite Hs in HS, HP.
  assert (Ht : t ≡ₚ filter (is_top g ps) (r0 :: r1 :: rest)) by (unfold t; by rewrite HP).
  apply StronglySorted_inv in HS as [HS Hr0].
  apply StronglySorted_inv in HS as [_ Hr1].
  rewrite Forall_forall in Hr0, Hr1. unfold score_ge in Hr0, Hr1. split.
  - intros Hlt. apply Permutation_singleton_r. rewrite Ht.
    rewrite filter_cons_True by (apply Htop; lia).
    rewrite filter_cons_False by (rewrite Htop; lia).
    rewrite filter_Forall_not; [done|]. rewrite Forall_forall.
    intros x Hx. rewrite Htop. specialize (Hr1 x Hx). lia.
  - intros Hle. rewrite Ht, filter_cons_True, filter_cons_True by (apply Htop; lia).
    simpl. lia.
Qed.

End final_ranking.

(** ** The announced result *)

Lemma nextTurn_fields g :
  board (snd (nextTurn g)) = board g /\ pheap (snd (nextTurn g)) = pheap g /\
  players (snd (nextTurn g)) ≡ₚ players g.
Proof.
  destruct (allBoxesTaken g) eqn:Ha.
  - rewrite nextTurn_final by done.
    pose proof (js_sort_Permutation (score_ge g) (players g)).
    repeat case_match; done.
  - rewrite nextTurn_continue by done. case_match; done.
Qed.

Lemma score_of_pheap g g' : pheap g' = pheap g -> score_of g' = score_of g.
Proof. intros H. unfold score_of. by rewrite H. Qed.

(** The spec's result does not depend on the order of [this.players]. *)
Lemma result_status_perm g g' :
  pheap g' = pheap g -> players g' ≡ₚ players g -> result_status g' = result_status g.
Proof.
  intros Hh Hp.
  assert (Ht : top_scorers g' ≡ₚ top_scorers g).
  { unfold top_scorers.
    rewrite (list_filter_iff (is_top g' (players g')) (is_top g (players g))).
    - by rewrite Hp.
    - intros r. unfold is_top. rewrite (score_of_pheap g g' Hh), Hp. done. }
  unfold result_status, unique_winner. rewrite Hh.
  destruct (top_scorers g) as [|r [|r' t]].
  - apply Permutation_nil_r in Ht. by rewrite Ht.
  - apply Permutation_singleton_r in Ht. by rewrite Ht.
  - apply Permutation_length in Ht.
    destruct (top_scorers g') as [|? [|? ?]]; simpl in Ht; try lia. done.
Qed.

Lemma valid_member g r :
  state_wf g -> r ∈ players g ->
  exists pl, js_index (pheap g) r = Some pl /\ score_of g r = score pl.
Proof.
  intros Hwf Hin. rewrite (wf_players g Hwf), elem_of_seqZ in Hin.
  destruct (js_index_Some (pheap g) r) as [pl Hpl]; [lia|].
  exists pl. unfold score_of. by rewrite Hpl.
Qed.

(** At the end, [nextTurn] shows the spec's result. *)
Lemma nextTurn_final_result g :
  state_wf g -> allBoxesTaken g = true -> (2 <= length (players g))%nat ->
  nextTurn g = (Normal tt, mkGame (board g) (pheap g) (sort_players g (players g))
                                  (player g) (result_status g)).
Proof.
  intros Hwf Ha Hn. rewrite nextTurn_final by done. cbv zeta.
  pose proof (js_sort_Permutation (score_ge g) (players g)) as HP.
  unfold sort_players in *.
  destruct (js_sort (score_ge g) (players g)) as [|r0 [|r1 rest]] eqn:Hs;
    try (apply Permutation_length in HP; simpl in HP; lia).
  destruct (valid_member g r0 Hwf) as (p0 & H0 & S0); [rewrite <- HP; set_solver|].
  destruct (valid_member g r1 Hwf) as (p1 & H1 & S1); [rewrite <- HP; set_solver|].
  change (js_index (r0 :: r1 :: rest) 0) with (Some r0).
  change (js_index (r0 :: r1 :: rest) 1) with (Some r1).
  unfold player_obj. cbn [js_index_opt]. rewrite H0, H1.
  pose proof (sorted_top_scorers g (players g) r0 r1 rest Hs) as Hst. cbv zeta in Hst.
  destruct Hst as [Hlt Hle].
  unfold result_status, unique_winner, top_scorers.
  destruct (Z.ltb_spec (score p1) (score p0)).
  - rewrite Hlt by lia. by rewrite H0.
  - specialize (Hle ltac:(lia)).
    destruct (filter _ _) as [|? [|? ?]]; simpl in Hle; [lia|lia|done].
Qed.

Lemma next_player_obj g :
  state_wf g -> 0 <= player g < Z.of_nat (length (players g)) ->
  is_Some (player_obj g (js_index (players g) (next_player g))).
Proof.
  intros Hwf Hp.
  destruct (js_index_Some (players g) (next_player g)) as [r Hr].
  { unfold next_player.
    destruct (Z.eqb_spec (player g) (Z.of_nat (length (players g)) - 1)); lia. }
  rewrite Hr. destruct (valid_member g r Hwf) as (pl & Hpl & _).
  - unfold js_index in Hr. destruct (0 <=? _); [|done]. by eapply list_elem_of_lookup_2.
  - unfold player_obj. cbn. by rewrite Hpl.
Qed.

(** On a full board every line is drawn. *)
Lemma full_board_lines_drawn g l ln :
  state_wf g -> allBoxesTaken g = true -> lines (board g) !! l = Some ln ->
  is_Some (lplayer ln).
Proof.
  intros Hwf Ha Hl. destruct (lplayer ln) eqn:Hn; [by eexists|].
  by rewrite (unowned_line_boxes_left g l ln Hwf Hl Hn) in Ha.
Qed.

(** A click that draws a line: the facts shared by the theorems below. *)
Lemma onClick_draws g l ln :
  game_wf g -> lines (board g) !! l = Some ln -> lplayer ln = None ->
  exists r, js_index (players g) (player g) = Some r /\ valid_ref g r /\
    allBoxesTaken g = false /\
    onClick l g = nextTurn (close_boxes r (listeners ln) (set_line_player l (Some r) g)) /\
    state_wf (close_boxes r (listeners ln) (set_line_player l (Some r) g)).
Proof.
  intros Hg Hl Hn.
  pose proof (unowned_line_boxes_left g l ln (proj1 Hg) Hl Hn) as Ha.
  destruct (current_player_valid g Hg Ha) as (r & Hp & Hr).
  exists r. do 3 (split; [done|]). split.
  - by apply onClick_unowned.
  - by apply click_state_wf; [apply Hg|..].
Qed.

(** ** Progress of the game *)

Lemma undrawn_spec g l :
  l ∈ undrawn g <-> is_Some (lines (board g) !! l) /\ line_owner g l = None.
Proof. unfold undrawn. rewrite list_elem_of_filter, elem_of_elements, elem_of_dom. tauto. Qed.

Lemma undrawn_NoDup g : NoDup (undrawn g).
Proof. apply NoDup_filter, NoDup_elements. Qed.

(** A board with every line drawn has every box taken. *)
Lemma all_drawn_all_taken g :
  state_wf g -> undrawn g = [] -> allBoxesTaken g = true.
Proof.
  intros Hwf Hu. unfold allBoxesTaken. apply bool_decide_eq_true. intros b bx Hbx.
  apply (wf_boxes g Hwf b bx Hbx), lbox_complete_spec. intros l Hl.
  destruct (proj2 (wf_links g Hwf) b bx l Hbx Hl) as (ln & Hln & _).
  destruct (line_owner g l) as [r|] eqn:Ho; [by eexists|exfalso].
  assert (Hin : l ∈ undrawn g) by (apply undrawn_spec; rewrite Hln; by eexists).
  rewrite Hu in Hin. set_solver.
Qed.

(** A click draws the clicked line, if it is an undrawn line, and no
    other. *)
Lemma onClick_undrawn g l l' :
  game_wf g -> l' ∈ undrawn (snd (onClick l g)) <-> l' ∈ undrawn g /\ l' <> l.
Proof.
  intros Hg. destruct (decide (l ∈ undrawn g)) as [Hl|Hl].
  - apply undrawn_spec in Hl as [[ln Hln] Ho]. unfold line_owner in Ho. rewrite Hln in Ho.
    destruct (onClick_draws g l ln Hg Hln Ho) as (r & _ & _ & _ & -> & _).
    set (g1 := set_line_player l (Some r) g).
    destruct (nextTurn_fields (close_boxes r (listeners ln) g1)) as (Hb & _ & _).
    destruct (close_boxes_fields r (listeners ln) g1) as (HL & _).
    assert (Hlines : lines (board (snd (nextTurn (close_boxes r (listeners ln) g1)))) =
                     lines (board g1)) by (rewrite Hb; exact HL).
    rewrite !undrawn_spec. unfold line_owner at 1. rewrite Hlines. fold (line_owner g1 l').
    unfold g1. rewrite (line_owner_set_line_player g l ln) by done.
    unfold set_line_player, set_board. cbn [board lines]. rewrite lookup_alter_is_Some.
    case_decide; naive_solver.
  - rewrite onClick_idle; [naive_solver|].
    destruct (lines (board g) !! l) as [ln|] eqn:Hln; [|done].
    destruct (lplayer ln) as [r|] eqn:Ho; [by eexists|].
    exfalso. apply Hl, undrawn_spec. unfold line_owner. rewrite Hln. split; [by eexists|done].
Qed.

(** ** Properties of the hot-seat game *)

(** C12: in every state of the page, each player's [score] counter
    equals the number of boxes it owns (the spec's derived score), and a
    box is owned exactly when its four lines are drawn. *)
Theorem reachable_scores_count g :
  reachable g ->
  (forall r, score_of g r = Z.of_nat (owned_count g r)) /\
  (forall b bx, boxes (board g) !! b = Some bx ->
     (is_Some (bplayer bx) <-> box_complete g b = true)).
Proof.
  intros Hr. destruct (local_reachable_wf g Hr) as [Hwf _].
  split; [apply (wf_scores g Hwf)|apply (wf_boxes g Hwf)].
Qed.

(** C13: a click on an undrawn line gives the line to the current
    player [r] and, because the listeners run with [forEach], gives [r]
    every box the line completes (one or two) and one point per box;
    no other box changes. *)
Theorem onClick_closes_every_box g l ln :
  reachable g -> lines (board g) !! l = Some ln -> lplayer ln = None ->
  exists r, js_index (players g) (player g) = Some r /\
    let g' := snd (onClick l g) in
    line_owner g' l = Some r /\
    (forall b, box_owner g' b =
       if bool_decide (b ∈ listeners ln) && box_complete g' b then Some r
       else box_owner g b) /\
    score_of g' r =
      score_of g r + Z.of_nat (length (filter (fun b => box_complete g' b = true) (listeners ln))).
Proof.
  intros Hr Hl Hn. pose proof (local_reachable_wf g Hr) as Hg.
  destruct (onClick_draws g l ln Hg Hl Hn) as (r & Hp & Hv & _ & Hc & _).
  exists r. split; [done|]. cbv zeta. rewrite Hc.
  set (g1 := set_line_player l (Some r) g). set (g2 := close_boxes r (listeners ln) g1).
  destruct (nextTurn_fields g2) as (Hb & Hh & _).
  destruct (close_boxes_fields r (listeners ln) g1) as (HL & _).
  assert (Hlines : lines (board (snd (nextTurn g2))) = lines (board g1)) by (rewrite Hb; exact HL).
  rewrite (box_complete_lines _ _ Hlines). split; [|split].
  - unfold line_owner at 1. rewrite Hlines. fold (line_owner g1 l).
    unfold g1. rewrite (line_owner_set_line_player g l ln) by done. by case_decide.
  - intros b. unfold box_owner at 1. rewrite Hb. unfold g2.
    rewrite close_boxes_lookup. change (boxes (board g1)) with (boxes (board g)).
    destruct (bool_decide (b ∈ _)) eqn:Hin; cbn [andb]; [|done].
    destruct (box_complete g1 b); [|done]. apply bool_decide_eq_true in Hin.
    destruct (proj1 (wf_links g (proj1 Hg)) l ln Hl) as (_ & _ & Hlis).
    destruct (Hlis b Hin) as [[bx Hbx] _]. by rewrite Hbx.
  - rewrite (score_of_pheap _ _ Hh).
    destruct (proj1 (wf_links g (proj1 Hg)) l ln Hl) as (HND & _ & _).
    destruct (close_boxes_counts r (listeners ln) g1 r Hv HND) as [Hs _].
    { intros b Hbl _. apply (listeners_unowned g l ln b (proj1 Hg) Hl Hn Hbl). }
    unfold g2. rewrite Hs. case_decide; [done|congruence].
Qed.

(** C14: the hot-seat game has no bonus turn: after a click that draws
    a line and leaves boxes to take, the turn has passed to the next
    player in [this.players] (wrapping to 0), also when the click closed
    a box, and the click did not throw. *)
Theorem onClick_passes_turn g l ln :
  reachable g -> lines (board g) !! l = Some ln -> lplayer ln = None ->
  allBoxesTaken (snd (onClick l g)) = false ->
  fst (onClick l g) = Normal tt /\ player (snd (onClick l g)) = next_player g.
Proof.
  intros Hr Hl Hn. pose proof (local_reachable_wf g Hr) as Hg.
  destruct (onClick_draws g l ln Hg Hl Hn) as (r & _ & _ & Ha & -> & Hwf2).
  set (g2 := close_boxes r (listeners ln) (set_line_player l (Some r) g)) in *.
  pose proof (close_boxes_fields r (listeners ln) (set_line_player l (Some r) g))
    as (_ & Hps & Hpl & _ & _).
  destruct (nextTurn_fields g2) as (Hb & _ & _).
  rewrite (allBoxesTaken_board _ _ Hb). intros Ha2. rewrite nextTurn_continue by done.
  destruct (next_player_obj g2 Hwf2) as [pl ->].
  { fold g2 in Hps, Hpl. rewrite Hps, Hpl. by apply (proj2 Hg). }
  split; [done|]. unfold next_player. fold g2 in Hps, Hpl. by rewrite Hps, Hpl.
Qed.

(** C15: whenever every box is taken in a game of two or more players,
    the status shows the spec's result: ["<name> has won!"] for the one
    player whose score is strictly greater than every other's, ["It's a
    tie!"] when two or more share the top score.  The code decides it by
    sorting [this.players] by score and comparing the first two. *)
Theorem full_board_shows_result g :
  reachable g -> (2 <= length (players g))%nat -> allBoxesTaken g = true ->
  status g = result_status g.
Proof.
  induction 1 as [w h ps g Hs Hg|g l Hr IH]; intros Hn Ha.
  - unfold new_game in Hg. set (g0 := mkGame _ _ _ _ _) in Hg.
    assert (Hg' : g = snd (nextTurn g0)) by (by rewrite Hg).
    destruct (nextTurn_fields g0) as (Hb & Hh & Hp). rewrite <- Hg' in Hb, Hh, Hp.
    rewrite Hg', nextTurn_final_result; cycle 1.
    + apply initial_state_wf, Hs.
    + by rewrite <- (allBoxesTaken_board _ _ Hb).
    + by rewrite <- (Permutation_length Hp).
    + symmetry. apply result_status_perm; [done|apply js_sort_Permutation].
  - pose proof (local_reachable_wf g Hr) as Hg.
    destruct (lines (board g) !! l) as [ln|] eqn:Hl;
      [destruct (lplayer ln) as [o|] eqn:Hn'|];
      try (rewrite onClick_idle in Ha, Hn |- *;
           [by apply IH| rewrite Hl; rewrite ?Hn'; by eexists..]).
    destruct (onClick_draws g l ln Hg Hl Hn') as (r & _ & _ & _ & Hc & Hwf2).
    rewrite Hc in Ha, Hn |- *.
    set (g2 := close_boxes r (listeners ln) (set_line_player l (Some r) g)) in *.
    destruct (nextTurn_fields g2) as (Hb & Hh & Hp).
    rewrite (allBoxesTaken_board _ _ Hb) in Ha. rewrite (Permutation_length Hp) in Hn.
    rewrite (result_status_perm _ _ Hh Hp), nextTurn_final_result by done. done.
Qed.

(** C16: once every box is taken, every click returns at
    [if (this.player) return;] and the game no longer changes. *)
Theorem game_over_absorbing g l :
  reachable g -> allBoxesTaken g = true -> onClick l g = (Normal tt, g).
Proof.
  intros Hr Ha. apply onClick_idle.
  destruct (lines (board g) !! l) as [ln|] eqn:Hl; [|done].
  exact (full_board_lines_drawn g l ln (proj1 (local_reachable_wf g Hr)) Ha Hl).
Qed.

(** C17: in a game of two or more players no click throws: the current
    player, the box owners and the two players compared at the end
    always exist. *)
Theorem onClick_never_throws g l :
  reachable g -> (2 <= length (players g))%nat -> fst (onClick l g) = Normal tt.
Proof.
  intros Hr Hn. pose proof (local_reachable_wf g Hr) as Hg.
  destruct (lines (board g) !! l) as [ln|] eqn:Hl;
    [destruct (lplayer ln) as [o|] eqn:Hn'|];
    try (rewrite onClick_idle; [done|rewrite Hl; rewrite ?Hn'; by eexists..]).
  destruct (onClick_draws g l ln Hg Hl Hn') as (r & _ & _ & Ha & -> & Hwf2).
  set (g1 := set_line_player l (Some r) g).
  pose proof (close_boxes_fields r (listeners ln) g1) as (_ & Hps & Hpl & _ & _).
  set (g2 := close_boxes r (listeners ln) g1) in *.
  destruct (allBoxesTaken g2) eqn:Ha2.
  - rewrite nextTurn_final_result; [done|done|done|]. by rewrite Hps.
  - rewrite nextTurn_continue by done.
    destruct (next_player_obj g2 Hwf2) as [pl ->]; [|done].
    rewrite Hps, Hpl. by apply (proj2 Hg).
Qed.

(** C26: the game terminates.  A click either changes nothing (the line
    is drawn already, or is no line) or draws exactly one undrawn line,
    so at most as many clicks as the board has lines change the page. *)
Theorem onClick_measure g l :
  reachable g ->
  onClick l g = (Normal tt, g) \/ S (length (undrawn (snd (onClick l g)))) = length (undrawn g).
Proof.
  intros Hr. pose proof (local_reachable_wf g Hr) as Hg.
  destruct (decide (l ∈ undrawn g)) as [Hl|Hl].
  - right. apply (NoDup_length_remove _ _ l); [apply undrawn_NoDup..|done|].
    intros y. by apply onClick_undrawn.
  - left. apply onClick_idle.
    destruct (lines (board g) !! l) as [ln|] eqn:Hln; [|done].
    destruct (lplayer ln) as [r|] eqn:Ho; [by eexists|].
    exfalso. apply Hl, undrawn_spec. unfold line_owner. rewrite Hln. split; [by eexists|done].
Qed.

(** C27: the game ends.  From any page, clicks that include every line
    still undrawn, in any order and with any repetitions or stray
    clicks, take every box. *)
Theorem clicking_every_line_ends g ls :
  reachable g -> (forall l, l ∈ undrawn g -> l ∈ ls) -> allBoxesTaken (play ls g) = true.
Proof.
  revert g. induction ls as [|l ls IH]; intros g Hr Hcov.
  - apply all_drawn_all_taken; [apply (local_reachable_wf g Hr)|].
    apply elem_of_nil_inv. intros l Hl. apply Hcov in Hl. set_solver.
  - apply IH; [by apply reach_click|]. intros l' Hl'.
    apply (onClick_undrawn g l l' (local_reachable_wf g Hr)) in Hl' as [Hin Hne].
    apply Hcov in Hin. apply elem_of_cons in Hin as [->|]; [done|done].
Qed.

(** ** Witnesses *)

Lemma reachable_play ls g : reachable g -> reachable (play ls g).
Proof.
  unfold play. revert g. induction ls as [|l ls IH]; intros g Hg; [done|].
  simpl. apply IH. by apply reach_click.
Qed.

Lemma g_loaded_reachable : reachable g_loaded.
Proof.
  apply (reach_new 3 3 default_players); [repeat constructor|vm_compute; reflexivity].
Qed.

Lemma g_pair_reachable : reachable g_pair.
Proof.
  apply (reach_new 2 1 (take 2 default_players)); [repeat constructor|vm_compute; reflexivity].
Qed.

Lemma reachable_scores_count_witness :
  reachable (play (box00_three ++ [(LineHorizontal, 0, 1)]) g_loaded) /\
  score_of (play (box00_three ++ [(LineHorizontal, 0, 1)]) g_loaded) 0 = 1.
Proof.
  pose proof (reachable_play (box00_three ++ [(LineHorizontal, 0, 1)]) _ g_loaded_reachable) as Hr.
  split; [exact Hr|]. rewrite (proj1 (reachable_scores_count _ Hr) 0).
  vm_compute. reflexivity.
Defined.

Lemma onClick_closes_every_box_witness :
  lines (board (play around_pair g_loaded)) !! (LineVertical, 1, 0) =
    Some (mkLine None [(0, 0); (1, 0)]) /\
  box_owner (snd (onClick (LineVertical, 1, 0) (play around_pair g_loaded))) (1, 0) = Some 0 /\
  score_of (snd (onClick (LineVertical, 1, 0) (play around_pair g_loaded))) 0 = 2.
Proof.
  pose proof (reachable_play around_pair _ g_loaded_reachable) as Hr.
  assert (Hl : lines (board (play around_pair g_loaded)) !! (LineVertical, 1, 0) =
                 Some (mkLine None [(0, 0); (1, 0)])) by (vm_compute; reflexivity).
  destruct (onClick_closes_every_box _ _ _ Hr Hl eq_refl) as (r & Hp & _ & Hb & Hs).
  vm_compute in Hp. injection Hp as <-.
  split; [exact Hl|split].
  - rewrite Hb. vm_compute. reflexivity.
  - rewrite Hs. vm_compute. reflexivity.
Defined.

Lemma onClick_passes_turn_witness :
  box_owner (snd (onClick (LineHorizontal, 0, 1) (play box00_three g_loaded))) (0, 0) = Some 0 /\
  player (snd (onClick (LineHorizontal, 0, 1) (play box00_three g_loaded))) = 1.
Proof.
  pose proof (reachable_play box00_three _ g_loaded_reachable) as Hr.
  assert (Hl : lines (board (play box00_three g_loaded)) !! (LineHorizontal, 0, 1) =
                 Some (mkLine None [(0, 0); (0, 1)])) by (vm_compute; reflexivity).
  destruct (onClick_passes_turn _ _ _ Hr Hl eq_refl) as [_ ->]; [vm_compute; reflexivity|].
  split; vm_compute; reflexivity.
Defined.

Lemma full_board_shows_result_witness :
  status g_pair_done = Some (HasWon "Player One") /\
  status (play all_lines_3x3 g_loaded) = Some ItsATie.
Proof.
  split.
  - rewrite (full_board_shows_result g_pair_done);
      [vm_compute; reflexivity|apply reachable_play, g_pair_reachable|vm_compute; lia|
       vm_compute; reflexivity].
  - rewrite (full_board_shows_result (play all_lines_3x3 g_loaded));
      [vm_compute; reflexivity|apply reachable_play, g_loaded_reachable|vm_compute; lia|
       vm_compute; reflexivity].
Defined.

Lemma game_over_absorbing_witness :
  onClick (LineHorizontal, 1, 2) (play all_lines_3x3 g_loaded) =
  (Normal tt, play all_lines_3x3 g_loaded).
Proof.
  apply game_over_absorbing; [apply reachable_play, g_loaded_reachable|].
  vm_compute. reflexivity.
Defined.

Lemma onClick_never_throws_witness :
  fst (onClick (LineHorizontal, 0, 1) (play box00_three g_loaded)) = Normal tt.
Proof.
  apply onClick_never_throws; [apply reachable_play, g_loaded_reachable|].
  vm_compute. lia.
Defined.

Lemma onClick_measure_witness :
  S (length (undrawn (snd (onClick (LineHorizontal, 0, 1) g_loaded)))) =
    length (undrawn g_loaded).
Proof.
  destruct (onClick_measure g_loaded (LineHorizontal, 0, 1) g_loaded_reachable) as [H|H].
  - exfalso. vm_compute in H. discriminate.
  - exact H.
Defined.

Lemma clicking_every_line_ends_witness :
  allBoxesTaken (play all_lines_3x3 g_loaded) = true.
Proof.
  apply clicking_every_line_ends; [exact g_loaded_reachable|].
  apply Forall_forall. decide_concrete.
Defined.

End LocalGame.
