(* ===== verification/Snapshot.v ===== *)
(** * Snapshot: the session object the server stores and broadcasts

    [src/server/lib/Server.js] keeps one plain object per session
    ([this.sessions[sessionId] = { sessionId, started, player, players,
    turns }]) and emits that very object on every ['state'] message; the
    client's [Game.setState] reads [players] and [turns] from it.  A turn
    is the object [{ playerId, direction, x, y }] pushed by [onIOTurn]:
    [playerId] is the submitting socket's [playerId] (a number, or
    [undefined] for a socket that never created nor joined a session), the
    other three fields are whatever the client sent. *)

From stdpp Require Import base list strings.
From Stdlib Require Import ZArith.
From S2P Require Import Prelude Config.

Record Turn : Type := mkTurn {
  tplayerId : option Z;
  tdirection : string;
  tx : Z;
  ty : Z;
}.

Record Session : Type := mkSession {
  sessionId : string;
  started : bool;
  player : Z;
  players : list Player;
  turns : list Turn;
}.

#[export] Instance Turn_eq_dec : EqDecision Turn.
Proof. solve_decision. Defined.

#[export] Instance Session_eq_dec : EqDecision Session.
Proof. solve_decision. Defined.
