(* ===== verification/Replica.v ===== *)
(** * Replica: the browser client's game logic ([src/public/js/app.js])

    The client keeps one [Game] object for the whole page.  On every
    ['state'] message it calls [game.setState(state)], which replaces
    [this.players] and then replays the whole turn log [state.turns] on
    the same object: [this.lines[direction][x][y].setPlayer(playerId)].
    [Line.setPlayer] returns at once when the line already has a truthy
    owner; otherwise it records the owner, fires the listeners of the
    boxes around the line with [Array.prototype.some] (each listener is
    [Box.onLineClick], which takes the box when its four lines have truthy
    owners), colours the line with [this.game.players[this.player].color]
    and calls [Game.nextTurn].  [nextTurn] detects the end of the game,
    otherwise advances [this.player] unless a box was taken, and renders
    the status line.

    The state is the [Game] record below; every method is a computation in
    the exception monad [jsm Game] of the prelude, so that a thrown
    [TypeError] or [ReferenceError] keeps the mutations done before it, as
    the JavaScript object does. *)

From stdpp Require Import base list gmap strings.
From Stdlib Require Import ZArith Lia.
From S2P Require Import Prelude Config Grid Snapshot.
Import Grid.

Local Open Scope Z_scope.
Local Open Scope js_scope.

Module Replica.

(** The text of [#game-status], by the branch of [renderStatus] that
    wrote it. *)
Inductive StatusMsg : Type :=
  | Won (p : Player)
  | ItsATie
  | YourTurn (p : Player)
  | TurnOf (p : Player).

Record Game : Type := mkGame {
  board : Board;              (** [this.lines], [this.boxes] *)
  gplayers : list Player;     (** [this.players] *)
  gplayer : Z;                (** [this.player], the player to move *)
  winner : option Player;     (** [this.winner] *)
  tie : bool;                 (** [this.tie] ([undefined] is falsy) *)
  gplayerId : option Z;       (** [this.playerId], set by [setPlayerId] *)
  status : option StatusMsg;  (** [#game-status], [None] before any render *)
  enabled : bool;             (** class [enabled] of [#game] *)
}.

(** [new Game($el, { onTurn })]: [width = 2], [height = 2],
    [players = []], [this.player = 0], [this.winner = null]. *)
Definition new_game (width height : Z) : Game :=
  mkGame (construct_grid width height) [] 0 None false None None false.

(** ** Field updates *)

Definition set_lines (ls : gmap LineId Line) (g : Game) : Game :=
  mkGame (mkBoard ls (boxes (board g))) (gplayers g) (gplayer g) (winner g) (tie g)
         (gplayerId g) (status g) (enabled g).

Definition set_boxes (bs : gmap BoxId Box) (g : Game) : Game :=
  mkGame (mkBoard (lines (board g)) bs) (gplayers g) (gplayer g) (winner g) (tie g)
         (gplayerId g) (status g) (enabled g).

Definition set_gplayers (ps : list Player) (g : Game) : Game :=
  mkGame (board g) ps (gplayer g) (winner g) (tie g) (gplayerId g) (status g) (enabled g).

Definition set_gplayer (p : Z) (g : Game) : Game :=
  mkGame (board g) (gplayers g) p (winner g) (tie g) (gplayerId g) (status g) (enabled g).

Definition set_status (m : StatusMsg) (g : Game) : Game :=
  mkGame (board g) (gplayers g) (gplayer g) (winner g) (tie g) (gplayerId g) (Some m) (enabled g).

Definition set_enabled (e : bool) (g : Game) : Game :=
  mkGame (board g) (gplayers g) (gplayer g) (winner g) (tie g) (gplayerId g) (status g) e.

(** [this.player] of the line object [l] ([null] for a missing line, which
    no box refers to). *)
Definition line_owner (g : Game) (l : LineId) : option Z :=
  match lines (board g) !! l with
  | Some ln => lplayer ln
  | None => None
  end.

Definition line_listeners (g : Game) (l : LineId) : list BoxId :=
  match lines (board g) !! l with
  | Some ln => listeners ln
  | None => []
  end.

Definition box_owner (g : Game) (b : BoxId) : option Z :=
  match boxes (board g) !! b with
  | Some bx => bplayer bx
  | None => None
  end.

(** [line.player = playerId] *)
Definition set_line_player (l : LineId) (p : option Z) (g : Game) : Game :=
  set_lines (alter (fun ln => mkLine p (listeners ln)) l (lines (board g))) g.

(** [box.player = player] *)
Definition set_box_player (b : BoxId) (p : option Z) (g : Game) : Game :=
  set_boxes (alter (fun _ => mkBox p) b (boxes (board g))) g.

(** The condition of [Box.onLineClick]: the four lines have truthy
    owners. *)
Definition box_complete (g : Game) (b : BoxId) : bool :=
  truthy (line_owner g (lineLeft b)) && truthy (line_owner g (lineTop b)) &&
  truthy (line_owner g (lineRight b)) && truthy (line_owner g (lineBottom b)).

(** [this.game.players[p].color]: a [TypeError] when [players[p]] is
    [undefined]. *)
Definition player_color (p : option Z) : jsm Game string :=
  g <- jget ;;
  match js_index_opt (gplayers g) p with
  | Some pl => jret (color pl)
  | None => jthrow TypeError
  end.

(** ** The methods *)

(** [Box.onLineClick({ player })] *)
Definition onLineClick (b : BoxId) (p : option Z) : jsm Game bool :=
  g <- jget ;;
  if box_complete g b then
    jmodify (set_box_player b p) ;;;
    _ <- player_color p ;;
    jret true
  else jret false.

(** [allBoxesTaken] of [Game.nextTurn]: every box has a truthy owner. *)
Definition allBoxesTaken (g : Game) : bool :=
  bool_decide (map_Forall (fun _ bx => truthy (bplayer bx) = true) (boxes (board g))).

(** [this.player = (this.player === this.players.length - 1) ? 0 : this.player + 1] *)
Definition next_player (g : Game) : Z :=
  if gplayer g =? Z.of_nat (length (gplayers g)) - 1 then 0 else gplayer g + 1.

(** [Game.renderStatus()] *)
Definition renderStatus : jsm Game unit :=
  g <- jget ;;
  let mine := bool_decide (gplayerId g = Some (gplayer g)) in
  match winner g with
  | Some w => jmodify (set_status (Won w))
  | None =>
      if tie g then jmodify (set_status ItsATie)
      else match js_index (gplayers g) (gplayer g) with
           | Some pl => jmodify (set_status (if mine then YourTurn pl else TurnOf pl))
           | None => jthrow TypeError
           end
  end ;;;
  jmodify (set_enabled mine).

(** [Game.nextTurn({ nextPlayer })].  When every box is taken the code
    evaluates [players[0].score], but no variable [players] is in scope
    there (the field is [this.players]): a [ReferenceError].  The
    [scores] object the method builds is only logged. *)
Definition nextTurn (nextPlayer : bool) : jsm Game unit :=
  g <- jget ;;
  if allBoxesTaken g then jthrow ReferenceError
  else
    (if nextPlayer then jmodify (fun g => set_gplayer (next_player g) g) else jret tt) ;;;
    renderStatus.

(** [Line.setPlayer(playerId)] on the line object [l]. *)
Definition setPlayer (l : LineId) (p : option Z) : jsm Game unit :=
  g <- jget ;;
  if truthy (line_owner g l) then jret tt
  else
    jmodify (set_line_player l p) ;;;
    boxWasClosed <- jsome (fun b => onLineClick b p) (line_listeners g l) ;;
    _ <- player_color p ;;
    nextTurn (negb boxWasClosed).

(** The key ['h'] or ['v'] of [this.lines]. *)
Definition parse_direction (d : string) : option direction :=
  if String.eqb d "h" then Some LineHorizontal
  else if String.eqb d "v" then Some LineVertical
  else None.

(** [this.lines[direction][x][y]]: reading [[x]] or [[y]] of [undefined],
    or calling [setPlayer] on [undefined], is a [TypeError]. *)
Definition lookup_line (t : Turn) : jsm Game LineId :=
  g <- jget ;;
  match parse_direction (tdirection t) with
  | Some d =>
      match lines (board g) !! (d, tx t, ty t) with
      | Some _ => jret (d, tx t, ty t)
      | None => jthrow TypeError
      end
  | None => jthrow TypeError
  end.

(** The body of [turns.forEach(...)] in [Game.setState]. *)
Definition replay_turn (t : Turn) : jsm Game unit :=
  l <- lookup_line t ;;
  setPlayer l (tplayerId t).

(** [Game.setState({ player, players, turns })] *)
Definition setState (s : Session) : jsm Game unit :=
  jmodify (set_gplayers (players s)) ;;;
  jforEach replay_turn (turns s) ;;;
  renderStatus.

(** [Game.setPlayerId(playerId)] *)
Definition setPlayerId (p : Z) (g : Game) : Game :=
  mkGame (board g) (gplayers g) (gplayer g) (winner g) (tie g) (Some p) (status g) (enabled g).

(** [Lobby.setState({ players })]: the start button is disabled while
    fewer than two players are in the roster. *)
Definition lobby_start_disabled (s : Session) : bool :=
  bool_decide (length (players s) < 2)%nat.

(** ** The effect of one move *)

(** The state after [line.player = p]. *)
Definition after_line (g : Game) (l : LineId) (p : option Z) : Game :=
  set_line_player l p g.

(** The box [listeners.some(...)] stops at: the first listener box whose
    four lines have truthy owners once [l] is owned by [p]. *)
Definition closing_box (g : Game) (l : LineId) (p : option Z) : option BoxId :=
  find (box_complete (after_line g l p)) (line_listeners g l).

(** The state after the listeners ran. *)
Definition after_boxes (g : Game) (l : LineId) (p : option Z) : Game :=
  match closing_box g l p with
  | Some b => set_box_player b p (after_line g l p)
  | None => after_line g l p
  end.

(** ** Invariant of the replica

    [board_wf]: every listener of a line is a box of the board that the
    line bounds.  [boxes_wf]: a box is unowned ([null]) or owned by a
    truthy id, and an owned box has four lines with truthy owners. *)

Definition board_wf (g : Game) : Prop :=
  forall l ln b, lines (board g) !! l = Some ln -> b ∈ listeners ln ->
    is_Some (boxes (board g) !! b) /\ l ∈ box_lines b.

Definition boxes_wf (g : Game) : Prop :=
  forall b bx, boxes (board g) !! b = Some bx ->
    bplayer bx = None \/
    (truthy (bplayer bx) = true /\ forall l, l ∈ box_lines b -> truthy (line_owner g l) = true).

Definition game_wf (g : Game) : Prop := board_wf g /\ boxes_wf g.

(** The states the page's [Game] object goes through: the constructor,
    then any sequence of [setState] (on every ['state'] message and in the
    [joinSession]/[createSession] callbacks) and [setPlayerId] calls.  A
    click only emits a ['turn'] message: the [onClick] property the
    constructor stores on each line shadows [Line.prototype.onClick]. *)
Inductive reachable : Game -> Prop :=
  | reachable_new w h : reachable (new_game w h)
  | reachable_setState g s : reachable g -> reachable (snd (setState s g))
  | reachable_setPlayerId g p : reachable g -> reachable (setPlayerId p g).

(** A turn the replay cannot apply: its line is not on the board
    ([this.lines[direction][x][y]] is [undefined]), or its line has no
    truthy owner and [players[playerId]] is [undefined]. *)
Definition turn_fails (g : Game) (t : Turn) : Prop :=
  fst (lookup_line t g) = Thrown TypeError \/
  exists l, lookup_line t g = (Normal l, g) /\ truthy (line_owner g l) = false /\
            js_index_opt (gplayers g) (tplayerId t) = None.

(** ** Concrete runs *)

Definition turn_by (p : Z) (d : string) (x y : Z) : Turn := mkTurn (Some p) d x y.

Definition two_players : list Player := take 2 PLAYERS.

(** A 2x2 board shown to two players, before any move. *)
Definition g_start : Game := set_gplayers two_players (new_game 2 2).

(** Player [0] draws the top of a 1x1 board, player [1] the three other
    sides: the box stays unowned. *)
Definition g_p0 : Game :=
  snd (setState (mkSession "AAAAA" true 0 two_players
        [turn_by 0 "h" 0 0; turn_by 1 "h" 0 1; turn_by 1 "v" 0 0; turn_by 1 "v" 1 0])
        (new_game 1 1)).

(** A 2x1 board on which player [1] drew every line but the middle one. *)
Definition g_mid : Game :=
  snd (setState (mkSession "AAAAA" true 0 two_players
        [turn_by 1 "h" 0 0; turn_by 1 "h" 1 0; turn_by 1 "h" 0 1; turn_by 1 "h" 1 1;
         turn_by 1 "v" 0 0; turn_by 1 "v" 2 0])
        (new_game 2 1)).

(** Player [0] drew the top of a 1x1 board; a later turn of player [1]
    on the same line takes it over. *)
Definition g_top0 : Game :=
  snd (setState (mkSession "AAAAA" true 0 two_players [turn_by 0 "h" 0 0]) (new_game 1 1)).

(** Player [1] drew three sides of a 1x1 board. *)
Definition g_three : Game :=
  snd (setState (mkSession "AAAAA" true 0 two_players
        [turn_by 1 "h" 0 0; turn_by 1 "h" 0 1; turn_by 1 "v" 0 0]) (new_game 1 1)).

(** A log whose second turn names the direction ["x"]. *)
Definition s_bad : Session :=
  mkSession "AAAAA" true 0 two_players
    [turn_by 1 "h" 0 0; turn_by 1 "x" 0 0; turn_by 1 "h" 0 1].

(** A log whose second turn is on a free line but names player 5 of a
    two-player roster. *)
Definition s_bad_pid : Session :=
  mkSession "AAAAA" true 0 two_players
    [turn_by 1 "h" 0 0; turn_by 5 "v" 0 0; turn_by 1 "h" 0 1].

Lemma gplayers_set_line_player l p g : gplayers (set_line_player l p g) = gplayers g.
Proof. reflexivity. Qed.
Lemma gplayers_set_box_player b p g : gplayers (set_box_player b p g) = gplayers g.
Proof. reflexivity. Qed.
Lemma gplayers_after_line g l p : gplayers (after_line g l p) = gplayers g.
Proof. reflexivity. Qed.

#[local] Hint Rewrite gplayers_set_line_player gplayers_set_box_player
  gplayers_after_line : dnb_rw.

Lemma jsome_onLineClick L p g :
  jsome (fun b => onLineClick b p) L g =
  match find (box_complete g) L with
  | None => (Normal false, g)
  | Some b => (match js_index_opt (gplayers g) p with
               | Some _ => Normal true
               | None => Thrown TypeError
               end, set_box_player b p g)
  end.
Proof.
  induction L as [|b L IH]; [done|]. cbn [jsome find].
  unfold onLineClick. jsimp. destruct (box_complete g b); [|by jsimp].
  jsimp. unfold player_color. jsimp. cbn.
  by destruct (js_index_opt (gplayers g) p).
Qed.

(** [setPlayer] on every branch: a no-op on a line with a truthy owner; a
    [TypeError] once the listeners ran when [players[p]] is undefined; a
    [ReferenceError] when every box is then taken; otherwise the turn
    passes unless a box was taken, and the status is rendered. *)
Lemma setPlayer_eq l p g :
  setPlayer l p g =
  if truthy (line_owner g l) then (Normal tt, g)
  else match js_index_opt (gplayers g) p with
       | None => (Thrown TypeError, after_boxes g l p)
       | Some _ =>
           if allBoxesTaken (after_boxes g l p)
           then (Thrown ReferenceError, after_boxes g l p)
           else renderStatus
                  (match closing_box g l p with
                   | Some _ => after_boxes g l p
                   | None => set_gplayer (next_player (after_boxes g l p)) (after_boxes g l p)
                   end)
       end.
Proof.
  unfold setPlayer. jsimp. destruct (truthy (line_owner g l)); [done|].
  jsimp. unfold jbind at 1. rewrite jsome_onLineClick.
  unfold after_boxes, closing_box.
  fold (after_line g l p).
  destruct (find (box_complete (after_line g l p)) (line_listeners g l)) as [b|] eqn:F;
    destruct (js_index_opt (gplayers g) p) eqn:Hp.
  all: jsimp; rewrite ?Hp; jsimp; unfold player_color; jsimp; rewrite ?Hp; jsimp.
  all: unfold nextTurn; jsimp; try done.
  all: destruct (allBoxesTaken _); jsimp; done.
Qed.

Lemma renderStatus_fields g :
  board (snd (renderStatus g)) = board g /\ gplayers (snd (renderStatus g)) = gplayers g /\
  gplayer (snd (renderStatus g)) = gplayer g /\ winner (snd (renderStatus g)) = winner g /\
  tie (snd (renderStatus g)) = tie g /\ gplayerId (snd (renderStatus g)) = gplayerId g.
Proof.
  unfold renderStatus. jsimp.
  destruct (winner g) eqn:Hw; [|destruct (tie g) eqn:Ht; [|destruct (js_index _ _)]];
    jsimp; cbn; repeat split; congruence.
Qed.

Lemma renderStatus_normal g :
  winner g = None -> tie g = false -> is_Some (js_index (gplayers g) (gplayer g)) ->
  fst (renderStatus g) = Normal tt.
Proof.
  intros Hw Ht [pl Hpl]. unfold renderStatus. jsimp. rewrite Hw, Ht, Hpl. by jsimp.
Qed.

(** [(this.player === this.players.length - 1) ? 0 : this.player + 1] is
    the successor modulo the number of players. *)
Lemma next_player_mod g :
  0 <= gplayer g < Z.of_nat (length (gplayers g)) ->
  next_player g = (gplayer g + 1) mod Z.of_nat (length (gplayers g)).
Proof.
  intros Hr. unfold next_player.
  destruct (Z.eqb_spec (gplayer g) (Z.of_nat (length (gplayers g)) - 1)) as [E|E].
  - rewrite E, Z.sub_add, Z.mod_same; lia.
  - rewrite Z.mod_small; lia.
Qed.

Lemma boxes_after_line g l p : boxes (board (after_line g l p)) = boxes (board g).
Proof. reflexivity. Qed.

Lemma lines_set_box_player g b p : lines (board (set_box_player b p g)) = lines (board g).
Proof. reflexivity. Qed.

Lemma closing_box_in g l p b :
  closing_box g l p = Some b -> b ∈ line_listeners g l /\ box_complete (after_line g l p) b = true.
Proof.
  unfold closing_box. intros F. apply find_some in F as [Hin Hc].
  split; [by apply list_elem_of_In|done].
Qed.

(** Boxes that are not listeners of the drawn line keep their state. *)
Lemma after_boxes_other g l p b :
  b ∉ line_listeners g l -> boxes (board (after_boxes g l p)) !! b = boxes (board g) !! b.
Proof.
  intros Hb. unfold after_boxes. destruct (closing_box g l p) as [b'|] eqn:F; [|done].
  apply closing_box_in in F as [Hin _].
  cbn. rewrite lookup_alter_ne; [done|]. intros ->. contradiction.
Qed.

Lemma allBoxesTaken_false g b bx :
  boxes (board g) !! b = Some bx -> truthy (bplayer bx) = false -> allBoxesTaken g = false.
Proof.
  intros Hb Hf. unfold allBoxesTaken. apply bool_decide_eq_false_2.
  intros Hall. specialize (Hall b bx Hb). simpl in Hall. congruence.
Qed.


Lemma game_wf_board g g' : board g' = board g -> game_wf g -> game_wf g'.
Proof.
  intros Hb [Hw Hx]. unfold game_wf, board_wf, boxes_wf, line_owner in *.
  rewrite Hb. split; [exact Hw|exact Hx].
Qed.

Lemma box_complete_spec g b :
  box_complete g b = true <-> forall l, l ∈ box_lines b -> truthy (line_owner g l) = true.
Proof.
  unfold box_complete, box_lines. rewrite !andb_true_iff. split.
  - intros [[[H1 H2] H3] H4] l Hl. rewrite list_elem_of_In in Hl. simpl in Hl.
    destruct Hl as [<-|[<-|[<-|[<-|[]]]]]; done.
  - intros H. repeat split; apply H; set_solver.
Qed.

Lemma line_owner_after_line g l p l' :
  line_owner (after_line g l p) l' =
  if decide (l = l') then (if lines (board g) !! l then p else None) else line_owner g l'.
Proof.
  unfold line_owner, after_line, set_line_player. cbn. rewrite lookup_alter.
  case_decide; subst; [|done]. by destruct (lines (board g) !! l').
Qed.

Lemma line_listeners_after_line g l p l' :
  line_listeners (after_line g l p) l' = line_listeners g l'.
Proof.
  unfold line_listeners, after_line, set_line_player. cbn. rewrite lookup_alter.
  case_decide; subst; [|done]. by destruct (lines (board g) !! l').
Qed.

Lemma game_wf_after_line g l p :
  game_wf g -> truthy (line_owner g l) = false -> game_wf (after_line g l p).
Proof.
  intros [Hw Hx] Hl. split.
  - intros l' ln b Hln Hb. cbn in Hln. rewrite lookup_alter in Hln.
    case_decide; subst.
    + destruct (lines (board g) !! l') as [ln0|] eqn:E; simplify_eq/=. eauto.
    + eauto.
  - intros b bx Hbx. destruct (Hx b bx Hbx) as [|[Ht Hls]]; [by left|right].
    split; [done|]. intros l' Hl'. rewrite line_owner_after_line.
    case_decide; subst; [|by apply Hls]. specialize (Hls l' Hl'). congruence.
Qed.

Lemma game_wf_after_boxes g l p :
  game_wf g -> truthy (line_owner g l) = false -> game_wf (after_boxes g l p).
Proof.
  intros Hwf Hl. pose proof (game_wf_after_line g l p Hwf Hl) as [Hw1 Hx1].
  unfold after_boxes. destruct (closing_box g l p) as [b|] eqn:F; [|by split].
  apply closing_box_in in F as [Hin Hc].
  unfold line_listeners in Hin. destruct (lines (board g) !! l) as [ln|] eqn:El;
    [|by apply not_elem_of_nil in Hin].
  destruct Hwf as [Hw _]. destruct (Hw l ln b El Hin) as [_ Hlb].
  rewrite box_complete_spec in Hc. split.
  - intros l' ln' b' Hln Hb'. cbn in Hln.
    destruct (Hw1 l' ln' b' Hln Hb') as [[bx Hbx] Hl']. cbn in Hbx.
    split; [|done]. cbn. rewrite lookup_alter. case_decide; subst; [|eauto].
    rewrite Hbx. eauto.
  - intros b' bx Hbx. cbn in Hbx. rewrite lookup_alter in Hbx. case_decide; subst.
    + destruct (boxes (board g) !! b') eqn:E; simplify_eq/=.
      right. split; [|exact Hc].
      specialize (Hc l Hlb). rewrite line_owner_after_line, decide_True, El in Hc; done.
    + exact (Hx1 b' bx Hbx).
Qed.

(** [setPlayer] preserves the invariant, whatever its outcome. *)
Lemma setPlayer_preserves l p : preserves game_wf (setPlayer l p).
Proof.
  intros g Hwf. rewrite setPlayer_eq.
  destruct (truthy (line_owner g l)) eqn:Hl; [done|].
  pose proof (game_wf_after_boxes g l p Hwf Hl) as Hwf'.
  destruct (js_index_opt (gplayers g) p); [|done].
  destruct (allBoxesTaken _); [done|].
  eapply game_wf_board; [apply renderStatus_fields|].
  destruct (closing_box g l p); [done|]. by eapply game_wf_board.
Qed.

Lemma lookup_line_state t g : snd (lookup_line t g) = g.
Proof.
  unfold lookup_line. jsimp.
  destruct (parse_direction (tdirection t)) as [d|]; [|done].
  by destruct (lines (board g) !! _).
Qed.

Lemma replay_turn_preserves t : preserves game_wf (replay_turn t).
Proof.
  intros g Hwf. unfold replay_turn, jbind.
  pose proof (lookup_line_state t g) as Hs.
  destruct (lookup_line t g) as [[l|e] g'] eqn:E; simpl in *; subst; [|done].
  by apply setPlayer_preserves.
Qed.

Lemma renderStatus_preserves : preserves game_wf renderStatus.
Proof. intros g Hwf. eapply game_wf_board; [apply renderStatus_fields|done]. Qed.

Lemma setState_preserves s : preserves game_wf (setState s).
Proof.
  unfold setState. apply preserves_bind; [|intros []; apply preserves_bind].
  - intros g Hwf. by eapply game_wf_board.
  - apply preserves_jforEach, replay_turn_preserves.
  - intros []. apply renderStatus_preserves.
Qed.

Lemma new_game_wf w h : game_wf (new_game w h).
Proof.
  destruct (construct_grid_spec w h) as [Hb Hl]. split.
  - intros l ln b Hln Hin. cbn in Hln. specialize (Hl l). rewrite Hln in Hl.
    destruct Hl as (_ & _ & Hperm). rewrite Hperm, <- adjacent_iff in Hin.
    destruct Hin as [Hin Hlb]. split; [|done]. cbn. rewrite Hb.
    rewrite elem_of_box_order in Hin. by rewrite decide_True.
  - intros b bx Hbx. cbn in Hbx. rewrite Hb in Hbx. left.
    case_decide; by simplify_eq.
Qed.

Lemma reachable_wf g : reachable g -> game_wf g.
Proof.
  induction 1.
  - apply new_game_wf.
  - by apply setState_preserves.
  - by eapply game_wf_board.
Qed.

Lemma after_boxes_fields g l p :
  gplayers (after_boxes g l p) = gplayers g /\ gplayer (after_boxes g l p) = gplayer g /\
  winner (after_boxes g l p) = winner g /\ tie (after_boxes g l p) = tie g.
Proof. unfold after_boxes. by destruct (closing_box g l p). Qed.

(** The closing box is owned by the mover after the listeners ran. *)
Lemma after_boxes_owner g l p b :
  game_wf g -> closing_box g l p = Some b -> box_owner (after_boxes g l p) b = p.
Proof.
  intros [Hw _] F. unfold after_boxes. rewrite F.
  apply closing_box_in in F as [Hin _]. unfold line_listeners in Hin.
  destruct (lines (board g) !! l) as [ln|] eqn:El; [|by apply not_elem_of_nil in Hin].
  destruct (Hw l ln b El Hin) as [[bx Hbx] _].
  unfold box_owner. cbn. rewrite lookup_alter_eq, Hbx. done.
Qed.

(** C1 (the bonus-turn rule): when a player draws an unowned line and
    boxes remain to be taken, the move completes normally; the player
    keeps the turn exactly when a box was closed (and then owns it), and
    otherwise the turn passes to the next player modulo the number of
    players. *)
Theorem setPlayer_bonus_turn g l p pl b0 bx0 :
  game_wf g ->
  truthy (line_owner g l) = false ->
  js_index_opt (gplayers g) p = Some pl ->
  winner g = None -> tie g = false ->
  0 <= gplayer g < Z.of_nat (length (gplayers g)) ->
  boxes (board g) !! b0 = Some bx0 -> truthy (bplayer bx0) = false ->
  b0 ∉ line_listeners g l ->
  exists g', setPlayer l p g = (Normal tt, g') /\
    gplayer g' = (if closing_box g l p is Some _ then gplayer g
                  else (gplayer g + 1) mod Z.of_nat (length (gplayers g))) /\
    (forall b, closing_box g l p = Some b -> box_owner g' b = p).
Proof.
  intros Hwf Hl Hp Hw Ht Hr Hb0 Hf0 Hn0.
  destruct (after_boxes_fields g l p) as (Hps & Hpl & Hwin & Htie).
  rewrite setPlayer_eq, Hl, Hp.
  rewrite (allBoxesTaken_false _ b0 bx0); [|by rewrite after_boxes_other|done].
  set (G := match closing_box g l p with
            | Some _ => after_boxes g l p
            | None => set_gplayer (next_player (after_boxes g l p)) (after_boxes g l p)
            end).
  assert (HG : gplayers G = gplayers g /\ winner G = None /\ tie G = false /\
               board G = board (after_boxes g l p) /\
               gplayer G = (if closing_box g l p is Some _ then gplayer g
                            else (gplayer g + 1) mod Z.of_nat (length (gplayers g)))).
  { unfold G. destruct (closing_box g l p).
    - rewrite Hps, Hwin, Htie, Hpl. split_and!; congruence.
    - cbn [set_gplayer gplayers winner tie board gplayer].
      rewrite next_player_mod by (rewrite Hps, Hpl; lia).
      rewrite Hps, Hwin, Htie, Hpl. split_and!; congruence. }
  destruct HG as (HGp & HGw & HGt & HGb & HGpl).
  assert (Hn : fst (renderStatus G) = Normal tt).
  { apply renderStatus_normal; [done|done|]. apply js_index_Some. rewrite HGp, HGpl.
    destruct (closing_box g l p); [done|].
    pose proof (Z.mod_pos_bound (gplayer g + 1) (Z.of_nat (length (gplayers g)))). lia. }
  destruct (renderStatus_fields G) as (Hrb & _ & Hrp & _).
  destruct (renderStatus G) as [o g'] eqn:E. simpl in *. subst o.
  exists g'. split; [done|]. split; [by rewrite Hrp|].
  intros b F. unfold box_owner. rewrite Hrb, HGb. fold (box_owner (after_boxes g l p) b).
  by apply after_boxes_owner.
Qed.

(** Whatever its outcome, a move on a line without a truthy owner leaves
    the board of [after_boxes]. *)
Lemma setPlayer_board g l p :
  truthy (line_owner g l) = false ->
  board (snd (setPlayer l p g)) = board (after_boxes g l p).
Proof.
  intros Hl. rewrite setPlayer_eq, Hl.
  destruct (js_index_opt (gplayers g) p); [|done].
  destruct (allBoxesTaken _); [done|].
  rewrite (proj1 (renderStatus_fields _)). by destruct (closing_box g l p).
Qed.

Lemma line_owner_set_box_player g b p l :
  line_owner (set_box_player b p g) l = line_owner g l.
Proof. reflexivity. Qed.

Lemma line_owner_board g g' l : board g' = board g -> line_owner g' l = line_owner g l.
Proof. unfold line_owner. by intros ->. Qed.

Lemma box_owner_board g g' b : board g' = board g -> box_owner g' b = box_owner g b.
Proof. unfold box_owner. by intros ->. Qed.

(** C2: in every state of the page's [Game], a box that has a line
    whose owner is falsy -- a line drawn by player [0] or by a socket
    whose [playerId] is [undefined] -- is unowned: [Box.onLineClick]
    tests [this.lineLeft.player && ...], so the first player can never
    complete a box, nor help another player complete one. *)
Theorem falsy_line_box_unowned g l b :
  reachable g -> l ∈ box_lines b -> truthy (line_owner g l) = false ->
  box_owner g b = None.
Proof.
  intros Hr Hlb Hl. destruct (reachable_wf g Hr) as [_ Hx].
  unfold box_owner. destruct (boxes (board g) !! b) as [bx|] eqn:E; [|done].
  destruct (Hx b bx E) as [|[_ Hls]]; [done|]. specialize (Hls l Hlb). congruence.
Qed.

(** C3: [listeners.some(...)] stops at the first listener that takes its
    box: when a line completes its two boxes at once, the second box is
    left as it was (unowned), although its four lines are owned. *)
Theorem setPlayer_second_box_untaken g l p b1 b2 :
  truthy (line_owner g l) = false -> line_listeners g l = [b1; b2] ->
  box_complete (after_line g l p) b1 = true -> b1 <> b2 ->
  box_owner (snd (setPlayer l p g)) b2 = box_owner g b2.
Proof.
  intros Hl HL Hc Hne. rewrite (box_owner_board _ _ _ (setPlayer_board g l p Hl)).
  unfold after_boxes, closing_box. rewrite HL. cbn [find]. rewrite Hc.
  unfold box_owner. cbn. by rewrite lookup_alter_ne.
Qed.

(** C6: [setPlayer] is write-once only for truthy owners: a line without
    a truthy owner -- in particular one drawn by player [0] -- takes the
    owner of any later turn on it, which the server does not reject. *)
Theorem setPlayer_line_owner g l p :
  is_Some (lines (board g) !! l) ->
  line_owner (snd (setPlayer l p g)) l = if truthy (line_owner g l) then line_owner g l else p.
Proof.
  intros [ln Hln]. destruct (truthy (line_owner g l)) eqn:Hl.
  - rewrite setPlayer_eq, Hl. done.
  - rewrite (line_owner_board _ _ _ (setPlayer_board g l p Hl)).
    unfold after_boxes. destruct (closing_box g l p);
      [rewrite line_owner_set_box_player|];
      rewrite line_owner_after_line, decide_True, Hln; done.
Qed.

(** C4: a move that takes the last box throws the [ReferenceError] of
    [players[0].score] in [nextTurn]: the remaining listeners, the status
    line and the rest of [setState] are skipped. *)
Theorem setPlayer_last_box_throws g l p pl :
  truthy (line_owner g l) = false -> js_index_opt (gplayers g) p = Some pl ->
  allBoxesTaken (after_boxes g l p) = true ->
  setPlayer l p g = (Thrown ReferenceError, after_boxes g l p).
Proof. intros Hl Hp Ha. by rewrite setPlayer_eq, Hl, Hp, Ha. Qed.

Lemma replay_turn_fails g t : turn_fails g t -> fst (replay_turn t g) = Thrown TypeError.
Proof.
  unfold replay_turn, jbind. intros [Hf|(l & Hl & Ho & Hp)].
  - destruct (lookup_line t g) as [[l|e] g']; simpl in *; congruence.
  - rewrite Hl, setPlayer_eq, Ho, Hp. done.
Qed.

(** C5: one turn the replay cannot apply stops every replay.  Such a turn
    ([turn_fails]) names a line that is not on the board
    ([this.lines[direction][x][y]] is [undefined]: a bad direction or
    coordinates), or a line with no truthy owner together with a
    [playerId] that indexes no player ([players[playerId].color] reads
    [undefined]); a line that already has a truthy owner returns at
    [if (this.player) return;] and never fails.  [setState] then throws
    a [TypeError] at that turn, after replaying the turns before it, and
    never applies the turns after it nor renders the status.  Since the
    server logs turns without checking their line ([Server.onIOTurn]),
    one such turn makes the replay of every later snapshot throw. *)
Theorem setState_stops_at_bad_turn s g pre t post g1 :
  turns s = pre ++ t :: post ->
  jforEach replay_turn pre (set_gplayers (players s) g) = (Normal tt, g1) ->
  turn_fails g1 t ->
  setState s g = (Thrown TypeError, snd (replay_turn t g1)).
Proof.
  intros Ht Hpre Hf. unfold setState. jsimp. rewrite Ht.
  unfold jbind at 1. rewrite jforEach_app, (jbind_normal _ _ _ _ _ Hpre).
  cbn [jforEach]. unfold jbind.
  pose proof (replay_turn_fails g1 t Hf) as Hr.
  destruct (replay_turn t g1) as [o g2]. simpl in Hr. by subst.
Qed.

(** ** Witnesses on concrete runs *)

Lemma setPlayer_bonus_turn_witness :
  exists g', setPlayer (LineHorizontal, 0, 0) (Some 1) g_start = (Normal tt, g') /\
             gplayer g' = 1.
Proof.
  destruct (setPlayer_bonus_turn g_start (LineHorizontal, 0, 0) (Some 1)
              (mkPlayer "Mr. Orange" "orange") (1, 1) new_box) as (g' & H1 & H2 & _).
  - eapply game_wf_board; [|apply (new_game_wf 2 2)]. reflexivity.
  - vm_compute. reflexivity.
  - vm_compute. reflexivity.
  - reflexivity.
  - reflexivity.
  - unfold g_start. cbn. lia.
  - vm_compute. reflexivity.
  - reflexivity.
  - decide_concrete.
  - exists g'. split; [exact H1|]. rewrite H2. vm_compute. reflexivity.
Defined.

Lemma falsy_line_box_unowned_witness :
  box_owner g_p0 (0, 0) = None /\
  Forall (fun l => is_Some (line_owner g_p0 l)) (box_lines (0, 0)).
Proof.
  split.
  - apply (falsy_line_box_unowned g_p0 (LineHorizontal, 0, 0) (0, 0)).
    + apply reachable_setState, reachable_new.
    + decide_concrete.
    + vm_compute. reflexivity.
  - decide_concrete.
Defined.

Lemma setPlayer_second_box_untaken_witness :
  box_complete (after_line g_mid (LineVertical, 1, 0) (Some 1)) (1, 0) = true /\
  box_owner (snd (setPlayer (LineVertical, 1, 0) (Some 1) g_mid)) (1, 0) = None.
Proof.
  split; [vm_compute; reflexivity|].
  rewrite (setPlayer_second_box_untaken g_mid (LineVertical, 1, 0) (Some 1) (0, 0) (1, 0)).
  - vm_compute. reflexivity.
  - vm_compute. reflexivity.
  - vm_compute. reflexivity.
  - vm_compute. reflexivity.
  - discriminate.
Defined.

Lemma setPlayer_line_owner_witness :
  line_owner g_top0 (LineHorizontal, 0, 0) = Some 0 /\
  line_owner (snd (setPlayer (LineHorizontal, 0, 0) (Some 1) g_top0)) (LineHorizontal, 0, 0)
  = Some 1.
Proof.
  split; [vm_compute; reflexivity|].
  rewrite (setPlayer_line_owner g_top0 (LineHorizontal, 0, 0) (Some 1)).
  - vm_compute. reflexivity.
  - vm_compute. eexists. reflexivity.
Defined.

Lemma setPlayer_last_box_throws_witness :
  fst (setPlayer (LineVertical, 1, 0) (Some 1) g_three) = Thrown ReferenceError.
Proof.
  rewrite (setPlayer_last_box_throws g_three (LineVertical, 1, 0) (Some 1)
             (mkPlayer "Mr. Orange" "orange")).
  - reflexivity.
  - vm_compute. reflexivity.
  - vm_compute. reflexivity.
  - vm_compute. reflexivity.
Defined.

Lemma setState_stops_at_bad_turn_witness :
  (fst (setState s_bad (new_game 1 1)) = Thrown TypeError /\
   line_owner (snd (setState s_bad (new_game 1 1))) (LineHorizontal, 0, 1) = None) /\
  (fst (setState s_bad_pid (new_game 1 1)) = Thrown TypeError /\
   line_owner (snd (setState s_bad_pid (new_game 1 1))) (LineHorizontal, 0, 1) = None).
Proof.
  split.
  - rewrite (setState_stops_at_bad_turn s_bad (new_game 1 1) [turn_by 1 "h" 0 0]
               (turn_by 1 "x" 0 0) [turn_by 1 "h" 0 1]
               (snd (jforEach replay_turn [turn_by 1 "h" 0 0]
                       (set_gplayers two_players (new_game 1 1))))).
    + split; [reflexivity|]. vm_compute. reflexivity.
    + reflexivity.
    + vm_compute. reflexivity.
    + left. vm_compute. reflexivity.
  - rewrite (setState_stops_at_bad_turn s_bad_pid (new_game 1 1) [turn_by 1 "h" 0 0]
               (turn_by 5 "v" 0 0) [turn_by 1 "h" 0 1]
               (snd (jforEach replay_turn [turn_by 1 "h" 0 0]
                       (set_gplayers two_players (new_game 1 1))))).
    + split; [reflexivity|]. vm_compute. reflexivity.
    + reflexivity.
    + vm_compute. reflexivity.
    + right. exists (LineVertical, 0, 0). vm_compute. split_and!; reflexivity.
Defined.

End Replica.
