(* ===== verification/Server.v ===== *)
(** * Server: the session manager ([src/server/lib/Server.js])

    [class Server] keeps [this.sessions], a plain object from session ids
    to session objects, and attaches four handlers to every socket.io
    connection.  A handler reads and writes fields of the socket object
    ([socket.playerId], [socket.sessionId], [socket.session]), mutates the
    shared session object, broadcasts it with
    [this.io.to(sessionId).emit('state', session)] and answers the
    requester through the acknowledgement [callback].

    Sessions are objects shared by reference: [this.sessions[id]] and the
    [session] field of every socket that created, joined or tried to join
    it point to the same object.  The model keeps a heap of session
    objects ([heap], indexed by [Ref]) and stores references in
    [sessions] and in the sockets, so that the aliasing of the code is
    kept (a socket keeps its object even after [this.sessions[id]] is
    overwritten).  The socket.io rooms are lists of socket ids; a
    broadcast appends one message per member of the room to [outbox],
    with the session as it is at the moment of the emit (socket.io
    serializes the packet when [emit] is called).  [Math.random()] is the
    parameter [rand] of the create event.

    The invariants proved over [reachable] states: the session invariant
    [sess_inv] (roster size, [player = turns mod players]), the rosters
    as prefixes of [PLAYERS] ([heap_roster]), fresh references
    ([refs_below], [heap_below]) and the append-only history of every
    session object ([heap_extends]). *)

From stdpp Require Import base list gmap strings.
From Stdlib Require Import ZArith Lia.
From S2P Require Import Prelude Config SessionId Snapshot.

Local Open Scope Z_scope.

Module Server.

Definition Ref : Type := nat.
Definition SocketId : Type := nat.

(** The fields the handlers add to a socket object; all [undefined] on a
    fresh connection. *)
Record Socket : Type := mkSocket {
  s_playerId : option Z;
  s_sessionId : option string;
  s_session : option Ref;
}.

Definition fresh_socket : Socket := mkSocket None None None.

Record Server : Type := mkServer {
  heap : gmap Ref Session;
  sessions : gmap string Ref;
  next_ref : Ref;
  sockets : gmap SocketId Socket;
  rooms : gmap string (list SocketId);
  outbox : list (SocketId * Session);
}.

(** The acknowledgement a handler sends to its requester. *)
Inductive Reply : Type :=
  | ReplyState (sid : string) (pid : Z) (st : Session)  (** [callback(null, {...})] *)
  | ReplyOk                                            (** [callback()] *)
  | ReplyErr (msg : string)                            (** [callback(msg)] *)
  | NoReply
  | Crash.  (** an exception no one catches: Node prints it and exits *)

(** [new Server()]: [this.sessions = {}]. *)
Definition init : Server := mkServer ∅ ∅ 0%nat ∅ ∅ [].

(** ** Field updates *)

Definition set_heap (r : Ref) (s : Session) (sv : Server) : Server :=
  mkServer (<[r := s]> (heap sv)) (sessions sv) (next_ref sv) (sockets sv) (rooms sv) (outbox sv).

Definition set_socket (k : SocketId) (so : Socket) (sv : Server) : Server :=
  mkServer (heap sv) (sessions sv) (next_ref sv) (<[k := so]> (sockets sv)) (rooms sv) (outbox sv).

Definition socket_of (sv : Server) (k : SocketId) : Socket :=
  default fresh_socket (sockets sv !! k).

Definition deref (sv : Server) (r : option Ref) : option Session :=
  match r with
  | Some r => heap sv !! r
  | None => None
  end.

(** [socket.join(room)]: a socket is a member of a room at most once. *)
Definition join (room : string) (k : SocketId) (sv : Server) : Server :=
  let members := default [] (rooms sv !! room) in
  mkServer (heap sv) (sessions sv) (next_ref sv) (sockets sv)
    (<[room := if decide (k ∈ members) then members else members ++ [k]]> (rooms sv))
    (outbox sv).

(** [this.io.to(room).emit('state', snap)] *)
Definition emit_state (room : string) (snap : Session) (sv : Server) : Server :=
  mkServer (heap sv) (sessions sv) (next_ref sv) (sockets sv) (rooms sv)
    (outbox sv ++ map (fun k => (k, snap)) (default [] (rooms sv !! room))).

(** The properties every plain object [{}] inherits from
    [Object.prototype].  [this.sessions] is such an object, so
    [this.sessions[id]] is, for these ids, a truthy value that is not a
    session (a function, or [Object.prototype] itself for
    [__proto__]). *)
Definition object_prototype_keys : list string :=
  ["constructor"; "__defineGetter__"; "__defineSetter__"; "hasOwnProperty";
   "__lookupGetter__"; "__lookupSetter__"; "isPrototypeOf"; "propertyIsEnumerable";
   "toString"; "valueOf"; "__proto__"; "toLocaleString"].

(** [{...PLAYERS[i]}]; spreading [undefined] (never reached: the
    [max_players] guard keeps [i] below the table's length) gives an
    object without name nor colour. *)
Definition player_slot (i : nat) : Player :=
  default (mkPlayer "" "") (PLAYERS !! i).

(** ** The handlers *)

(** [onIOConnection(socket)]: a new socket object. *)
Definition onIOConnection (k : SocketId) (sv : Server) : Server :=
  set_socket k fresh_socket sv.

(** [onIOCreateSession(socket, callback)]: no check that the new id is
    free. *)
Definition onIOCreateSession (k : SocketId) (rand : nat -> double) (sv : Server) : Reply * Server :=
  let sid := SessionId.createSessionId_default rand in
  let r := next_ref sv in
  let sess := mkSession sid false 0 [player_slot 0] [] in
  let S1 := mkServer (<[r := sess]> (heap sv)) (<[sid := r]> (sessions sv)) (Datatypes.S r)
                     (sockets sv) (rooms sv) (outbox sv) in
  let S2 := set_socket k (mkSocket (Some 0) (Some sid) (Some r)) S1 in
  let S3 := join sid k S2 in
  (ReplyState sid 0 sess, emit_state sid sess S3).

(** [onIOJoinSession(socket, { sessionId }, callback)]: the socket's
    [sessionId] and [session] are overwritten before the checks.  An id
    that is no key of [this.sessions] but names a member of
    [Object.prototype] passes [if (!socket.session)]; then
    [socket.session.players.length] reads [length] of [undefined]: the
    [TypeError] escapes the socket.io listener and ends the process.  The
    model returns the state before the event: nothing is handled after
    it. *)
Definition onIOJoinSession (k : SocketId) (sid : string) (sv : Server) : Reply * Server :=
  let so := socket_of sv k in
  let ro := sessions sv !! sid in
  let S1 := set_socket k (mkSocket (s_playerId so) (Some sid) ro) sv in
  match ro, deref sv ro with
  | Some r, Some sess =>
      if decide (length (players sess) = length PLAYERS) then (ReplyErr "max_players", S1)
      else if started sess then (ReplyErr "game_already_started", S1)
      else
        let sess' := mkSession (sessionId sess) (started sess) (player sess)
                       (players sess ++ [player_slot (length (players sess))]) (turns sess) in
        let pid := Z.of_nat (length (players sess')) - 1 in
        let S2 := set_heap r sess' S1 in
        let S3 := set_socket k (mkSocket (Some pid) (Some sid) ro) S2 in
        let S4 := join sid k S3 in
        (ReplyState sid pid sess', emit_state sid sess' S4)
  | None, _ =>
      if decide (sid ∈ object_prototype_keys) then (Crash, sv)
      else (ReplyErr "session_not_found", S1)
  | _, _ => (ReplyErr "session_not_found", S1)
  end.

(** [onIOStart({ session, sessionId }, callback)]: any socket bound to the
    session may start it, also again. *)
Definition onIOStart (k : SocketId) (sv : Server) : Reply * Server :=
  let so := socket_of sv k in
  match s_session so, deref sv (s_session so) with
  | Some r, Some sess =>
      if decide (length (players sess) < 2)%nat then (ReplyErr "Waiting for players...", sv)
      else
        let sess' := mkSession (sessionId sess) true (player sess) (players sess) (turns sess) in
        let S1 := set_heap r sess' sv in
        (ReplyOk, emit_state (default "" (s_sessionId so)) sess' S1)
  | _, _ => (ReplyErr "session_not_found", sv)
  end.

(** [session.player = session.player + 1; if (session.player >
    (session.players.length - 1)) session.player = 0;] *)
Definition advance_player (sess : Session) : Z :=
  if player sess + 1 >? Z.of_nat (length (players sess)) - 1 then 0 else player sess + 1.

(** [onIOTurn({ session, playerId, sessionId }, { direction, x, y },
    callback)]: the turn-order check is commented out and the line is
    not checked at all. *)
Definition onIOTurn (k : SocketId) (d : string) (x y : Z) (sv : Server) : Reply * Server :=
  let so := socket_of sv k in
  match s_session so, deref sv (s_session so) with
  | Some r, Some sess =>
      if negb (started sess) then (ReplyErr "Game not started!", sv)
      else
        let sess1 := mkSession (sessionId sess) (started sess) (player sess) (players sess)
                       (turns sess ++ [mkTurn (s_playerId so) d x y]) in
        let sess' := mkSession (sessionId sess1) (started sess1) (advance_player sess1)
                       (players sess1) (turns sess1) in
        let S1 := set_heap r sess' sv in
        (ReplyOk, emit_state (default "" (s_sessionId so)) sess' S1)
  | _, _ => (ReplyErr "session_not_found", sv)
  end.

(** ** Events *)

Inductive Event : Type :=
  | EvConnect (k : SocketId)
  | EvCreateSession (k : SocketId) (rand : nat -> double)
  | EvJoinSession (k : SocketId) (sid : string)
  | EvStart (k : SocketId)
  | EvTurn (k : SocketId) (d : string) (x y : Z).

Definition ev_socket (e : Event) : SocketId :=
  match e with
  | EvConnect k | EvCreateSession k _ | EvJoinSession k _ | EvStart k | EvTurn k _ _ _ => k
  end.

(** The dispatch of [onIOConnection]'s [socket.on(...)] registrations. *)
Definition handle (e : Event) (sv : Server) : Reply * Server :=
  match e with
  | EvConnect k => (NoReply, onIOConnection k sv)
  | EvCreateSession k rand => onIOCreateSession k rand sv
  | EvJoinSession k sid => onIOJoinSession k sid sv
  | EvStart k => onIOStart k sv
  | EvTurn k d x y => onIOTurn k d x y sv
  end.

(** What socket.io and the browser guarantee about events: a connection
    gets a new socket id, other events come from connected sockets, and
    [Math.random()] returns numbers in [[0, 1)]. *)
Definition event_ok (sv : Server) (e : Event) : Prop :=
  match e with
  | EvConnect k => sockets sv !! k = None
  | EvCreateSession k rand => is_Some (sockets sv !! k) /\ forall j, double_ok (rand j) /\ double_lt_1 (rand j)
  | _ => is_Some (sockets sv !! ev_socket e)
  end.

(** The events are processed one at a time (Node's event loop), in the
    order they arrive. *)
Inductive reachable : Server -> Prop :=
  | reachable_init : reachable init
  | reachable_step sv e : reachable sv -> event_ok sv e -> reachable (snd (handle e sv)).

Fixpoint run (es : list Event) (sv : Server) : list Reply * Server :=
  match es with
  | [] => ([], sv)
  | e :: es' =>
      let (rep, S1) := handle e sv in
      let (reps, S2) := run es' S1 in
      (rep :: reps, S2)
  end.

(** ** The session invariant *)

(** What every session object satisfies: one to five players; the player
    to move is the number of turns modulo the number of players (the
    server never grants a bonus turn); turns exist only once the game has
    started, and a started game has at least two players. *)
Definition sess_inv (sess : Session) : Prop :=
  (1 <= length (players sess) <= 5)%nat /\
  player sess = Z.of_nat (length (turns sess)) mod Z.of_nat (length (players sess)) /\
  (turns sess <> [] -> started sess = true) /\
  (started sess = true -> 2 <= length (players sess))%nat.

Definition heap_ok (sv : Server) : Prop :=
  forall r sess, heap sv !! r = Some sess -> sess_inv sess.

(** Every reference stored in [this.sessions] names an object allocated
    before [next_ref]. *)
Definition refs_below (sv : Server) : Prop :=
  forall sid r, sessions sv !! sid = Some r -> (r < next_ref sv)%nat.

(** Every session object lives at a reference below [next_ref]: a new
    session never overwrites an object in the heap. *)
Definition heap_below (sv : Server) : Prop :=
  forall r sess, heap sv !! r = Some sess -> (r < next_ref sv)%nat.

(** What a later state of one session object keeps: its id, a started
    game (the spec's phases only move forward), its roster and its turn
    log, both append-only. *)
Definition sess_extends (sess sess' : Session) : Prop :=
  sessionId sess' = sessionId sess /\ (started sess = true -> started sess' = true) /\
  players sess `prefix_of` players sess' /\ turns sess `prefix_of` turns sess'.

Definition heap_extends (sv sv' : Server) : Prop :=
  forall r sess, heap sv !! r = Some sess ->
  exists sess', heap sv' !! r = Some sess' /\ sess_extends sess sess'.

(** The roster of a session object is the table's first entries, in
    order: every slot is a copy of an existing [PLAYERS] entry. *)
Definition roster_ok (sess : Session) : Prop :=
  players sess = take (length (players sess)) PLAYERS.

Definition heap_roster (sv : Server) : Prop :=
  forall r sess, heap sv !! r = Some sess -> roster_ok sess.

(** The keys of [this.sessions]: ids of five characters, as
    [createSessionId()] makes them. *)
Definition keys_ok (sv : Server) : Prop :=
  forall sid r, sessions sv !! sid = Some r -> String.length sid = 5%nat.

(** The session object after a turn is appended. *)
Definition with_turn (sess : Session) (t : Turn) : Session :=
  let sess1 := mkSession (sessionId sess) (started sess) (player sess) (players sess)
                 (turns sess ++ [t]) in
  mkSession (sessionId sess1) (started sess1) (advance_player sess1) (players sess1) (turns sess1).

(** ** Concrete runs *)

Fixpoint events_ok (sv : Server) (es : list Event) : Prop :=
  match es with
  | [] => True
  | e :: es' => event_ok sv e /\ events_ok (snd (handle e sv)) es'
  end.

(** [Math.random()] returning [0.5] every time: the id is ["fffff"]. *)
Definition half : nat -> double := fun _ => SessionId.half.

(** Socket [0] creates a session, socket [1] joins it, socket [0] starts
    the game, and socket [2] connects. *)
Definition lobby_events : list Event :=
  [EvConnect 0%nat; EvCreateSession 0%nat half; EvConnect 1%nat; EvJoinSession 1%nat "fffff";
   EvStart 0%nat; EvConnect 2%nat].

Definition sv_started : Server := snd (run lobby_events init).

Definition game_session : Session :=
  mkSession "fffff" true 0 (take 2 PLAYERS) [].

Lemma heap_ok_insert sv r sess sv' :
  heap_ok sv -> sess_inv sess -> heap sv' = <[r := sess]> (heap sv) -> heap_ok sv'.
Proof.
  intros Hok Hs Hh r' s'. rewrite Hh. rewrite lookup_insert. case_decide; [intros; by simplify_eq|].
  apply Hok.
Qed.

Lemma deref_Some sv ro sess : deref sv ro = Some sess -> exists r, ro = Some r /\ heap sv !! r = Some sess.
Proof. destruct ro; simpl; [eauto|done]. Qed.

Lemma advance_player_mod sess :
  (1 <= length (players sess))%nat ->
  0 <= player sess < Z.of_nat (length (players sess)) ->
  advance_player sess = (player sess + 1) mod Z.of_nat (length (players sess)).
Proof.
  intros H1 Hr. unfold advance_player.
  destruct (Z.gtb_spec (player sess + 1) (Z.of_nat (length (players sess)) - 1)).
  - assert (player sess + 1 = Z.of_nat (length (players sess))) as -> by lia.
    rewrite Z.mod_same; lia.
  - rewrite Z.mod_small; lia.
Qed.

Lemma sess_inv_player_range sess :
  sess_inv sess -> 0 <= player sess < Z.of_nat (length (players sess)).
Proof.
  intros (H1 & H2 & _). rewrite H2. apply Z.mod_pos_bound. lia.
Qed.

Lemma create_preserves k rand sv : heap_ok sv -> heap_ok (snd (onIOCreateSession k rand sv)).
Proof.
  intros Hok. eapply heap_ok_insert; [exact Hok| |reflexivity].
  unfold sess_inv; cbn. split_and!; try done; lia.
Qed.

Lemma join_preserves k sid sv : heap_ok sv -> heap_ok (snd (onIOJoinSession k sid sv)).
Proof.
  intros Hok. unfold onIOJoinSession.
  destruct (sessions sv !! sid) as [r|] eqn:Er; [|cbn; case_decide; exact Hok]. cbn [deref].
  destruct (heap sv !! r) as [sess|] eqn:Es; [|exact Hok].
  destruct (decide _) as [Hfull|Hfull]; [exact Hok|].
  destruct (started sess) eqn:Hst; [exact Hok|].
  eapply heap_ok_insert; [exact Hok| |reflexivity].
  destruct (Hok r sess Es) as (H1 & H2 & H3 & H4).
  assert (Ht : turns sess = []).
  { destruct (turns sess) eqn:E; [done|]. exfalso.
    assert (started sess = true) by (apply H3; congruence). congruence. }
  rewrite PLAYERS_length in Hfull. unfold sess_inv; cbn.
  rewrite length_app, Ht. cbn. rewrite Ht in H2. cbn in H2.
  rewrite H2, Z.mod_0_l, Z.mod_0_l by lia. split_and!; try done; lia.
Qed.

Lemma start_preserves k sv : heap_ok sv -> heap_ok (snd (onIOStart k sv)).
Proof.
  intros Hok. unfold onIOStart.
  destruct (deref sv (s_session (socket_of sv k))) as [sess|] eqn:Ed;
    [|by destruct (s_session _)].
  destruct (deref_Some _ _ _ Ed) as (r & Er & Es). rewrite Er.
  destruct (decide _) as [Hlt|Hlt]; [exact Hok|].
  eapply heap_ok_insert; [exact Hok| |reflexivity].
  destruct (Hok r sess Es) as (H1 & H2 & H3 & H4). unfold sess_inv; cbn.
  split_and!; try done; lia.
Qed.

Lemma turn_preserves k d x y sv : heap_ok sv -> heap_ok (snd (onIOTurn k d x y sv)).
Proof.
  intros Hok. unfold onIOTurn.
  destruct (deref sv (s_session (socket_of sv k))) as [sess|] eqn:Ed;
    [|by destruct (s_session _)].
  destruct (deref_Some _ _ _ Ed) as (r & Er & Es). rewrite Er.
  destruct (started sess) eqn:Hst; [|exact Hok]. cbn [negb].
  eapply heap_ok_insert; [exact Hok| |reflexivity].
  pose proof (Hok r sess Es) as Hi. pose proof (sess_inv_player_range _ Hi) as Hr.
  destruct Hi as (H1 & H2 & H3 & H4). unfold sess_inv; cbn.
  rewrite advance_player_mod by (cbn; lia). cbn. rewrite H2, length_app.
  split; [lia|]. split; [|split; [done|auto]].
  rewrite Zplus_mod_idemp_l. f_equal. cbn. lia.
Qed.

Lemma handle_preserves e sv : heap_ok sv -> heap_ok (snd (handle e sv)).
Proof.
  destruct e; simpl.
  - intros Hok. exact Hok.
  - apply create_preserves.
  - apply join_preserves.
  - apply start_preserves.
  - apply turn_preserves.
Qed.

Lemma handle_refs_below e sv : refs_below sv -> refs_below (snd (handle e sv)).
Proof.
  intros H sid r. destruct e; cbn [handle];
    unfold onIOConnection, onIOCreateSession, onIOJoinSession, onIOStart, onIOTurn,
      set_socket, set_heap, join, emit_state; repeat case_match; cbn; try exact (H sid r).
  all: intros Hr; cbn in Hr |- *; rewrite lookup_insert in Hr; case_decide; simplify_eq;
    [lia|specialize (H _ _ Hr); lia].
Qed.

Lemma reachable_refs_below sv : reachable sv -> refs_below sv.
Proof.
  induction 1 as [|sv e _ IH _]; [intros ?? Hr; vm_compute in Hr; discriminate|].
  by apply handle_refs_below.
Qed.

Lemma handle_heap_below e sv : heap_below sv -> heap_below (snd (handle e sv)).
Proof.
  intros H r sess. destruct e; cbn [handle];
    unfold onIOConnection, onIOCreateSession, onIOJoinSession, onIOStart, onIOTurn,
      set_socket, set_heap, join, emit_state, deref; repeat case_match; cbn; try exact (H r sess).
  all: intros Hr; rewrite lookup_insert in Hr; case_decide; simplify_eq; try (eauto with lia; fail).
  all: specialize (H _ _ Hr); lia.
Qed.

Lemma reachable_heap_below sv : reachable sv -> heap_below sv.
Proof.
  induction 1 as [|sv e _ IH _]; [intros ?? Hr; vm_compute in Hr; discriminate|].
  by apply handle_heap_below.
Qed.

Lemma sess_extends_refl sess : sess_extends sess sess.
Proof. done. Qed.

Lemma sess_extends_trans s1 s2 s3 :
  sess_extends s1 s2 -> sess_extends s2 s3 -> sess_extends s1 s3.
Proof.
  intros (H1 & H2 & H3 & H4) (H1' & H2' & H3' & H4'). split_and!; [congruence|auto|..];
    by etrans.
Qed.

Lemma heap_extends_refl sv : heap_extends sv sv.
Proof. intros r sess Hs. eauto using sess_extends_refl. Qed.

Lemma heap_extends_trans sv1 sv2 sv3 :
  heap_extends sv1 sv2 -> heap_extends sv2 sv3 -> heap_extends sv1 sv3.
Proof.
  intros H12 H23 r s1 Hs1. destruct (H12 r s1 Hs1) as (s2 & Hs2 & E12).
  destruct (H23 r s2 Hs2) as (s3 & Hs3 & E23). eauto using sess_extends_trans.
Qed.

(** Writing a later state of an object keeps every object's history. *)
Lemma heap_extends_insert sv sv' r0 s0 s1 :
  heap sv !! r0 = Some s0 -> sess_extends s0 s1 -> heap sv' = <[r0 := s1]> (heap sv) ->
  heap_extends sv sv'.
Proof.
  intros H0 E Hh r sess Hs. rewrite Hh, lookup_insert.
  case_decide; simplify_eq; eauto using sess_extends_refl.
Qed.

Lemma heap_extends_same sv sv' : heap sv' = heap sv -> heap_extends sv sv'.
Proof. intros Hh r sess Hs. rewrite Hh. eauto using sess_extends_refl. Qed.

Lemma handle_extends e sv : heap_below sv -> heap_extends sv (snd (handle e sv)).
Proof.
  intros Hb. destruct e as [k|k rand|k sid|k|k d x y]; cbn [handle].
  - by apply heap_extends_same.
  - intros r sess Hs. exists sess. split; [|apply sess_extends_refl].
    cbn. rewrite lookup_insert_ne; [done|]. specialize (Hb r sess Hs). lia.
  - unfold onIOJoinSession.
    destruct (sessions sv !! sid) as [r|]; cbn [deref];
      [|case_decide; by apply heap_extends_same].
    destruct (heap sv !! r) as [sess|] eqn:Es; [|by apply heap_extends_same].
    destruct (decide _); [by apply heap_extends_same|].
    destruct (started sess) eqn:Hst; [by apply heap_extends_same|].
    eapply heap_extends_insert; [exact Es| |reflexivity].
    split_and!; cbn; [done|intros; congruence|by eexists|done].
  - unfold onIOStart. destruct (s_session (socket_of sv k)) as [r|]; cbn [deref];
      [|by apply heap_extends_same].
    destruct (heap sv !! r) as [sess|] eqn:Es; [|by apply heap_extends_same].
    destruct (decide _); [by apply heap_extends_same|].
    eapply heap_extends_insert; [exact Es| |reflexivity]. done.
  - unfold onIOTurn. destruct (s_session (socket_of sv k)) as [r|]; cbn [deref];
      [|by apply heap_extends_same].
    destruct (heap sv !! r) as [sess|] eqn:Es; [|by apply heap_extends_same].
    destruct (negb (started sess)); [by apply heap_extends_same|].
    eapply heap_extends_insert; [exact Es| |reflexivity].
    split_and!; cbn; try done. by eexists.
Qed.

Lemma run_heap_below es sv : heap_below sv -> heap_below (snd (run es sv)).
Proof.
  revert sv. induction es as [|e es IH]; intros sv H; [done|]. cbn [run].
  destruct (handle e sv) as [rep sv1] eqn:E. pose proof (handle_heap_below e sv H) as H1.
  rewrite E in H1. specialize (IH sv1 H1). destruct (run es sv1). exact IH.
Qed.

Lemma run_extends es sv : heap_below sv -> heap_extends sv (snd (run es sv)).
Proof.
  revert sv. induction es as [|e es IH]; intros sv H; [apply heap_extends_refl|]. cbn [run].
  pose proof (handle_extends e sv H) as H1. pose proof (handle_heap_below e sv H) as H2.
  destruct (handle e sv) as [rep sv1]. specialize (IH sv1 H2).
  destruct (run es sv1). exact (heap_extends_trans _ _ _ H1 IH).
Qed.

Lemma roster_slot n : (n < 5)%nat -> take n PLAYERS ++ [player_slot n] = take (S n) PLAYERS.
Proof.
  intros Hn. unfold player_slot. destruct (PLAYERS_lookup n Hn) as [pl Hp]. rewrite Hp. cbn [default].
  by rewrite (take_S_r _ _ pl).
Qed.

Lemma heap_roster_insert sv sv' r sess :
  heap_roster sv -> roster_ok sess -> heap sv' = <[r := sess]> (heap sv) -> heap_roster sv'.
Proof.
  intros H Hs Hh r' s'. rewrite Hh, lookup_insert. case_decide; [intros; by simplify_eq|].
  apply H.
Qed.

Lemma heap_roster_same sv sv' : heap sv' = heap sv -> heap_roster sv -> heap_roster sv'.
Proof. intros Hh H r s. rewrite Hh. apply H. Qed.

Lemma handle_roster e sv : heap_ok sv -> heap_roster sv -> heap_roster (snd (handle e sv)).
Proof.
  intros Hok H. destruct e as [k|k rand|k sid|k|k d x y]; cbn [handle].
  - by apply (heap_roster_same sv).
  - eapply heap_roster_insert; [exact H| |reflexivity]. reflexivity.
  - unfold onIOJoinSession.
    destruct (sessions sv !! sid) as [r|]; cbn [deref];
      [|case_decide; by apply (heap_roster_same sv)].
    destruct (heap sv !! r) as [sess|] eqn:Es; [|by apply (heap_roster_same sv)].
    destruct (decide _) as [|Hn]; [by apply (heap_roster_same sv)|].
    destruct (started sess); [by apply (heap_roster_same sv)|].
    eapply heap_roster_insert; [exact H| |reflexivity].
    pose proof (H r sess Es) as Hr. destruct (Hok r sess Es) as ((_ & H5) & _).
    rewrite PLAYERS_length in Hn. unfold roster_ok in *; cbn.
    rewrite length_app, Nat.add_1_r. set (n := length (players sess)) in *.
    rewrite <- roster_slot by lia. f_equal. exact Hr.
  - unfold onIOStart. destruct (s_session (socket_of sv k)) as [r|]; cbn [deref];
      [|by apply (heap_roster_same sv)].
    destruct (heap sv !! r) as [sess|] eqn:Es; [|by apply (heap_roster_same sv)].
    destruct (decide _); [by apply (heap_roster_same sv)|].
    eapply heap_roster_insert; [exact H| |reflexivity]. exact (H r sess Es).
  - unfold onIOTurn. destruct (s_session (socket_of sv k)) as [r|]; cbn [deref];
      [|by apply (heap_roster_same sv)].
    destruct (heap sv !! r) as [sess|] eqn:Es; [|by apply (heap_roster_same sv)].
    destruct (negb (started sess)); [by apply (heap_roster_same sv)|].
    eapply heap_roster_insert; [exact H| |reflexivity]. exact (H r sess Es).
Qed.

(** C7: in every reachable state of the server, every session object has
    between one and five players, its [player] field is the number of
    turns modulo the number of players (hence a valid index: the server
    advances the turn after every move, box or no box), turns appear only
    in a started game, and a started game has at least two players. *)
Theorem reachable_sessions_inv sv r sess :
  reachable sv -> heap sv !! r = Some sess ->
  sess_inv sess /\ 0 <= player sess < Z.of_nat (length (players sess)).
Proof.
  intros Hr. revert r sess. cut (heap_ok sv).
  { intros Hok r sess Hs. split; [by eapply Hok|]. apply sess_inv_player_range. by eapply Hok. }
  induction Hr as [|sv e Hr IH He].
  - intros r sess Hs. vm_compute in Hs. discriminate.
  - by apply handle_preserves.
Qed.

(** Only [createSessionId] names a session. *)
Lemma handle_keys_ok e sv : event_ok sv e -> keys_ok sv -> keys_ok (snd (handle e sv)).
Proof.
  intros He Hk sid' r'. destruct e as [k|k rand|k sid|k|k d x y]; cbn [handle].
  - apply Hk.
  - destruct He as [_ Hr]. cbn. rewrite lookup_insert. case_decide as Hs; [|apply Hk].
    intros _. subst sid'. destruct (SessionId.createSessionId_loop_spec rand 0 5 "" Hr) as [Hl _].
    exact Hl.
  - unfold onIOJoinSession, set_socket, set_heap, emit_state, join.
    repeat case_match; cbn; apply Hk.
  - unfold onIOStart, set_heap, emit_state. repeat case_match; cbn; apply Hk.
  - unfold onIOTurn, set_heap, emit_state. repeat case_match; cbn; apply Hk.
Qed.

Lemma reachable_keys_ok sv : reachable sv -> keys_ok sv.
Proof.
  induction 1 as [|sv e Hr IH He]; [intros sid r; cbn; by rewrite lookup_empty|].
  by apply handle_keys_ok.
Qed.

Lemma object_prototype_keys_length :
  Forall (fun s => String.length s <> 5%nat) object_prototype_keys.
Proof. decide_concrete. Qed.

(** In a running server no session is named by an inherited property. *)
Lemma reachable_no_inherited_key sv sid :
  reachable sv -> sid ∈ object_prototype_keys -> sessions sv !! sid = None.
Proof.
  intros Hr Hs. destruct (sessions sv !! sid) as [r|] eqn:Er; [exfalso|done].
  apply (proj1 (Forall_forall _ _) object_prototype_keys_length sid Hs).
  exact (reachable_keys_ok sv Hr sid r Er).
Qed.

(** So [joinSession] with such an id throws. *)
Lemma reachable_join_inherited k sid sv :
  reachable sv -> sid ∈ object_prototype_keys -> onIOJoinSession k sid sv = (Crash, sv).
Proof.
  intros Hr Hs. unfold onIOJoinSession. rewrite (reachable_no_inherited_key sv sid Hr Hs).
  cbn. by rewrite decide_True.
Qed.

(** ** Rejections, turns and broadcasts *)

(** C8: a rejected [joinSession] (any of [session_not_found],
    [max_players], [game_already_started]) changes no session, room or
    message -- but it rebinds the requesting socket: its [sessionId] is
    the requested id and its [session] is whatever [this.sessions] holds
    for it ([undefined] when unknown), with its old [playerId] kept.  The
    [max_players] check comes before the [game_already_started] one. *)
Theorem join_rejected_rebinds k sid sv msg sv' :
  onIOJoinSession k sid sv = (ReplyErr msg, sv') ->
  heap sv' = heap sv /\ sessions sv' = sessions sv /\ rooms sv' = rooms sv /\
  outbox sv' = outbox sv /\
  socket_of sv' k = mkSocket (s_playerId (socket_of sv k)) (Some sid) (sessions sv !! sid) /\
  (forall r sess, sessions sv !! sid = Some r -> heap sv !! r = Some sess ->
     length (players sess) = 5%nat -> msg = "max_players").
Proof.
  unfold onIOJoinSession. intros H.
  destruct (sessions sv !! sid) as [r|] eqn:Er; cbn [deref] in H;
    [destruct (heap sv !! r) as [sess|] eqn:Es;
     [destruct (decide _) as [Hf|Hf]; [|destruct (started sess)]|]|case_decide].
  all: inversion H; subst; unfold socket_of; cbn; rewrite lookup_insert_eq.
  all: split_and!; try done.
  all: intros r' sess' Er' Es' Hl; simplify_eq; rewrite ?PLAYERS_length in *; congruence.
Qed.


(** [onIOTurn] accepts every turn of a socket bound to a started
    session, with no turn-order or line check: the turn is appended, the
    turn passes on, and the session is sent to the socket's room. *)
Lemma onIOTurn_accepts k d x y sv r sess :
  s_session (socket_of sv k) = Some r -> heap sv !! r = Some sess -> started sess = true ->
  onIOTurn k d x y sv =
    (ReplyOk,
     let sess' := with_turn sess (mkTurn (s_playerId (socket_of sv k)) d x y) in
     mkServer (<[r := sess']> (heap sv)) (sessions sv) (next_ref sv) (sockets sv) (rooms sv)
       (outbox sv ++ map (fun m => (m, sess'))
                         (default [] (rooms sv !! default "" (s_sessionId (socket_of sv k)))))).
Proof.
  intros Hr Hs Hst. unfold onIOTurn. rewrite Hr. cbn [deref]. rewrite Hs.
  destruct (negb (started sess)) eqn:E; [by rewrite Hst in E|reflexivity].
Qed.

(** C9: a socket turned away with [game_already_started] can then play
    in that game: the failed join bound it to the session object, so its
    next ['turn'] is accepted and logged under its own [playerId], which
    is not a player of the session. *)
Theorem rejected_socket_plays k sid d x y sv r sess :
  sessions sv !! sid = Some r -> heap sv !! r = Some sess ->
  length (players sess) <> 5%nat -> started sess = true ->
  exists sv1, onIOJoinSession k sid sv = (ReplyErr "game_already_started", sv1) /\
  fst (onIOTurn k d x y sv1) = ReplyOk /\
  heap (snd (onIOTurn k d x y sv1)) !! r =
    Some (with_turn sess (mkTurn (s_playerId (socket_of sv k)) d x y)).
Proof.
  intros Er Es Hl Hst.
  assert (Hj : onIOJoinSession k sid sv = (ReplyErr "game_already_started",
            set_socket k (mkSocket (s_playerId (socket_of sv k)) (Some sid) (Some r)) sv)).
  { unfold onIOJoinSession. rewrite Er. cbn [deref]. rewrite Es.
    destruct (decide _) as [Hf|_]; [rewrite PLAYERS_length in Hf; done|]. by rewrite Hst. }
  eexists. split; [exact Hj|].
  set (sv1' := set_socket k _ sv).
  assert (Hso : socket_of sv1' k = mkSocket (s_playerId (socket_of sv k)) (Some sid) (Some r)).
  { unfold socket_of, sv1'. cbn. by rewrite lookup_insert_eq. }
  rewrite (onIOTurn_accepts k d x y sv1' r sess); [|by rewrite Hso|exact Es|exact Hst].
  rewrite Hso. split; [done|]. cbn. by rewrite lookup_insert_eq.
Qed.

(** C19: [createSession] does not check that its random id is free.
    When the id names a live session whose room holds the sockets [ms],
    [this.sessions[id]] is overwritten by a new object (the old one stays
    alive, still referenced by its players' sockets) and the creator
    joins the old room.  The old players receive the newcomer's lobby
    session, and the next turn of an old player sends the old game's
    session to the newcomer: two games share one broadcast room. *)
Theorem create_collision_crosstalk k rand sv r_old ms m d x y sess :
  reachable sv ->
  sessions sv !! SessionId.createSessionId_default rand = Some r_old ->
  rooms sv !! SessionId.createSessionId_default rand = Some ms -> k ∉ ms ->
  m <> k -> s_session (socket_of sv m) = Some r_old ->
  s_sessionId (socket_of sv m) = Some (SessionId.createSessionId_default rand) ->
  heap sv !! r_old = Some sess -> started sess = true ->
  sessions (snd (onIOCreateSession k rand sv)) !! SessionId.createSessionId_default rand =
    Some (next_ref sv) /\ next_ref sv <> r_old /\
  outbox (snd (onIOCreateSession k rand sv)) =
    outbox sv ++ map (fun m' => (m', mkSession (SessionId.createSessionId_default rand) false 0
                                       [player_slot 0] [])) (ms ++ [k]) /\
  outbox (snd (onIOTurn m d x y (snd (onIOCreateSession k rand sv)))) =
    outbox (snd (onIOCreateSession k rand sv)) ++
    map (fun m' => (m', with_turn sess (mkTurn (s_playerId (socket_of sv m)) d x y))) (ms ++ [k]).
Proof.
  intros Hr Hs Hm Hk Hmk Hso Hsid Hh Hst.
  pose proof (reachable_refs_below sv Hr _ _ Hs) as Hlt.
  unfold socket_of in Hso, Hsid.
  unfold onIOCreateSession, onIOTurn, emit_state, join, set_socket, socket_of;
    cbn -[SessionId.createSessionId_default].
  rewrite (lookup_insert_ne (sockets sv) k m) by congruence.
  rewrite Hso, Hsid, Hm, !lookup_insert_eq. cbn -[SessionId.createSessionId_default].
  rewrite (lookup_insert_ne (heap sv) (next_ref sv) r_old), Hh by lia.
  cbn -[SessionId.createSessionId_default]. rewrite Hst.
  cbn -[SessionId.createSessionId_default].
  case_decide; [done|]. split_and!; [done|lia|done|unfold with_turn; by rewrite Hst].
Qed.

(** C29: the history of a session object only moves forward.  From any
    reachable state, after any sequence of events, every session object
    still exists with the same id; a started game stays started (the
    spec's phases never go back), and its roster and turn log have only
    grown at their ends. *)
Theorem run_keeps_history sv es r sess :
  reachable sv -> heap sv !! r = Some sess ->
  exists sess', heap (snd (run es sv)) !! r = Some sess' /\
    sessionId sess' = sessionId sess /\ (started sess = true -> started sess' = true) /\
    players sess `prefix_of` players sess' /\ turns sess `prefix_of` turns sess'.
Proof.
  intros Hr Hs. exact (run_extends es sv (reachable_heap_below sv Hr) r sess Hs).
Qed.

(** C30: the roster of every session object is well typed: it is the
    first entries of [PLAYERS], in order, so every player object a client
    reads has the [name] and [color] of a table entry (the spread
    [{...PLAYERS[i]}] never copies [undefined]). *)
Theorem reachable_roster sv r sess :
  reachable sv -> heap sv !! r = Some sess ->
  players sess = take (length (players sess)) PLAYERS.
Proof.
  intros Hr. revert r sess. cut (heap_ok sv /\ heap_roster sv); [intros [_ H]; exact H|].
  induction Hr as [|sv e Hr [Hok IH] He].
  - split; intros r sess Hs; vm_compute in Hs; discriminate.
  - split; [by apply handle_preserves|by apply handle_roster].
Qed.

(** ** Witnesses on concrete runs *)

Lemma run_reachable es sv :
  reachable sv -> events_ok sv es -> reachable (snd (run es sv)).
Proof.
  revert sv. induction es as [|e es IH]; intros sv Hr Hok; [done|].
  destruct Hok as [He Hok]. cbn [run].
  destruct (handle e sv) as [rep sv1] eqn:E.
  assert (Hr1 : reachable sv1).
  { change sv1 with (snd (rep, sv1)). rewrite <- E. by constructor. }
  simpl in Hok. specialize (IH sv1 Hr1 Hok).
  destruct (run es sv1) as [reps sv2]. exact IH.
Qed.

Lemma sv_started_reachable : reachable sv_started.
Proof.
  apply run_reachable; [constructor|].
  cbn -[handle]. split_and!; try (vm_compute; reflexivity); try (vm_compute; eexists; reflexivity).
  intros j. vm_compute. repeat split; discriminate.
Qed.

Lemma sv_started_session : heap sv_started !! 0%nat = Some game_session.
Proof. vm_compute. reflexivity. Qed.

Lemma reachable_sessions_inv_witness :
  0 <= player game_session < Z.of_nat (length (players game_session)).
Proof.
  apply (reachable_sessions_inv sv_started 0%nat game_session).
  - exact sv_started_reachable.
  - vm_compute. reflexivity.
Defined.

Lemma join_rejected_rebinds_witness :
  socket_of (snd (onIOJoinSession 2%nat "fffff" sv_started)) 2%nat =
  mkSocket None (Some "fffff") (Some 0%nat).
Proof.
  destruct (join_rejected_rebinds 2%nat "fffff" sv_started "game_already_started"
              (snd (onIOJoinSession 2%nat "fffff" sv_started))) as (_ & _ & _ & _ & Hso & _).
  - vm_compute. reflexivity.
  - rewrite Hso. vm_compute. reflexivity.
Defined.

Lemma rejected_socket_plays_witness :
  exists sv1, onIOJoinSession 2%nat "fffff" sv_started = (ReplyErr "game_already_started", sv1) /\
    heap (snd (onIOTurn 2%nat "h" 0 0 sv1)) !! 0%nat =
    Some (with_turn game_session (mkTurn None "h" 0 0)).
Proof.
  destruct (rejected_socket_plays 2%nat "fffff" "h" 0 0 sv_started 0%nat game_session)
    as (sv1 & Hj & _ & Hh).
  - vm_compute. reflexivity.
  - vm_compute. reflexivity.
  - vm_compute. discriminate.
  - reflexivity.
  - exists sv1. split; [exact Hj|]. refine (eq_trans Hh _). reflexivity.
Defined.

(** Socket [2] creates a session while ["fffff"] is being played by
    sockets [0] and [1]: [Math.random()] returns [0.5] again. *)
Lemma create_collision_crosstalk_witness :
  sessions (snd (onIOCreateSession 2%nat half sv_started)) !! "fffff" = Some 1%nat /\
  last (outbox (snd (onIOTurn 0%nat "h" 0 0 (snd (onIOCreateSession 2%nat half sv_started))))) =
    Some (2%nat, with_turn game_session (mkTurn (Some 0) "h" 0 0)).
Proof.
  destruct (create_collision_crosstalk 2%nat half sv_started 0%nat [0%nat; 1%nat] 0%nat "h" 0 0
              game_session) as (Hs & _ & _ & Ho).
  - exact sv_started_reachable.
  - vm_compute. reflexivity.
  - vm_compute. reflexivity.
  - decide_concrete.
  - lia.
  - vm_compute. reflexivity.
  - vm_compute. reflexivity.
  - vm_compute. reflexivity.
  - reflexivity.
  - split; [exact Hs|]. rewrite Ho, last_app. cbn. reflexivity.
Defined.

Lemma run_keeps_history_witness :
  exists sess', heap (snd (run [EvTurn 0%nat "h" 0 0] sv_started)) !! 0%nat = Some sess' /\
    started sess' = true /\ [] `prefix_of` turns sess'.
Proof.
  destruct (run_keeps_history sv_started [EvTurn 0%nat "h" 0 0] 0%nat game_session
              sv_started_reachable sv_started_session) as (sess' & Hs & _ & Hst & _ & Ht).
  exists sess'. split; [exact Hs|]. split; [by apply Hst|exact Ht].
Defined.

Lemma reachable_roster_witness :
  players game_session = take 2 PLAYERS.
Proof.
  exact (reachable_roster sv_started 0%nat game_session sv_started_reachable sv_started_session).
Defined.

End Server.
