(* ===== verification/SessionSpec.v ===== *)
(** * SessionSpec: the spec's Session Manager and the server's lobby

    [spec.md] describes the Session Manager abstractly: a session has a
    phase ([lobby], [active], [finished]), an ordered roster of at most
    five players and a turn log; [joinSession] fails with
    [SessionNotFound], [GameAlreadyStarted] or [MaxPlayersReached], and
    [startSession] with [SessionNotFound] or [NotEnoughPlayers].  This
    file writes that machine down ([spec_join], [spec_start]) and relates
    the server's session objects to it by an abstraction function
    ([abs]: [started] is the phase, the roster is counted, the log is
    kept).  The refinement theorems show that [onIOJoinSession] and
    [onIOStart] implement the abstract operations, with the code's error
    strings for the spec's errors, under the conditions where the code
    and the spec agree: the code tests a full roster before a started
    game, and a socket's [session] must still be [this.sessions[id]]. *)

From stdpp Require Import base list gmap strings.
From Stdlib Require Import ZArith Lia.
From S2P Require Import Prelude Config Snapshot Server.

Local Open Scope Z_scope.

Module SessionSpec.
Import Server.

Inductive Phase : Type := PLobby | PActive | PFinished.

#[export] Instance Phase_eq_dec : EqDecision Phase.
Proof. solve_decision. Defined.

(** An abstract session: its phase, the size of its roster, its log. *)
Record ASession : Type := mkASession {
  aphase : Phase;
  aroster : nat;
  alog : list Turn;
}.

Inductive AError : Type :=
  | SessionNotFound
  | GameAlreadyStarted
  | MaxPlayersReached
  | NotEnoughPlayers.

Definition MAX_PLAYERS : nat := 5.

(** [joinSession]: the new player's index is the old roster size. *)
Definition spec_join (s : option ASession) : AError + (ASession * nat) :=
  match s with
  | None => inl SessionNotFound
  | Some a =>
      if decide (aphase a <> PLobby) then inl GameAlreadyStarted
      else if decide (aroster a = MAX_PLAYERS) then inl MaxPlayersReached
      else inr (mkASession PLobby (S (aroster a)) (alog a), aroster a)
  end.

(** [startSession]: [lobby -> active] with two players or more. *)
Definition spec_start (s : option ASession) : AError + ASession :=
  match s with
  | None => inl SessionNotFound
  | Some a =>
      if decide (aroster a < 2)%nat then inl NotEnoughPlayers
      else inr (mkASession PActive (aroster a) (alog a))
  end.

(** The strings the server's callbacks carry for the spec's errors. *)
Definition code_error (e : AError) : string :=
  match e with
  | SessionNotFound => "session_not_found"
  | GameAlreadyStarted => "game_already_started"
  | MaxPlayersReached => "max_players"
  | NotEnoughPlayers => "Waiting for players..."
  end.

(** The abstraction of a session object: the code has no [finished]
    phase. *)
Definition abs (sess : Session) : ASession :=
  mkASession (if started sess then PActive else PLobby) (length (players sess)) (turns sess).

(** The session [this.sessions[sid]] names, abstracted. *)
Definition abs_server (sv : Server) (sid : string) : option ASession :=
  abs <$> (sessions sv !! sid ≫= fun r => heap sv !! r).

(** After [createSession] by socket 0 and the connection of socket 1:
    a lobby with one player. *)
Definition sv_lobby : Server := snd (run (take 3 lobby_events) init).

(** ** Refinement *)

(** C33: [onIOJoinSession] implements the spec's [joinSession] on the
    session [this.sessions[sid]] names: the same error, with the code's
    string, and nothing changed; or the same new player index, and the
    session object now abstracts to the spec's new session.  The one case
    left out is a started game with a full roster, where the code
    reports [max_players] and the spec [GameAlreadyStarted], and the ids
    of [Object.prototype]'s members, for which the code throws
    ([join_inherited_crashes]). *)
Theorem join_refines k sid sv :
  sid ∉ object_prototype_keys ->
  ~ (exists r sess, sessions sv !! sid = Some r /\ heap sv !! r = Some sess /\
       started sess = true /\ length (players sess) = MAX_PLAYERS) ->
  match spec_join (abs_server sv sid) with
  | inl e => fst (onIOJoinSession k sid sv) = ReplyErr (code_error e) /\
             abs_server (snd (onIOJoinSession k sid sv)) sid = abs_server sv sid
  | inr (a', pid) =>
      exists sess', fst (onIOJoinSession k sid sv) = ReplyState sid (Z.of_nat pid) sess' /\
        abs sess' = a' /\ abs_server (snd (onIOJoinSession k sid sv)) sid = Some a'
  end.
Proof.
  intros Hproto Hnot. unfold abs_server, onIOJoinSession, set_socket, set_heap, join, emit_state.
  destruct (sessions sv !! sid) as [r|] eqn:Er; cbn [deref mbind option_bind];
    [|cbn; rewrite decide_False by done; cbn; rewrite ?Er; done].
  destruct (heap sv !! r) as [sess|] eqn:Es; cbn [fmap option_fmap option_map spec_join];
    [|cbn; rewrite ?Er; cbn; rewrite ?Es; done].
  unfold spec_join, abs at 1 2, MAX_PLAYERS. cbn [aphase aroster alog].
  rewrite PLAYERS_length.
  repeat case_decide; destruct (started sess) eqn:Hst; cbn in *;
    try (exfalso; apply Hnot; exists r, sess; done); try (exfalso; congruence);
    try (rewrite Er; cbn; rewrite Es; split; reflexivity).
  all: eexists; split_and!; [f_equal; rewrite length_app; cbn; lia| |].
  all: unfold abs; cbn; rewrite ?Er; cbn; rewrite ?lookup_insert_eq; cbn;
    rewrite length_app; cbn; do 2 f_equal; lia.
Qed.

(** C34: [onIOStart] implements the spec's [startSession] for a socket
    whose [session] is still the object [this.sessions] holds for its
    [sessionId]: the same error, or [ReplyOk] and the session becomes
    [active].  Starting an active game again is accepted, as the spec's
    operation (which only names the two errors) allows. *)
Theorem start_refines k sv sid :
  s_sessionId (socket_of sv k) = Some sid -> s_session (socket_of sv k) = sessions sv !! sid ->
  match spec_start (abs_server sv sid) with
  | inl e => fst (onIOStart k sv) = ReplyErr (code_error e) /\ heap (snd (onIOStart k sv)) = heap sv
  | inr a' => fst (onIOStart k sv) = ReplyOk /\ abs_server (snd (onIOStart k sv)) sid = Some a'
  end.
Proof.
  intros Hsid Hr. unfold abs_server, onIOStart. rewrite Hr, Hsid.
  destruct (sessions sv !! sid) as [r|] eqn:Er; cbn [deref mbind option_bind]; [|done].
  destruct (heap sv !! r) as [sess|] eqn:Es; cbn [fmap option_fmap option_map spec_start];
    [|done].
  unfold abs at 1. cbn [aroster].
  destruct (decide (length (players sess) < 2)%nat); [done|].
  split; [done|]. cbn. rewrite Er; cbn. rewrite lookup_insert_eq. done.
Qed.


(** ** Witnesses *)

Lemma join_refines_witness :
  exists sess', fst (onIOJoinSession 1%nat "fffff" sv_lobby) = ReplyState "fffff" 1 sess' /\
    abs sess' = mkASession PLobby 2 [].
Proof.
  assert (Hnot : ~ (exists r sess, sessions sv_lobby !! "fffff" = Some r /\
                    heap sv_lobby !! r = Some sess /\ started sess = true /\
                    length (players sess) = MAX_PLAYERS)).
  { intros (r & sess & Hr & Hs & Hst & _). vm_compute in Hr. injection Hr as <-.
    vm_compute in Hs. injection Hs as <-. vm_compute in Hst. discriminate. }
  pose proof (join_refines 1%nat "fffff" sv_lobby ltac:(decide_concrete) Hnot) as H.
  change (spec_join (abs_server sv_lobby "fffff"))
    with (inr (mkASession PLobby 2 [], 1%nat) : AError + (ASession * nat)) in H.
  destruct H as (sess' & H1 & H2 & _). exists sess'. split; [exact H1|exact H2].
Defined.

Lemma start_refines_witness : fst (onIOStart 0%nat sv_lobby) = ReplyErr "Waiting for players...".
Proof.
  pose proof (start_refines 0%nat sv_lobby "fffff") as H.
  change (spec_start (abs_server sv_lobby "fffff"))
    with (inl NotEnoughPlayers : AError + ASession) in H.
  destruct H as [H _]; [vm_compute; reflexivity|vm_compute; reflexivity|exact H].
Defined.



End SessionSpec.
