(* ===== verification/System.v ===== *)
(** * System: what a client makes of the server's broadcasts

    After every accepted event the server emits the whole session object
    to the session's room ([Server]).  The client's [socket.on('state')]
    handler calls [game.setState(state)] on the one [Game] object of the
    page ([Replica]): [setState] replays the full turn log on top of what
    the earlier messages left, and resets nothing.  The spec asks for the
    opposite, "on each new snapshot, discard and rebuild": the replica
    must be the replay of the snapshot on an empty grid.

    - [same_core] relates replicas that differ only in the rendered
      status, and every replica method [respects] it (the prelude's
      notion).
    - [setState_incremental] shows that consuming a snapshot that extends
      the previous one gives exactly the fresh replay, provided every
      turn of the previous log has a truthy [playerId].
    - Player ids start at 0, and 0 is falsy: the creator of a session is
      player 0, whose lines every later [setState] takes again, firing
      [nextTurn] each time ([Replica.setPlayer_line_owner],
      [Client.replica_not_rebuildable]).  [sv_played] is such a run of
      the server. *)

From stdpp Require Import base list gmap strings.
From Stdlib Require Import ZArith Lia.
From S2P Require Import Prelude Config Grid Snapshot Replica Server.

Local Open Scope Z_scope.
Local Open Scope js_scope.

Module System.
Import Grid Replica.

(** Two replicas that agree on all but the rendered status line and the
    [enabled] class. *)
Definition same_core (g g' : Game) : Prop :=
  board g = board g' /\ gplayers g = gplayers g' /\ gplayer g = gplayer g' /\
  winner g = winner g' /\ tie g = tie g' /\ gplayerId g = gplayerId g'.

(** A replica with another rendering. *)
Definition set_render (st : option StatusMsg) (en : bool) (g : Game) : Game :=
  mkGame (board g) (gplayers g) (gplayer g) (winner g) (tie g) (gplayerId g) st en.

(** The line of [turn] when [this.lines[direction][x][y]] exists, and it
    has a truthy owner: replaying [turn] again does nothing. *)
Definition settled (g : Game) (t : Turn) : Prop :=
  exists l, fst (lookup_line t g) = Normal l /\ truthy (line_owner g l) = true.

(** Replicas with the same lines on the board (owners aside). *)
Definition same_keys (g g' : Game) : Prop :=
  forall k, is_Some (lines (board g) !! k) <-> is_Some (lines (board g') !! k).

(** ** The page of a player *)

(** The ['state'] messages the server sent to socket [k], in order. *)
Definition inbox (k : Server.SocketId) (sv : Server.Server) : list Session :=
  (filter (fun m => m.1 = k) (Server.outbox sv)).*2.

(** [socket.on('state', state => game.setState(state))] on each message
    in turn; a replay that throws keeps its mutations, and the page goes
    on with the next message. *)
Definition consume (ss : list Session) (g : Game) : Game :=
  foldl (fun g s => snd (setState s g)) g ss.

(** The lobby of [Server.lobby_events], then socket 0 (player 0, the
    creator) draws [(h, 0, 0)] and socket 1 (player 1) draws [(h, 0, 1)]. *)
Definition game_events : list Server.Event :=
  Server.lobby_events ++ [Server.EvTurn 0%nat "h" 0 0; Server.EvTurn 1%nat "h" 0 1].

Definition sv_played : Server.Server := snd (Server.run game_events Server.init).

(** A page of player 1 that saw the log [[player 1 draws (h, 0, 0)]] and
    then receives the log extended by a turn of player 0. *)
Definition g_inc : Game := setPlayerId 1 (new_game 2 2).
Definition s_inc1 : Session := mkSession "fffff" true 1 two_players [turn_by 1 "h" 0 0].
Definition s_inc2 : Session :=
  mkSession "fffff" true 0 two_players [turn_by 1 "h" 0 0; turn_by 0 "v" 0 0].

(** ** Replica methods do not read the rendering *)

#[export] Instance same_core_equiv : Equivalence same_core.
Proof.
  unfold same_core. split.
  - intros g. done.
  - intros g g' H. naive_solver.
  - intros g g' g'' H1 H2. naive_solver congruence.
Qed.

Lemma same_core_set_render g g' : same_core g g' -> g' = set_render (status g') (enabled g') g.
Proof. destruct g, g'. intros (?&?&?&?&?&?). simpl in *. by subst. Qed.

Lemma same_core_render st en g : same_core (set_render st en g) g.
Proof. done. Qed.

Lemma respects_set_render {A} (m : jsm Game A) :
  (forall g st en, fst (m (set_render st en g)) = fst (m g) /\
                   same_core (snd (m (set_render st en g))) (snd (m g))) ->
  respects same_core m.
Proof.
  intros H g g' Hc. rewrite (same_core_set_render g g' Hc).
  destruct (H g (status g') (enabled g')) as [H1 H2]. split; [done|]. by symmetry.
Qed.

Lemma renderStatus_respects : respects same_core renderStatus.
Proof.
  apply respects_set_render. intros g st en. unfold renderStatus. jsimp.
  cbn [winner tie gplayers gplayer gplayerId set_render].
  destruct (winner g); [|destruct (tie g); [|destruct (js_index (gplayers g) (gplayer g))]];
    jsimp; done.
Qed.

(** When the rendering succeeds it does not depend on the previous one. *)
Lemma renderStatus_core_eq g g' :
  same_core g g' -> fst (renderStatus g) = Normal tt -> renderStatus g = renderStatus g'.
Proof.
  intros Hc. rewrite (same_core_set_render g g' Hc). unfold renderStatus. jsimp.
  cbn [winner tie gplayers gplayer gplayerId set_render].
  destruct (winner g); [|destruct (tie g); [|destruct (js_index (gplayers g) (gplayer g))]];
    jsimp; done.
Qed.

Lemma closing_box_set_render st en g l p :
  closing_box (set_render st en g) l p = closing_box g l p.
Proof. reflexivity. Qed.

Lemma after_boxes_set_render st en g l p :
  after_boxes (set_render st en g) l p = set_render st en (after_boxes g l p).
Proof.
  unfold after_boxes. rewrite closing_box_set_render. by destruct (closing_box g l p).
Qed.

Lemma setPlayer_respects l p : respects same_core (setPlayer l p).
Proof.
  apply respects_set_render. intros g st en. rewrite !setPlayer_eq, after_boxes_set_render.
  rewrite closing_box_set_render.
  change (line_owner (set_render st en g) l) with (line_owner g l).
  change (gplayers (set_render st en g)) with (gplayers g).
  change (allBoxesTaken (set_render st en (after_boxes g l p)))
    with (allBoxesTaken (after_boxes g l p)).
  change (next_player (set_render st en (after_boxes g l p)))
    with (next_player (after_boxes g l p)).
  destruct (truthy (line_owner g l)); [done|].
  destruct (js_index_opt (gplayers g) p); [|done].
  destruct (allBoxesTaken (after_boxes g l p)); [done|].
  destruct (closing_box g l p); apply renderStatus_respects; done.
Qed.

Lemma lookup_line_set_render st en t g :
  lookup_line t (set_render st en g) = (fst (lookup_line t g), set_render st en g).
Proof.
  unfold lookup_line. jsimp. cbn [board set_render].
  destruct (parse_direction (tdirection t)); [|done]. by destruct (lines (board g) !! _).
Qed.

Lemma replay_turn_respects t : respects same_core (replay_turn t).
Proof.
  unfold replay_turn. apply respects_bind; [|intros; apply setPlayer_respects].
  apply respects_set_render. intros g st en. rewrite lookup_line_set_render.
  split; [done|]. rewrite lookup_line_state. done.
Qed.

(** ** Replaying a turn whose line is owned *)

Lemma lookup_line_keys t g g' : same_keys g g' -> fst (lookup_line t g) = fst (lookup_line t g').
Proof.
  intros H. unfold lookup_line. jsimp.
  destruct (parse_direction (tdirection t)) as [d|]; [|done].
  specialize (H (d, tx t, ty t)).
  destruct (lines (board g) !! _), (lines (board g') !! _); try done;
    exfalso; apply (is_Some_None (A:=Line)); apply H; by eexists.
Qed.

Lemma lookup_line_Some t g l :
  fst (lookup_line t g) = Normal l -> is_Some (lines (board g) !! l).
Proof.
  unfold lookup_line. jsimp. destruct (parse_direction (tdirection t)) as [d|]; [|done].
  destruct (lines (board g) !! _) eqn:E; [|done]. simpl. intros [= <-]. by eexists.
Qed.

Lemma lookup_line_normal t g l :
  fst (lookup_line t g) = Normal l -> lookup_line t g = (Normal l, g).
Proof.
  intros H. pose proof (lookup_line_state t g) as Hs.
  destruct (lookup_line t g) as [o g0]. simpl in *. by subst.
Qed.

Lemma line_owner_after_boxes g l p l' :
  line_owner (after_boxes g l p) l' = line_owner (after_line g l p) l'.
Proof. unfold after_boxes. by destruct (closing_box g l p). Qed.

Lemma setPlayer_keys l p g : same_keys (snd (setPlayer l p g)) g.
Proof.
  destruct (truthy (line_owner g l)) eqn:Ht.
  { rewrite setPlayer_eq, Ht. done. }
  intros k. rewrite (setPlayer_board g l p Ht).
  assert (Hl : lines (board (after_boxes g l p)) = lines (board (after_line g l p)))
    by (unfold after_boxes; by destruct (closing_box g l p)).
  rewrite Hl. unfold after_line, set_line_player, set_lines. cbn [board lines].
  apply lookup_alter_is_Some.
Qed.

(** A truthy owner stays. *)
Lemma setPlayer_truthy_persist l p g l' :
  truthy (line_owner g l') = true -> truthy (line_owner (snd (setPlayer l p g)) l') = true.
Proof.
  intros H'. destruct (truthy (line_owner g l)) eqn:Ht.
  { rewrite setPlayer_eq, Ht. done. }
  rewrite (line_owner_board _ _ _ (setPlayer_board g l p Ht)), line_owner_after_boxes,
    line_owner_after_line.
  case_decide; [subst; congruence|done].
Qed.

(** A successful [setPlayer] with a truthy id leaves the line with a
    truthy owner. *)
Lemma setPlayer_settles l p g :
  truthy p = true -> is_Some (lines (board g) !! l) -> fst (setPlayer l p g) = Normal tt ->
  truthy (line_owner (snd (setPlayer l p g)) l) = true.
Proof.
  intros Hp [ln Hl]. rewrite setPlayer_eq.
  destruct (truthy (line_owner g l)) eqn:Ht; [done|].
  destruct (js_index_opt (gplayers g) p); [|done].
  destruct (allBoxesTaken (after_boxes g l p)); [done|]. intros _.
  assert (Hb : forall g', board g' = board (after_boxes g l p) ->
                 truthy (line_owner g' l) = true).
  { intros g' Hbd. rewrite (line_owner_board _ _ _ Hbd), line_owner_after_boxes,
      line_owner_after_line, Hl.
    by rewrite decide_True. }
  destruct (closing_box g l p); apply Hb; rewrite (proj1 (renderStatus_fields _)); done.
Qed.

Lemma replay_turn_settles t g :
  truthy (tplayerId t) = true -> fst (replay_turn t g) = Normal tt ->
  settled (snd (replay_turn t g)) t.
Proof.
  intros Hp. unfold replay_turn, jbind.
  destruct (lookup_line t g) as [[l|e] g0] eqn:E; [|done].
  pose proof (lookup_line_state t g) as Hs. rewrite E in Hs. simpl in Hs. subst g0.
  intros Hn. exists l. split.
  - rewrite (lookup_line_keys t _ g (setPlayer_keys l (tplayerId t) g)). by rewrite E.
  - apply setPlayer_settles; [done| |done].
    apply (lookup_line_Some t g). by rewrite E.
Qed.

Lemma replay_turn_persist t t' g : settled g t' -> settled (snd (replay_turn t g)) t'.
Proof.
  intros (l' & Hl' & Ho). unfold replay_turn, jbind.
  destruct (lookup_line t g) as [[l|e] g0] eqn:E;
    pose proof (lookup_line_state t g) as Hs; rewrite E in Hs; simpl in Hs; subst g0;
    [|by exists l'].
  exists l'. split.
  - by rewrite (lookup_line_keys t' _ g (setPlayer_keys l (tplayerId t) g)).
  - by apply setPlayer_truthy_persist.
Qed.

Lemma jforEach_persist ts t' g :
  settled g t' -> settled (snd (jforEach replay_turn ts g)) t'.
Proof.
  revert g. induction ts as [|t ts IH]; intros g H; [done|]. cbn [jforEach]. unfold jbind.
  pose proof (replay_turn_persist t t' g H) as H1.
  destruct (replay_turn t g) as [[[]|e] g1]; [by apply IH|done].
Qed.

Lemma jforEach_settles ts g g' :
  Forall (fun t => truthy (tplayerId t) = true) ts ->
  jforEach replay_turn ts g = (Normal tt, g') -> Forall (settled g') ts.
Proof.
  intros Hids. revert g. induction Hids as [|t ts Ht Hts IH]; intros g H; [done|].
  cbn [jforEach] in H. unfold jbind in H.
  destruct (replay_turn t g) as [[[]|e] g1] eqn:E; [|done].
  constructor; [|by eapply IH].
  replace g' with (snd (jforEach replay_turn ts g1)) by (by rewrite H).
  apply jforEach_persist. replace g1 with (snd (replay_turn t g)) by (by rewrite E).
  apply replay_turn_settles; [done|]. by rewrite E.
Qed.

Lemma replay_turn_settled t g : settled g t -> replay_turn t g = (Normal tt, g).
Proof.
  intros (l & Hl & Ho). unfold replay_turn.
  rewrite (jbind_normal _ _ _ _ _ (lookup_line_normal t g l Hl)), setPlayer_eq, Ho. done.
Qed.

Lemma jforEach_settled ts g : Forall (settled g) ts -> jforEach replay_turn ts g = (Normal tt, g).
Proof.
  induction 1 as [|t ts Ht _ IH]; [done|]. cbn [jforEach].
  by rewrite (jbind_normal _ _ _ _ _ (replay_turn_settled t g Ht)).
Qed.

Lemma settled_board g g' t : board g' = board g -> settled g t -> settled g' t.
Proof.
  intros Hb (l & Hl & Ho). exists l. split.
  - rewrite <- Hl. apply lookup_line_keys. intros k. by rewrite Hb.
  - by rewrite (line_owner_board _ _ _ Hb).
Qed.

(** The replay keeps [this.players] and [this.playerId]. *)
Lemma setPlayer_keeps_players ps pid l p :
  preserves (fun g => gplayers g = ps /\ gplayerId g = pid) (setPlayer l p).
Proof.
  intros g [Hp Hi]. rewrite setPlayer_eq.
  assert (Ha : gplayers (after_boxes g l p) = ps /\ gplayerId (after_boxes g l p) = pid)
    by (unfold after_boxes; by destruct (closing_box g l p)).
  repeat case_match; try done;
    (destruct (renderStatus_fields (set_gplayer (next_player (after_boxes g l p))
                                                (after_boxes g l p))) as (_ & -> & _ & _ & _ & ->)
     || destruct (renderStatus_fields (after_boxes g l p)) as (_ & -> & _ & _ & _ & ->));
    done.
Qed.

Lemma jforEach_keeps_players ps pid ts :
  preserves (fun g => gplayers g = ps /\ gplayerId g = pid) (jforEach replay_turn ts).
Proof.
  apply preserves_jforEach. intros t g H. unfold replay_turn, jbind.
  destruct (lookup_line t g) as [[l|e] g0] eqn:E;
    pose proof (lookup_line_state t g) as Hs; rewrite E in Hs; simpl in Hs; subst g0; [|done].
  by apply setPlayer_keeps_players.
Qed.

Lemma setState_split s g :
  setState s g =
  jbind (jforEach replay_turn (turns s)) (fun _ => renderStatus) (set_gplayers (players s) g).
Proof. reflexivity. Qed.

(** ** Consuming successive snapshots *)

(** C18: the client consumes a broadcast by replaying its whole log on
    the replica the previous broadcast left.  When the new log extends
    the old one, the players are the same (as they are once the game has
    started), and every turn of the old log has a truthy [playerId], this
    gives exactly what the spec's "discard and rebuild" gives: the replay
    of the new snapshot on the replica the old one started from: the
    page that consumed both messages equals the page that consumed only
    the second. *)
Theorem setState_incremental g s1 s2 more g1 :
  players s2 = players s1 -> turns s2 = turns s1 ++ more ->
  Forall (fun t => truthy (tplayerId t) = true) (turns s1) ->
  setState s1 g = (Normal tt, g1) ->
  fst (setState s2 g) = Normal tt ->
  setState s2 g1 = setState s2 g /\ consume [s1; s2] g = consume [s2] g.
Proof.
  intros HP HT Hids H1 H2.
  enough (Heq : setState s2 g1 = setState s2 g).
  { split; [done|]. unfold consume. cbn [foldl]. rewrite H1. cbn [snd]. by rewrite Heq. }
  rewrite !setState_split, HT, HP, !jbind_jforEach_app in *.
  set (P := players s1) in *.
  destruct (jforEach replay_turn (turns s1) (set_gplayers P g)) as [[[]|e] h] eqn:E;
    unfold jbind at 1 in H1; rewrite E in H1; [|done].
  rewrite (jbind_normal _ _ _ _ _ E) in H2 |- *.
  pose proof (renderStatus_fields h) as Hf. rewrite H1 in Hf. cbn [snd] in Hf.
  destruct Hf as (Hb & Hps & Hp & Hw & Ht & Hi).
  assert (Hg1 : set_gplayers P g1 = g1).
  { pose proof (jforEach_keeps_players P (gplayerId g) (turns s1) (set_gplayers P g)
                  (conj eq_refl eq_refl)) as [HP' _].
    rewrite E in HP'. cbn [snd] in HP'.
    unfold set_gplayers. rewrite <- HP', <- Hps. by destruct g1. }
  rewrite Hg1.
  assert (Hset : Forall (settled g1) (turns s1)).
  { eapply Forall_impl; [exact (jforEach_settles _ _ _ Hids E)|].
    intros t. by apply settled_board. }
  rewrite (jbind_normal _ _ _ _ _ (jforEach_settled _ _ Hset)).
  assert (Hc : same_core g1 h) by (unfold same_core; done).
  destruct (respects_jforEach same_core replay_turn more replay_turn_respects g1 h Hc)
    as [Ho Hs].
  unfold jbind in *.
  destruct (jforEach replay_turn more g1) as [o1 k1], (jforEach replay_turn more h) as [o2 k2].
  cbn [fst snd] in Ho, Hs. subst o1. destruct o2 as [[]|e]; [|done].
  symmetry. apply renderStatus_core_eq; [by symmetry|done].
Qed.

(** ** Witnesses *)

Lemma setState_incremental_witness :
  setState s_inc2 (snd (setState s_inc1 g_inc)) = setState s_inc2 g_inc /\
  consume [s_inc1; s_inc2] g_inc = consume [s_inc2] g_inc.
Proof.
  apply (setState_incremental g_inc s_inc1 s_inc2 [turn_by 0 "v" 0 0]);
    [reflexivity|reflexivity|repeat constructor|vm_compute; reflexivity|vm_compute; reflexivity].
Defined.

End System.
