(* ===== verification/Client.v ===== *)
(** * Client: the lobby and the page bootstrap ([src/public/js/app.js])

    Besides the [Game] of [Replica], the browser page has a [Lobby] object
    and the [load] handler that ties both to the socket:
    - [Lobby.setState] rebuilds the [#lobby-players] list from the
      snapshot's roster and disables the start button below two players;
      [setSessionId] writes the invitation text, [setPlayerId] the
      viewer's id, and a click on an enabled start button emits ['start'];
    - the [load] handler reads [window.location.pathname], strips its
      ['/'], and emits ['joinSession'] for a five-character path or
      ['createSession'] otherwise; the acknowledgement either shows an
      alert (and for the three known join errors goes back to ['/']) or
      feeds the reply to the lobby and the game, after a
      [history.pushState] to ['/' + sessionId] for a created session;
    - every ['state'] message goes to [lobby.setState], then to
      [game.setState], then toggles the visibility of [#lobby] and
      [#game] (skipped when [game.setState] throws).

    The page's outward effects (emits, alerts, navigation and history)
    are values of [Emit] and [Effect].  The class [Rebuilds] is the
    spec's contract for a client view: its state after a snapshot depends
    on the snapshot only, up to an identity ([view key]) that snapshots
    leave alone.  The lobby is an instance; the game's replay is not. *)

From stdpp Require Import base list gmap strings.
From Stdlib Require Import Ascii ZArith Lia.
From S2P Require Import Prelude Config SessionId Grid Snapshot Replica Server System.

Local Open Scope Z_scope.

Module Client.
Import Grid Replica.

(** ** The lobby *)

(** One [<li>] of [#lobby-players]: its text, its colour and its class
    [you]. *)
Record LobbyItem : Type := mkItem {
  item_text : string;
  item_color : string;
  item_you : bool;
}.

Record Lobby : Type := mkLobby {
  litems : list LobbyItem;   (** the children of [#lobby-players] *)
  start_disabled : bool;     (** class [disabled] of [#lobby-start] *)
  subtitle : string;         (** [textContent] of [.subtitle] *)
  lplayerId : option Z;      (** [this.playerId] *)
}.

(** [$player.classList.toggle('you', this.playerId === i)] on a new
    element: [undefined === i] is false. *)
Definition lobby_item (pid : option Z) (i : nat) (p : Player) : LobbyItem :=
  mkItem (name p) (color p) (bool_decide (pid = Some (Z.of_nat i))).

(** [Lobby.setState({ players })]: [innerHTML = ''], one item per
    player, and the start button's [disabled] class. *)
Definition lobby_setState (s : Session) (l : Lobby) : Lobby :=
  mkLobby (imap (lobby_item (lplayerId l)) (players s)) (lobby_start_disabled s)
    (subtitle l) (lplayerId l).

(** [Lobby.setSessionId(sessionId)] *)
Definition lobby_setSessionId (sid : string) (l : Lobby) : Lobby :=
  mkLobby (litems l) (start_disabled l) ("Invite your friends! http://foo.bar/" +:+ sid)
    (lplayerId l).

(** [Lobby.setPlayerId(playerId)] *)
Definition lobby_setPlayerId (pid : Z) (l : Lobby) : Lobby :=
  mkLobby (litems l) (start_disabled l) (subtitle l) (Some pid).

(** ** What the page sends and does *)

(** The socket events the page emits. *)
Inductive Emit : Type :=
  | EmitCreate                          (** [socket.emit('createSession', ...)] *)
  | EmitJoin (sid : string)             (** [socket.emit('joinSession', { sessionId }, ...)] *)
  | EmitStart                           (** [socket.emit('start', ...)] *)
  | EmitTurn (d : string) (x y : Z).    (** [socket.emit('turn', { direction, x, y }, ...)] *)

(** The effects of an acknowledgement on the browser. *)
Inductive Effect : Type :=
  | Alert (msg : string)                (** [alert(msg)] *)
  | Navigate (url : string)             (** [window.location.href = url] *)
  | PushState (path : string).          (** [history.pushState(..., path)] *)

(** The click listener of the start button (the [Lobby] constructor):
    [if (disabled) return; onStart();], and [onStart] emits ['start']. *)
Definition lobby_click (l : Lobby) : option Emit :=
  if start_disabled l then None else Some EmitStart.

(** ** The page *)

Record Page : Type := mkPage {
  plobby : Lobby;
  pgame : Game;
  ppath : string;         (** [window.location.pathname] *)
  lobby_visible : bool;   (** class [visible] of [#lobby] *)
  game_visible : bool;    (** class [visible] of [#game] *)
}.

Definition set_path (path : string) (p : Page) : Page :=
  mkPage (plobby p) (pgame p) path (lobby_visible p) (game_visible p).

(** [socket.on('state', state => { lobby.setState(state);
    game.setState(state); ...toggle('visible', ...) })]: an exception of
    [game.setState] ends the handler before the toggles. *)
Definition on_state (s : Session) (p : Page) : Page :=
  let l := lobby_setState s (plobby p) in
  match setState s (pgame p) with
  | (Normal _, g) => mkPage l g (ppath p) (negb (started s)) (started s)
  | (Thrown _, g) => mkPage l g (ppath p) (lobby_visible p) (game_visible p)
  end.

(** [let sessionId = window.location.pathname;
    if (sessionId.startsWith('/')) sessionId = sessionId.substr(1);] *)
Definition strip_slash (path : string) : string :=
  match path with
  | String "/"%char rest => rest
  | _ => path
  end.

(** [if (sessionId.length === 5) socket.emit('joinSession', ...) else
    socket.emit('createSession', ...)] *)
Definition boot_request (path : string) : Emit :=
  let sid := strip_slash path in
  if SessionId.client_is_join_path sid then EmitJoin sid else EmitCreate.

(** The common tail of both acknowledgements:
    [lobby.setSessionId(sessionId); lobby.setPlayerId(playerId);
    lobby.setState(state); game.setPlayerId(playerId);
    game.setState(state);]. *)
Definition accept_result (sid : string) (pid : Z) (st : Session) (p : Page) : Page :=
  let l := lobby_setState st (lobby_setPlayerId pid (lobby_setSessionId sid (plobby p))) in
  mkPage l (snd (setState st (setPlayerId pid (pgame p)))) (ppath p) (lobby_visible p)
    (game_visible p).

(** The acknowledgement of ['joinSession']: three known error codes send
    the browser back to ['/'] after an alert; any other error is only
    shown.  A reply without a result ([callback()]) makes the
    destructuring throw, which ends the callback. *)
Definition on_join_reply (r : Server.Reply) (p : Page) : list Effect * Page :=
  match r with
  | Server.ReplyErr err =>
      if String.eqb err "session_not_found" then
        ([Alert "This game doesn't exist anymore!"; Navigate "/"], p)
      else if String.eqb err "game_already_started" then
        ([Alert "This game has already started!"; Navigate "/"], p)
      else if String.eqb err "max_players" then
        ([Alert "Maximum number of players reached!"; Navigate "/"], p)
      else ([Alert err], p)
  | Server.ReplyState sid pid st => ([], accept_result sid pid st p)
  | _ => ([], p)
  end.

(** The acknowledgement of ['createSession']: the path becomes
    ['/' + sessionId] before the result is applied. *)
Definition on_create_reply (r : Server.Reply) (p : Page) : list Effect * Page :=
  match r with
  | Server.ReplyErr err => ([Alert err], p)
  | Server.ReplyState sid pid st =>
      ([PushState ("/" +:+ sid)], accept_result sid pid st (set_path ("/" +:+ sid) p))
  | _ => ([], p)
  end.

(** The key ['h'] or ['v'] under which the constructor files a line. *)
Definition direction_key (d : direction) : string :=
  match d with
  | LineHorizontal => "h"
  | LineVertical => "v"
  end.

(** The [onClick] the [Game] constructor gives each line,
    [() => this.onTurn({ direction, x, y })], with the page's [onTurn]
    emitting ['turn'].  The instance field shadows
    [Line.prototype.onClick]: nothing checks the line's owner or whose
    turn it is before sending. *)
Definition line_click (l : LineId) : Emit :=
  let '(d, x, y) := l in EmitTurn (direction_key d) x y.

(** The acknowledgements of ['turn'] and ['start']:
    [err => { if (err) return alert(err); }]. *)
Definition alert_on_error (r : Server.Reply) : list Effect :=
  match r with
  | Server.ReplyErr err => [Alert err]
  | _ => []
  end.

(** ** Views rebuilt from snapshots *)

(** A view fed with snapshots one after the other. *)
Definition feed {V} (set : Session -> V -> V) (ss : list Session) (v : V) : V :=
  foldl (fun v s => set s v) v ss.

(** The spec's contract for the client: after a snapshot, a view is a
    function of the snapshot and of an identity [key] that snapshots do
    not change (the viewer's id, the invitation text). *)
Class Rebuilds {V K : Type} (set : Session -> V -> V) (key : V -> K) : Prop := {
  rebuild_key : forall s v, key (set s v) = key v;
  rebuild_fresh : forall s v v', key v = key v' -> set s v = set s v';
}.

Definition lobby_key (l : Lobby) : string * option Z := (subtitle l, lplayerId l).

(** The game's [setState], with the outcome dropped as the page does. *)
Definition game_set (s : Session) (g : Game) : Game := snd (setState s g).

(** ** Concrete pages *)

(** A fresh page of the viewer with id 1, and the started snapshot in
    which player 0 drew [(h, 0, 0)]. *)
Definition g_viewer : Game := setPlayerId 1 (new_game 2 2).
Definition s_creator : Session := mkSession "fffff" true 1 two_players [turn_by 0 "h" 0 0].
Definition lobby0 : Lobby := mkLobby [] true "" None.
Definition page0 : Page := mkPage lobby0 (new_game 2 2) "/" true false.

(** ** Views rebuilt from snapshots: the generic lemmas *)

Section Feed.
Context {V K : Type} (set : Session -> V -> V) (key : V -> K) `{!Rebuilds set key}.

Lemma feed_key ss v : key (feed set ss v) = key v.
Proof.
  revert v. induction ss as [|s ss IH]; intros v; [done|].
  change (key (feed set ss (set s v)) = key v). rewrite IH. apply rebuild_key.
Qed.

(** Only the last snapshot counts. *)
Lemma feed_snoc ss s v : feed set (ss ++ [s]) v = set s v.
Proof.
  unfold feed. rewrite foldl_app. cbn. apply rebuild_fresh. fold (feed set ss v).
  apply feed_key.
Qed.

Lemma feed_last ss s v : last ss = Some s -> feed set ss v = set s v.
Proof. rewrite last_Some. intros [ss' ->]. apply feed_snoc. Qed.

End Feed.

#[export] Instance lobby_rebuilds : Rebuilds lobby_setState lobby_key.
Proof.
  split; [done|]. intros s [i d t pid] [i' d' t' pid']. unfold lobby_key; cbn.
  by intros [= -> ->].
Qed.

(** The lobby of the page is fed exactly what the game is fed. *)
Lemma feed_on_state_lobby ss p :
  plobby (feed on_state ss p) = feed lobby_setState ss (plobby p).
Proof.
  revert p. induction ss as [|s ss IH]; intros p; [done|].
  change (plobby (feed on_state ss (on_state s p)) =
          feed lobby_setState ss (lobby_setState s (plobby p))).
  rewrite IH. f_equal. unfold on_state. by destruct (setState s (pgame p)) as [[] ?].
Qed.

Lemma feed_on_state_game ss p :
  pgame (feed on_state ss p) = System.consume ss (pgame p).
Proof.
  revert p. induction ss as [|s ss IH]; intros p; [done|].
  change (pgame (feed on_state ss (on_state s p)) =
          System.consume ss (snd (setState s (pgame p)))).
  rewrite IH. f_equal. unfold on_state. by destruct (setState s (pgame p)) as [[] ?].
Qed.

(** ** The page and the server *)

(** The only error codes of [onIOJoinSession]. *)
Lemma join_error_codes k sid sv msg sv' :
  Server.onIOJoinSession k sid sv = (Server.ReplyErr msg, sv') ->
  msg = "session_not_found" \/ msg = "game_already_started" \/ msg = "max_players".
Proof.
  unfold Server.onIOJoinSession. intros H.
  repeat (case_match || case_decide); simplify_eq; auto.
Qed.

Lemma parse_direction_key d : parse_direction (direction_key d) = Some d.
Proof. by destruct d. Qed.

(** The path [history.pushState] writes parses back to the id. *)
Lemma boot_request_pushed sid :
  String.length sid = 5%nat -> boot_request ("/" +:+ sid) = EmitJoin sid.
Proof.
  intros Hl. unfold boot_request, SessionId.client_is_join_path.
  change (strip_slash ("/" +:+ sid)) with sid. by rewrite Hl.
Qed.

(** ** What the page shows and sends *)

(** C20: the link of a created session works.  Whatever doubles
    [Math.random()] returns in [[0, 1)], the acknowledgement of
    [createSession] moves the page to the path ['/' + sessionId], a page
    loaded at that path asks to join that very id, and the server admits
    it as player 1 of the new session. *)
Theorem create_link_joins k k' rand sv p :
  (forall j, double_ok (rand j) /\ double_lt_1 (rand j)) ->
  boot_request (ppath (snd (on_create_reply (fst (Server.onIOCreateSession k rand sv)) p))) =
    EmitJoin (SessionId.createSessionId_default rand) /\
  fst (Server.onIOJoinSession k' (SessionId.createSessionId_default rand)
         (snd (Server.onIOCreateSession k rand sv))) =
    Server.ReplyState (SessionId.createSessionId_default rand) 1
      (mkSession (SessionId.createSessionId_default rand) false 0
         [Server.player_slot 0; Server.player_slot 1] []).
Proof.
  intros Hr. destruct (SessionId.createSessionId_loop_spec rand 0 5 "" Hr) as [Hl _].
  split; [apply boot_request_pushed; exact Hl|].
  unfold Server.onIOJoinSession, Server.onIOCreateSession, Server.socket_of, Server.deref,
    Server.join, Server.emit_state, Server.set_socket.
  cbn -[SessionId.createSessionId_default Server.player_slot].
  rewrite !lookup_insert_eq. reflexivity.
Qed.

(** C21: every rejection of [joinSession] is one of the three codes the
    page knows: the page shows its message and goes back to ['/'], never
    the bare [alert(err)] of an unknown error. *)
Theorem join_rejection_redirects k sid sv msg sv' p :
  Server.onIOJoinSession k sid sv = (Server.ReplyErr msg, sv') ->
  exists text, on_join_reply (Server.ReplyErr msg) p = ([Alert text; Navigate "/"], p).
Proof.
  intros H. destruct (join_error_codes k sid sv msg sv' H) as [-> | [-> | ->]]; eexists; reflexivity.
Qed.

(** C22: the lobby's start button agrees with the server.  For the
    session object a socket is bound to, the button rendered from that
    object emits ['start'] exactly when [onIOStart] accepts the start:
    both test for fewer than two players. *)
Theorem lobby_start_matches_server k sv r sess l :
  Server.s_session (Server.socket_of sv k) = Some r -> Server.heap sv !! r = Some sess ->
  lobby_click (lobby_setState sess l) = Some EmitStart <->
  fst (Server.onIOStart k sv) = Server.ReplyOk.
Proof.
  intros Hk Hs. unfold lobby_click, lobby_setState, lobby_start_disabled, Server.onIOStart.
  rewrite Hk. cbn [Server.deref start_disabled]. rewrite Hs.
  case_bool_decide; case_decide; try lia; cbn; split; congruence.
Qed.

(** C23: the lobby meets the spec's discard-and-rebuild contract.  After
    any run of the server, the lobby of the page of socket [k] shows the
    last ['state'] message addressed to [k], whatever the earlier ones
    were. *)
Theorem lobby_shows_last_snapshot k sv p s :
  last (System.inbox k sv) = Some s ->
  plobby (feed on_state (System.inbox k sv) p) = lobby_setState s (plobby p).
Proof.
  intros Hs. rewrite feed_on_state_lobby. by apply (feed_last _ lobby_key).
Qed.

(** C24: the game's replay does not meet that contract, whatever
    identity [key] is allowed to survive a snapshot: replaying the
    snapshot of [s_creator] a second time moves the turn again, because
    the line of player 0 is taken again. *)
Theorem replica_not_rebuildable {K : Type} (key : Game -> K) :
  ~ Rebuilds game_set key.
Proof.
  intros [Hk Hf].
  pose proof (Hf s_creator g_viewer (game_set s_creator g_viewer)
                (eq_sym (Hk s_creator g_viewer))) as H.
  apply (f_equal gplayer) in H. vm_compute in H. discriminate.
Qed.

(** C25: a click travels to every replica and back to its line.  When
    the socket of a started session clicks a line of its page's board,
    the server appends a turn, and replaying that turn on any replica
    with the same lines finds exactly the clicked line. *)
Theorem click_roundtrip k sv r sess l g g' :
  Server.s_session (Server.socket_of sv k) = Some r -> Server.heap sv !! r = Some sess ->
  started sess = true -> is_Some (lines (board g) !! l) -> System.same_keys g' g ->
  exists t d x y, line_click l = EmitTurn d x y /\
    Server.heap (snd (Server.onIOTurn k d x y sv)) !! r = Some (Server.with_turn sess t) /\
    lookup_line t g' = (Normal l, g').
Proof.
  intros Hk Hs Hst Hl Hkeys. destruct l as [[d x] y].
  exists (mkTurn (Server.s_playerId (Server.socket_of sv k)) (direction_key d) x y),
    (direction_key d), x, y.
  split; [done|]. split.
  - unfold Server.onIOTurn. rewrite Hk. cbn [Server.deref]. rewrite Hs, Hst. cbn.
    rewrite lookup_insert_eq. unfold Server.with_turn. by rewrite Hst.
  - apply (Hkeys (d, x, y)) in Hl. destruct Hl as [ln Hln].
    unfold lookup_line. jsimp. cbn [tdirection tx ty]. rewrite parse_direction_key.
    match goal with |- context [match ?o with _ => _ end] => destruct o eqn:E end;
      [reflexivity|].
    unfold LineId in *. congruence.
Qed.

(** C28: the server and the page disagree on a shared link with a
    trailing ['/'].  For every generated id, express's non-strict router
    serves the page at ['/' + id + '/'], but the page strips only the
    leading ['/'], sees six characters, and creates a new session instead
    of joining [id]. *)
Theorem trailing_slash_link_creates rand is_static :
  (forall j, double_ok (rand j) /\ double_lt_1 (rand j)) ->
  is_static ("/" +:+ SessionId.createSessionId_default rand +:+ "/") = false ->
  SessionId.http_get is_static ("/" +:+ SessionId.createSessionId_default rand +:+ "/") =
    SessionId.IndexPage /\
  boot_request ("/" +:+ SessionId.createSessionId_default rand +:+ "/") = EmitCreate.
Proof.
  intros Hr Hs. destruct (SessionId.createSessionId_loop_spec rand 0 5 "" Hr) as [Hl Ha].
  fold (SessionId.createSessionId rand 5) in Hl, Ha.
  fold (SessionId.createSessionId_default rand) in Hl, Ha.
  set (sid := SessionId.createSessionId_default rand) in *. clearbody sid.
  assert (H6 : String.length (sid +:+ "/") = 6%nat)
    by (rewrite SessionId.length_append, Hl; reflexivity).
  split.
  - unfold SessionId.http_get. rewrite Hs.
    change ("/" +:+ sid +:+ "/") with (String "/"%char (sid +:+ "/")). cbv beta iota.
    unfold SessionId.route_matches at 1. rewrite H6. cbn [Nat.eqb andb].
    rewrite SessionId.drop_trailing_slash_app. unfold SessionId.route_matches.
    rewrite Hl, Ha. reflexivity.
  - unfold boot_request, SessionId.client_is_join_path.
    change (strip_slash ("/" +:+ sid +:+ "/")) with (sid +:+ "/"). by rewrite H6.
Qed.

(** ** Witnesses on concrete runs *)

Lemma create_link_joins_witness :
  boot_request (ppath (snd (on_create_reply (fst (Server.onIOCreateSession 0%nat Server.half
                                                     Server.init)) page0))) =
    EmitJoin "fffff".
Proof.
  assert (Hr : forall j, double_ok (Server.half j) /\ double_lt_1 (Server.half j))
    by (intros j; vm_compute; repeat split; discriminate).
  destruct (create_link_joins 0%nat 1%nat Server.half Server.init page0 Hr) as [H _].
  rewrite H. reflexivity.
Defined.

Lemma join_rejection_redirects_witness :
  exists text, on_join_reply (Server.ReplyErr "game_already_started") page0 =
               ([Alert text; Navigate "/"], page0).
Proof.
  apply (join_rejection_redirects 2%nat "fffff" Server.sv_started "game_already_started"
           (snd (Server.onIOJoinSession 2%nat "fffff" Server.sv_started))).
  vm_compute. reflexivity.
Defined.

Lemma lobby_start_matches_server_witness :
  fst (Server.onIOStart 0%nat Server.sv_started) = Server.ReplyOk.
Proof.
  apply (lobby_start_matches_server 0%nat Server.sv_started 0%nat Server.game_session lobby0).
  - vm_compute. reflexivity.
  - vm_compute. reflexivity.
  - vm_compute. reflexivity.
Defined.

Lemma lobby_shows_last_snapshot_witness :
  start_disabled (plobby (feed on_state (System.inbox 1%nat System.sv_played) page0)) = false.
Proof.
  rewrite (lobby_shows_last_snapshot 1%nat System.sv_played page0
             (mkSession "fffff" true 0 two_players [turn_by 0 "h" 0 0; turn_by 1 "h" 0 1])).
  - reflexivity.
  - vm_compute. reflexivity.
Defined.

Lemma click_roundtrip_witness :
  exists t d x y, line_click (LineVertical, 2, 1) = EmitTurn d x y /\
    Server.heap (snd (Server.onIOTurn 1%nat d x y Server.sv_started)) !! 0%nat =
      Some (Server.with_turn Server.game_session t) /\
    lookup_line t g_viewer = (Normal (LineVertical, 2, 1), g_viewer).
Proof.
  apply (click_roundtrip 1%nat Server.sv_started 0%nat Server.game_session
           (LineVertical, 2, 1) g_viewer g_viewer).
  - vm_compute. reflexivity.
  - vm_compute. reflexivity.
  - reflexivity.
  - vm_compute. eexists. reflexivity.
  - intros l'. reflexivity.
Defined.

(** A public directory of files with an extension: ["/fffff/"] is the
    page, and the page asks for a new session. *)
Lemma trailing_slash_link_creates_witness :
  SessionId.http_get (fun path => String.eqb path "/js/app.js") "/fffff/" = SessionId.IndexPage /\
  boot_request "/fffff/" = EmitCreate.
Proof.
  assert (Hr : forall j, double_ok (Server.half j) /\ double_lt_1 (Server.half j))
    by (intros j; vm_compute; repeat split; discriminate).
  exact (trailing_slash_link_creates Server.half (fun path => String.eqb path "/js/app.js")
           Hr eq_refl).
Defined.

End Client.
