(* ===== verification/Broadcast.v ===== *)
(** * Broadcast: the Synchronization Broadcaster ([src/server/lib/Server.js])

    Every accepted handler of [Server] ends with
    [this.io.to(sessionId).emit('state', session)] and then calls the
    acknowledgement [callback]; every rejection only calls [callback].
    socket.io sends both over the requester's one connection, in that
    order.  [packets] lists what one event puts on the wire, and [wire k]
    what socket [k] receives of it.

    A handler that throws ([Crash]: an id of [Object.prototype] in
    [joinSession]) sends nothing: the exception comes before any
    [emit] or [callback].

    The theorems: a rejection reaches only its requester and changes no
    session ([rejection_private]); an accepted join reaches the joiner as
    the snapshot and then the acknowledgement, and every other member of
    the room as the snapshot alone, so the joiner's lobby ends marked as
    the last player ([join_delivery]).  socket.io's own behaviour on a
    closed connection (leaving the rooms; the code registers no
    ['disconnect'] handler) is not modelled. *)

From stdpp Require Import base list gmap strings.
From Stdlib Require Import ZArith Lia.
From S2P Require Import Prelude Config SessionId Snapshot Replica Server SessionSpec System Client.

Local Open Scope Z_scope.

Module Broadcast.
Import Server Client.

(** ** What goes on the wire *)

(** A ['state'] message or an acknowledgement. *)
Inductive Packet : Type :=
  | PState (s : Session)
  | PAck (r : Reply).

(** The packets of one event in the order they are sent: the handler's
    broadcast ([emit] comes first in every handler), then its
    [callback]. *)
Definition packets (e : Event) (sv : Server) : list (SocketId * Packet) :=
  let '(rep, sv') := handle e sv in
  ((fun m : SocketId * Session => (m.1, PState m.2)) <$> drop (length (outbox sv)) (outbox sv')) ++
  match rep with
  | NoReply | Crash => []
  | _ => [(ev_socket e, PAck rep)]
  end.

(** What socket [k] receives of them, in order. *)
Definition wire (k : SocketId) (ps : list (SocketId * Packet)) : list Packet :=
  (filter (fun m => m.1 = k) ps).*2.

(** The page's dispatch of a packet: [socket.on('state', ...)], or the
    acknowledgement callback of the request ([on_ack]). *)
Definition receive (on_ack : Reply -> Page -> Page) (pk : Packet) (p : Page) : Page :=
  match pk with
  | PState s => on_state s p
  | PAck r => on_ack r p
  end.

Definition receive_all (on_ack : Reply -> Page -> Page) (pks : list Packet) (p : Page) : Page :=
  foldl (fun p pk => receive on_ack pk p) p pks.

(** ** Concrete runs *)

(** A fresh page of a browser at ["/fffff"]. *)
Definition page_join : Page := mkPage lobby0 (Replica.new_game 2 2) "/fffff" true false.

Definition on_join_ack (r : Reply) (p : Page) : Page := snd (on_join_reply r p).

(** ["fffff"] after socket 1 joined it. *)
Definition s_joined : Session := mkSession "fffff" false 0 (take 2 PLAYERS) [].

(** ** What a handler does to the rooms and the outbox *)

(** The fields [socket.join] changes. *)
Lemma join_fields sid k sv :
  heap (join sid k sv) = heap sv /\ sessions (join sid k sv) = sessions sv /\
  sockets (join sid k sv) = sockets sv /\ outbox (join sid k sv) = outbox sv /\
  rooms (join sid k sv) =
    <[sid := let ms := default [] (rooms sv !! sid) in
             if decide (k ∈ ms) then ms else ms ++ [k]]> (rooms sv).
Proof. done. Qed.

(** A rejected request changes no session object, room or message. *)
Lemma handle_error e sv msg :
  fst (handle e sv) = ReplyErr msg ->
  outbox (snd (handle e sv)) = outbox sv /\ heap (snd (handle e sv)) = heap sv /\
  rooms (snd (handle e sv)) = rooms sv.
Proof.
  destruct e; cbn [handle];
    unfold onIOCreateSession, onIOJoinSession, onIOStart, onIOTurn, set_socket;
    repeat case_match; cbn; intros; simplify_eq; done.
Qed.

(** The packets of an event, given the messages its handler adds. *)
Lemma packets_app e sv new :
  outbox (snd (handle e sv)) = outbox sv ++ new ->
  packets e sv = ((fun m : SocketId * Session => (m.1, PState m.2)) <$> new) ++
    match fst (handle e sv) with
    | NoReply | Crash => []
    | rep => [(ev_socket e, PAck rep)]
    end.
Proof.
  unfold packets. destruct (handle e sv) as [rep sv'] eqn:E. cbn. intros ->.
  rewrite drop_app_length. by destruct rep.
Qed.

Lemma wire_app k ps qs : wire k (ps ++ qs) = wire k ps ++ wire k qs.
Proof. unfold wire. by rewrite filter_app, fmap_app. Qed.

(** One broadcast to a room without duplicates: each member gets the
    snapshot once. *)
Lemma wire_broadcast k ms s :
  NoDup ms ->
  wire k ((fun m : SocketId * Session => (m.1, PState m.2)) <$> ((fun j => (j, s)) <$> ms)) =
  if decide (k ∈ ms) then [PState s] else [].
Proof.
  unfold wire. induction 1 as [|j ms Hj Hnd IH]; [done|]. cbn [fmap list_fmap].
  destruct (decide (j = k)) as [->|Hne].
  - rewrite filter_cons_True by done. cbn [fmap list_fmap snd].
    rewrite IH, decide_False, decide_True by set_solver. done.
  - rewrite filter_cons_False by done. rewrite IH. repeat case_decide; set_solver.
Qed.

(** The members of a room after [socket.join(room)] of socket [k]. *)
Lemma join_members (k : SocketId) (ms : list SocketId) :
  NoDup ms ->
  NoDup (if decide (k ∈ ms) then ms else ms ++ [k]) /\
  forall j, j ∈ (if decide (k ∈ ms) then ms else ms ++ [k]) <-> j ∈ ms \/ j = k.
Proof.
  intros Hnd. case_decide as Hk.
  - split; [done|]. set_solver.
  - split; [|set_solver]. apply NoDup_app. split_and!; [done|set_solver|apply NoDup_singleton].
Qed.

(** An accepted join: the reply, and the one broadcast, to the room with
    the joiner in it. *)
Lemma join_accepted k sid sv r pid sess' :
  fst (onIOJoinSession k sid sv) = ReplyState r pid sess' ->
  r = sid /\ pid = Z.of_nat (length (players sess')) - 1 /\
  outbox (snd (onIOJoinSession k sid sv)) = outbox sv ++
    ((fun j => (j, sess')) <$> (let ms := default [] (rooms sv !! sid) in
                                 if decide (k ∈ ms) then ms else ms ++ [k])).
Proof.
  unfold onIOJoinSession, set_socket, set_heap, emit_state.
  repeat case_match; cbn -[join]; intros; simplify_eq; cbn -[join];
    rewrite (proj2 (proj2 (proj2 (proj2 (join_fields _ _ _))))),
      (proj1 (proj2 (proj2 (proj2 (join_fields _ _ _)))));
    cbn; rewrite lookup_insert_eq; cbn;
    by repeat match goal with H : decide _ = _ |- _ => rewrite H; clear H end.
Qed.

Lemma wire_ack j k rep : wire j [(k, PAck rep)] = if decide (k = j) then [PAck rep] else [].
Proof. unfold wire. rewrite filter_cons, filter_nil. cbn. by case_decide. Qed.

(** ** Rejections *)

(** C36: the spec's error contract.  When a handler rejects a request,
    the one packet it sends is the error to the requester: nobody else
    hears of it, no ['state'] message goes out, and no session object
    changes. *)
Theorem rejection_private e sv msg :
  fst (handle e sv) = ReplyErr msg ->
  packets e sv = [(ev_socket e, PAck (ReplyErr msg))] /\
  heap (snd (handle e sv)) = heap sv /\ rooms (snd (handle e sv)) = rooms sv.
Proof.
  intros H. destruct (handle_error e sv msg H) as (Ho & Hh & Hr).
  split_and!; [|done|done]. rewrite (packets_app e sv []), H; [done|].
  by rewrite Ho, app_nil_r.
Qed.

(** ** Delivery to the members of a session *)

(** C37: an accepted [joinSession] reaches the joiner as the new
    snapshot and then the acknowledgement, in that order, and every other
    socket of the room as the snapshot alone, once.  The page of the
    joiner, whatever it showed before, ends with the lobby listing the
    roster and marking the joiner, the last player, as [you]: the
    snapshot that arrives first is rendered without the mark, the
    acknowledgement renders it again with the player id. *)
Theorem join_delivery sv k sid r pid sess' p :
  NoDup (default [] (rooms sv !! sid)) ->
  fst (onIOJoinSession k sid sv) = ReplyState r pid sess' ->
  wire k (packets (EvJoinSession k sid) sv) = [PState sess'; PAck (ReplyState r pid sess')] /\
  (forall j, j <> k -> wire j (packets (EvJoinSession k sid) sv) =
     if decide (j ∈ default [] (rooms sv !! sid)) then [PState sess'] else []) /\
  pid = Z.of_nat (length (players sess')) - 1 /\
  litems (plobby (receive_all on_join_ack (wire k (packets (EvJoinSession k sid) sv)) p)) =
    imap (lobby_item (Some pid)) (players sess').
Proof.
  intros Hnd H. destruct (join_accepted k sid sv r pid sess' H) as (-> & Hpid & Ho).
  destruct (join_members k _ Hnd) as [Hnd' Hmem].
  assert (Hw : forall j, wire j (packets (EvJoinSession k sid) sv) =
    (if decide (j ∈ default [] (rooms sv !! sid) \/ j = k) then [PState sess'] else []) ++
    (if decide (k = j) then [PAck (ReplyState sid pid sess')] else [])).
  { intros j. rewrite (packets_app (EvJoinSession k sid) sv _ Ho). cbn [fst handle]. rewrite H.
    rewrite wire_app, wire_broadcast, wire_ack by done. f_equal.
    repeat case_decide; naive_solver. }
  assert (Hk : wire k (packets (EvJoinSession k sid) sv) =
               [PState sess'; PAck (ReplyState sid pid sess')]).
  { rewrite Hw, decide_True, decide_True by auto. done. }
  split_and!; [exact Hk| |exact Hpid|].
  - intros j Hj. rewrite Hw, (decide_False (P := k = j)), app_nil_r by congruence.
    repeat case_decide; naive_solver.
  - rewrite Hk. done.
Qed.

(** ** Witnesses *)

(** The creator starts the game alone: only it hears of the refusal. *)
Lemma rejection_private_witness :
  packets (EvStart 0%nat) SessionSpec.sv_lobby = [(0%nat, PAck (ReplyErr "Waiting for players..."))].
Proof.
  apply (rejection_private (EvStart 0%nat) SessionSpec.sv_lobby "Waiting for players...").
  vm_compute. reflexivity.
Defined.

Lemma join_delivery_witness :
  wire 1%nat (packets (EvJoinSession 1%nat "fffff") SessionSpec.sv_lobby) =
    [PState s_joined; PAck (ReplyState "fffff" 1 s_joined)] /\
  wire 0%nat (packets (EvJoinSession 1%nat "fffff") SessionSpec.sv_lobby) = [PState s_joined].
Proof.
  destruct (join_delivery SessionSpec.sv_lobby 1%nat "fffff" "fffff" 1 s_joined page_join)
    as (Hk & Hj & _ & _).
  - decide_concrete.
  - vm_compute. reflexivity.
  - split; [exact Hk|]. rewrite (Hj 0%nat) by lia. vm_compute. reflexivity.
Defined.

End Broadcast.
